(** * The embedded standard library generator (tools/gen_stdlib.py)

    The generator walks a directory of [.orus] scripts, collects them as
    (name, code) pairs and prints a C file holding the table
    [embeddedStdlib], the lookup [getEmbeddedModule] and the dump
    [dumpEmbeddedStdlib].  This development embeds the Python of the
    generator and the C it prints, and proves properties of both.

    Text is modelled as [string]: a sequence of 8-bit characters.  A
    character stands for one byte of the file; for ASCII-compatible
    encodings such as UTF-8 the bytes of backslash, double quote, line
    feed, carriage return and slash never occur inside a multi-byte
    character, so every operation below acts on bytes the way Python acts
    on the decoded characters.  The data of a file is taken to be text in
    the encoding of the run, so that reading it does not fail to decode. *)

From Stdlib Require Import Ascii String ZArith Lia.
From stdpp Require Import base option list strings gmap.

#[local] Open Scope Z_scope.
#[local] Open Scope nat_scope.

(** ** Characters the generator and its output treat specially *)

Definition backslash : ascii := "092"%char.
Definition dquote : ascii := "034"%char.
Definition newline : ascii := "010"%char.
Definition creturn : ascii := "013"%char.
Definition slash : ascii := "/"%char.
Definition nul : ascii := "000"%char.

(** One-character strings. *)
Definition str (c : ascii) : string := String c "".

(** ** Python [str] methods *)

(** [s.startswith(pre)] *)
Fixpoint startswith (s pre : string) {struct pre} : bool :=
  match pre, s with
  | EmptyString, _ => true
  | String _ _, EmptyString => false
  | String a pre', String b s' =>
      if decide (a = b) then startswith s' pre' else false
  end.

(** [s.endswith(suf)]: some tail of [s] is [suf]. *)
Fixpoint endswith (s suf : string) : bool :=
  if decide (s = suf) then true
  else match s with
       | EmptyString => false
       | String _ s' => endswith s' suf
       end.

(** [s.replace(old, new)] replaces the occurrences of [old] found from left
    to right, none overlapping another.  [skip] counts the characters of
    the occurrence just replaced that are still to be passed over. *)
Fixpoint replace_from (old new : string) (skip : nat) (s : string) : string :=
  match s with
  | EmptyString => EmptyString
  | String c s' =>
      match skip with
      | S k => replace_from old new k s'
      | O =>
          if startswith s old
          then new +:+ replace_from old new (String.length old - 1) s'
          else String c (replace_from old new 0 s')
      end
  end.

(** With an empty [old], Python puts [new] before every character and at
    the end. *)
Fixpoint intersperse_str (new s : string) : string :=
  match s with
  | EmptyString => new
  | String c s' => new +:+ String c (intersperse_str new s')
  end.

Definition replace (s old new : string) : string :=
  match old with
  | EmptyString => intersperse_str new s
  | String _ _ => replace_from old new 0 s
  end.

(** [s.split(sep)] for a one-character separator: the pieces between the
    separators, of which there is always at least one. *)
Fixpoint split (sep : ascii) (s : string) : list string :=
  match s with
  | EmptyString => [EmptyString]
  | String c s' =>
      if decide (c = sep) then EmptyString :: split sep s'
      else match split sep s' with
           | [] => [str c]
           | piece :: pieces => String c piece :: pieces
           end
  end.

(** [sep.join(pieces)] *)
Fixpoint str_join (sep : string) (pieces : list string) : string :=
  match pieces with
  | [] => EmptyString
  | [piece] => piece
  | piece :: pieces' => piece +:+ sep +:+ str_join sep pieces'
  end.

(** [c * n]: the character repeated. *)
Fixpoint str_repeat (c : ascii) (n : nat) : string :=
  match n with
  | O => EmptyString
  | S n' => String c (str_repeat c n')
  end.

(** ** The Escaper

    [def escape_c(s):
        return s.replace('\\', r'\\').replace('"', r'\"').replace('\n', r'\n')] *)
Definition escape_c (s : string) : string :=
  replace
    (replace
       (replace s (str backslash) (String backslash (str backslash)))
       (str dquote) (String backslash (str dquote)))
    (str newline) (String backslash "n").

(** The character map the escaper is meant to be: backslash, double quote
    and line feed become two characters, every other character stays. *)
Definition escape_char (c : ascii) : string :=
  if decide (c = backslash) then String backslash (str backslash)
  else if decide (c = dquote) then String backslash (str dquote)
  else if decide (c = newline) then String backslash "n"
  else str c.

Fixpoint concat_map (f : ascii -> string) (s : string) : string :=
  match s with
  | EmptyString => EmptyString
  | String c s' => f c +:+ concat_map f s'
  end.

(** The body of a C string literal, read back the way the three escapes of
    the Escaper are undone: backslash-backslash is a backslash,
    backslash-quote a double quote, backslash-n a line feed.  A double
    quote or a line feed that is not escaped ends the literal early, and
    any other character after a backslash is not one of the three escapes:
    both give [None]. *)
Fixpoint unescape_from (escaped : bool) (s : string) : option string :=
  match s with
  | EmptyString => if escaped then None else Some EmptyString
  | String c s' =>
      if escaped then
        if decide (c = backslash) then String backslash <$> unescape_from false s'
        else if decide (c = dquote) then String dquote <$> unescape_from false s'
        else if decide (c = "n"%char) then String newline <$> unescape_from false s'
        else None
      else if decide (c = backslash) then unescape_from true s'
      else if decide (c = dquote) then None
      else if decide (c = newline) then None
      else String c <$> unescape_from false s'
  end.

Definition unescape_c (s : string) : option string := unescape_from false s.

(** ** Exceptions

    The generator catches nothing: a raised exception ends the run. *)
Inductive exn : Type :=
| OSError
| ValueError.

Inductive result (A : Type) : Type :=
| Ok (a : A)
| Raise (e : exn).
Arguments Ok {A} a.
Arguments Raise {A} e.

#[global] Instance result_ret : MRet result := fun A a => Ok a.
#[global] Instance result_bind : MBind result := fun A B k r =>
  match r with
  | Ok a => k a
  | Raise e => Raise e
  end.

(** A [for] loop whose body may raise: the state goes from one iteration to
    the next and the first exception leaves the loop. *)
Fixpoint for_each {A S} (body : S -> A -> result S) (l : list A) (s : S)
  : result S :=
  match l with
  | [] => Ok s
  | x :: l' => s' ← body s x; for_each body l' s'
  end.

(** ** posixpath

    The generated C calls the two-argument [mkdir] of [sys/stat.h], so the
    host is a POSIX one and [os.path] is [posixpath]. *)
Module posixpath.

Definition sep : string := "/".
Definition curdir : string := ".".
Definition pardir : string := "..".

Definition isabs (s : string) : bool := startswith s sep.

(** One round of the loop of [join(a, *p)]. *)
Definition join2 (path b : string) : string :=
  if startswith b sep then b
  else if decide (path = "") then path +:+ b
  else if endswith path sep then path +:+ b
  else path +:+ sep +:+ b.

Definition join (a : string) (p : list string) : string :=
  fold_left join2 p a.

(** [initial_slashes] of [normpath]: 0, 1, or 2 for exactly two slashes. *)
Definition initial_slashes (path : string) : nat :=
  if startswith path "/" then
    if startswith path "//" && negb (startswith path "///") then 2 else 1
  else 0.

(** The body of the loop of [normpath] over the pieces of the path. *)
Definition norm_step (slashes : nat) (new_comps : list string)
    (comp : string) : list string :=
  if decide (comp = "" \/ comp = ".") then new_comps
  else if decide (comp <> ".."
                  \/ (slashes = 0 /\ new_comps = [])
                  \/ last new_comps = Some "..")
  then new_comps ++ [comp]
  else removelast new_comps.

Definition norm_comps (path : string) : list string :=
  fold_left (norm_step (initial_slashes path)) (split slash path) [].

Definition normpath (path : string) : string :=
  if decide (path = "") then "."
  else
    let path' :=
      str_repeat slash (initial_slashes path)
      +:+ str_join "/" (norm_comps path) in
    if decide (path' = "") then "." else path'.

(** [abspath], with the result of [os.getcwd()] as [cwd]:
    [if not isabs(path): path = join(cwd, path)
     return normpath(path)] *)
Definition absolute (cwd path : string) : string :=
  if isabs path then path else join2 cwd path.

Definition abspath (cwd path : string) : string :=
  normpath (absolute cwd path).

(** [len(commonprefix([l1, l2]))]: the pieces the two lists share at
    their start ([commonprefix] takes the least and the greatest list
    only so that its index stays in range). *)
Fixpoint commonprefix (l1 l2 : list string) : list string :=
  match l1, l2 with
  | x :: l1', y :: l2' =>
      if decide (x = y) then x :: commonprefix l1' l2' else []
  | _, _ => []
  end.

Definition nonempty_pieces (s : string) : list string :=
  filter (fun x => x <> "") (split slash s).

(** [[x for x in abspath(path).split(sep) if x]] *)
Definition path_list (cwd path : string) : list string :=
  nonempty_pieces (abspath cwd path).

Definition relpath (cwd path start : string) : result string :=
  if decide (path = "") then Raise ValueError
  else
    let start_list := path_list cwd start in
    let path_list := path_list cwd path in
    let i := length (commonprefix start_list path_list) in
    let rel_list :=
      replicate (length start_list - i) pardir ++ drop i path_list in
    match rel_list with
    | [] => Ok curdir
    | a :: p => Ok (join a p)
    end.

End posixpath.

(** ** The source tree as the generator sees it

    A directory lists its entries in the order [os.scandir] gives them.
    [File None] is an entry that was listed but cannot be opened (removed
    since, or unreadable); [Dir None] is a directory that cannot be
    listed.  Symbolic links are not modelled. *)
#[local] Unset Elimination Schemes.
Inductive node : Type :=
| File (data : option string)
| Dir (listing : option (list (string * node))).
#[local] Set Elimination Schemes.

Definition is_dir (n : node) : bool :=
  match n with
  | Dir _ => true
  | File _ => false
  end.

(** What [os.walk] puts in [dirs] and [files] for one directory; each file
    name comes with what [open] finds under it. *)
Definition dirnames (es : list (string * node)) : list string :=
  (filter (fun e => is_dir e.2) es).*1.

Definition filenames (es : list (string * node))
  : list (string * option string) :=
  omap (fun e => match e.2 with
                 | File data => Some (e.1, data)
                 | Dir _ => None
                 end) es.

(** [os.walk(top)], top-down, with [onerror=None]: a directory that cannot
    be listed, or a [top] that is no directory, yields nothing and raises
    nothing. *)
Fixpoint walk (top : string) (n : node)
  : list (string * list string * list (string * option string)) :=
  match n with
  | File _ => []
  | Dir None => []
  | Dir (Some es) =>
      (top, dirnames es, filenames es)
      :: flat_map (fun e => match e.2 with
                            | Dir _ => walk (posixpath.join2 top e.1) e.2
                            | File _ => []
                            end) es
  end.

Definition os_walk (top : string) (root : option node) :=
  match root with
  | Some n => walk top n
  | None => []
  end.

(** ** Reading a file in text mode

    [open(path, 'r')] reads with universal newlines: a carriage return,
    alone or followed by a line feed, arrives as one line feed. *)
Fixpoint universal_newlines (bytes : string) : string :=
  match bytes with
  | EmptyString => EmptyString
  | String c rest =>
      if decide (c = creturn) then
        match rest with
        | String c' rest' =>
            if decide (c' = newline)
            then String newline (universal_newlines rest')
            else String newline (universal_newlines rest)
        | EmptyString => str newline
        end
      else String c (universal_newlines rest)
  end.

Definition open_read (data : option string) : result string :=
  match data with
  | Some bytes => Ok (universal_newlines bytes)
  | None => Raise OSError
  end.

(** ** The Scanner

    [for root, _, files in os.walk(src_dir):
        for f in files:
            if f.endswith('.orus'):
                path = os.path.join(root, f)
                rel = os.path.relpath(path, src_dir)
                with open(path, 'r') as fh:
                    code = fh.read()
                modules.append((os.path.join('std', rel).replace('\\', '/'), code))] *)
Definition module : Type := string * string.

Section Scanner.
Variable cwd : string.
Variable src_dir : string.

Definition scan_file (root : string) (modules : list module)
    (f : string * option string) : result (list module) :=
  if endswith f.1 ".orus" then
    let path := posixpath.join2 root f.1 in
    rel ← posixpath.relpath cwd path src_dir;
    code ← open_read f.2;
    Ok (modules ++
          [(replace (posixpath.join2 "std" rel) (str backslash) "/", code)])
  else Ok modules.

Definition scan_dir (modules : list module)
    (item : string * list string * list (string * option string))
  : result (list module) :=
  for_each (scan_file item.1.1) item.2 modules.

Definition scan (root : option node) : result (list module) :=
  for_each scan_dir (os_walk src_dir root) [].
End Scanner.

(** ** What the specification asks of the Scanner *)

Fixpoint has_char (c : ascii) (s : string) : bool :=
  match s with
  | EmptyString => false
  | String d s' => if decide (d = c) then true else has_char c s'
  end.

(** A name a directory can hold: not empty, not [.] or [..], no slash. *)
Definition proper_name (s : string) : bool :=
  bool_decide (s <> "" /\ s <> "." /\ s <> "..") && negb (has_char slash s).

(** A tree a file system can hold: proper names, none twice in one
    directory. *)
Fixpoint wf_tree (n : node) : bool :=
  match n with
  | Dir (Some es) =>
      bool_decide (NoDup es.*1)
      && forallb (fun e => proper_name e.1 && wf_tree e.2) es
  | _ => true
  end.

(** A file under the root: the directories from the root down to it, its
    name, and what [open] finds. *)
Definition file_entry : Type := list string * string * option string.

(** The files the walk reaches, in its order. *)
Fixpoint files_of (n : node) : list file_entry :=
  match n with
  | Dir (Some es) =>
      map (fun f => ([], f.1, f.2)) (filenames es)
      ++ flat_map (fun e => match e.2 with
                            | Dir _ =>
                                map (fun x : file_entry => (e.1 :: x.1.1, x.1.2, x.2))
                                  (files_of e.2)
                            | File _ => []
                            end) es
  | _ => []
  end.

(** The path of a file relative to the root. *)
Definition relative_path (x : file_entry) : string :=
  str_join "/" (x.1.1 ++ [x.1.2]).

Definition is_orus (x : file_entry) : bool := endswith x.1.2 ".orus".

(** The name the specification gives its module: [std], the relative
    path, every backslash turned into a slash. *)
Definition module_name (x : file_entry) : string :=
  replace ("std/" +:+ relative_path x) (str backslash) "/".

(** Its module: that name, and the data as text mode reads it. *)
Definition module_of (x : file_entry) : option module :=
  data ← x.2; Some (module_name x, universal_newlines data).

(** The Scanner of the specification: one module for each [.orus] file,
    in the order of the walk; the scan fails as soon as one of them
    cannot be opened. *)
Definition scan_spec (root : node) : result (list module) :=
  match mapM module_of (filter (fun x => is_orus x) (files_of root)) with
  | Some modules => Ok modules
  | None => Raise OSError
  end.

(** One step of that scan. *)
Definition add_module (ms : list module) (x : file_entry) : result (list module) :=
  match module_of x with
  | Some m => Ok (ms ++ [m])
  | None => Raise OSError
  end.

(** What one entry of a directory adds to the files under it. *)
Definition entry_files (e : string * node) : list file_entry :=
  match e.2 with
  | File data => [([], e.1, data)]
  | Dir _ => map (fun x : file_entry => (e.1 :: x.1.1, x.1.2, x.2)) (files_of e.2)
  end.

(** Two listings of one tree: the same entries, in any order, at every
    level. *)
Inductive same_tree : node -> node -> Prop :=
| same_file data : same_tree (File data) (File data)
| same_unlisted : same_tree (Dir None) (Dir None)
| same_dir es es' :
    same_listing es es' -> same_tree (Dir (Some es)) (Dir (Some es'))
with same_listing : list (string * node) -> list (string * node) -> Prop :=
| same_nil : same_listing [] []
| same_skip nm n n' es es' :
    same_tree n n' -> same_listing es es' ->
    same_listing ((nm, n) :: es) ((nm, n') :: es')
| same_swap e1 e2 es : same_listing (e1 :: e2 :: es) (e2 :: e1 :: es)
| same_trans es1 es2 es3 :
    same_listing es1 es2 -> same_listing es2 es3 -> same_listing es1 es3.

Scheme same_tree_mut := Induction for same_tree Sort Prop
  with same_listing_mut := Induction for same_listing Sort Prop.

(** Induction over a tree and the entries of its directories. *)
Fixpoint node_ind (P : node -> Prop)
    (Hfile : forall data, P (File data))
    (Hnone : P (Dir None))
    (Hdir : forall es, Forall (fun e => P e.2) es -> P (Dir (Some es)))
    (n : node) : P n :=
  match n with
  | File data => Hfile data
  | Dir None => Hnone
  | Dir (Some es) =>
      Hdir es
        ((fix entries (es : list (string * node)) : Forall (fun e => P e.2) es :=
            match es with
            | [] => List.Forall_nil _
            | e :: es' =>
                List.Forall_cons _ e es' (node_ind P Hfile Hnone Hdir e.2) (entries es')
            end) es)
  end.

(** ** The Emitter *)

Definition NL : string := str newline.
Definition Q : string := str dquote.

(** The lines of one [write], each closed by a line feed. *)
Fixpoint lines (l : list string) : string :=
  match l with
  | [] => EmptyString
  | x :: l' => x +:+ NL +:+ lines l'
  end.

Fixpoint concat_str (l : list string) : string :=
  match l with
  | [] => EmptyString
  | x :: l' => x +:+ concat_str l'
  end.

(** The [h.write] calls, in order. *)
Definition h_writes : list string :=
  [ lines ["#ifndef BUILTIN_STDLIB_H"; "#define BUILTIN_STDLIB_H"; ""];
    lines ["typedef struct {"; "    const char* name;";
           "    const char* source;"; "} EmbeddedModule;"; ""];
    lines ["extern const EmbeddedModule embeddedStdlib[];"];
    lines ["extern const int embeddedStdlibCount;"];
    lines ["const char* getEmbeddedModule(const char* name);"];
    lines ["void dumpEmbeddedStdlib(const char* dir);"];
    lines [""; "#endif"] ].

(** ['    {"%s", "%s"},\n' % (name, escape_c(code))] *)
Definition table_entry (m : module) : string :=
  "    {" +:+ Q +:+ m.1 +:+ Q +:+ ", " +:+ Q +:+ escape_c m.2 +:+ Q +:+ "},"
  +:+ NL.

(** The [c.write] calls, in order. *)
Definition c_writes (modules : list module) : list string :=
  [ "#include " +:+ Q +:+ "../../include/builtin_stdlib.h" +:+ Q +:+ NL;
    lines ["#include <string.h>"; "#include <stdio.h>"; "#include <sys/stat.h>"];
    lines [""; "const EmbeddedModule embeddedStdlib[] = {"] ]
  ++ map table_entry modules
  ++ [ lines ["};"];
       lines ["const int embeddedStdlibCount = sizeof(embeddedStdlib)/sizeof(EmbeddedModule);"];
       lines [""; "const char* getEmbeddedModule(const char* name){"];
       lines ["    for(int i=0;i<embeddedStdlibCount;i++){"];
       lines ["        if(strcmp(embeddedStdlib[i].name,name)==0) return embeddedStdlib[i].source;"];
       lines ["    }"; "    return NULL;"; "}"];
       lines [""; "static void ensure_dir(const char* path){"];
       lines ["    char tmp[512];"; "    strncpy(tmp,path,sizeof(tmp)-1);";
              "    tmp[sizeof(tmp)-1]=0;"];
       lines ["    for(char* p=tmp+1; *p; p++){ if(*p=='/'){ *p=0; mkdir(tmp,0755); *p='/'; } }"];
       lines ["    mkdir(tmp,0755);"; "}"];
       lines [""; "void dumpEmbeddedStdlib(const char* dir){"; "    char full[512];";
              "    for(int i=0;i<embeddedStdlibCount;i++){"];
       "        snprintf(full,sizeof(full)," +:+ Q +:+ "%s/%s" +:+ Q
         +:+ ",dir,embeddedStdlib[i].name);" +:+ NL;
       lines ["        char* slash=strrchr(full,'/');";
              "        if(slash){ *slash=0; ensure_dir(full); *slash='/'; } else { ensure_dir(full); }"];
       "        FILE* f=fopen(full," +:+ Q +:+ "w" +:+ Q
         +:+ "); if(f){ fputs(embeddedStdlib[i].source,f); fclose(f); }" +:+ NL;
       lines ["    }"; "}"] ].

(** ** The generator as a whole

    What a run finds outside itself: the working directory, the tree (if
    any) a path names, and whether a path can be opened for writing. *)
Record env : Type := {
  getcwd : string;
  tree_at : string -> option node;
  writable : string -> bool
}.

(** What a run leaves behind: the exit status, what it printed, and the
    files it wrote, each with its whole content, in the order of the
    [open(..., 'w')] calls. *)
Record outcome : Type := {
  exit_status : Z;
  printed : list string;
  written : list (string * string)
}.

(** [with open(path, 'w') as f: f.write(...) ...] *)
Definition write_file (e : env) (path : string) (writes : list string)
  : result (string * string) :=
  if writable e path then Ok (path, concat_str writes)
  else Raise OSError.

(** An exception nobody catches ends Python with status 1; what was
    written before stays written. *)
Definition uncaught (done : list (string * string)) : outcome :=
  {| exit_status := 1; printed := []; written := done |}.

Definition main (argv : list string) (e : env) : outcome :=
  match argv with
  | [_; src_dir; out_c; out_h] =>
      match scan (getcwd e) src_dir (tree_at e src_dir) with
      | Raise _ => uncaught []
      | Ok modules =>
          match write_file e out_h h_writes with
          | Raise _ => uncaught []
          | Ok h =>
              match write_file e out_c (c_writes modules) with
              | Raise _ => uncaught [h]
              | Ok c => {| exit_status := 0; printed := []; written := [h; c] |}
              end
          end
      end
  | _ =>
      {| exit_status := 1;
         printed := ["Usage: gen_stdlib.py <src_dir> <out_c> <out_h>"];
         written := [] |}
  end.

(** ** The generated C: data

    A C string is modelled by the characters before its terminator, so a
    well-formed one holds no NUL. *)
Record EmbeddedModule : Type := {
  name : string;
  source : string
}.

Definition unsigned_char (c : ascii) : Z := Z.of_nat (nat_of_ascii c).

Fixpoint nul_free (s : string) : bool :=
  match s with
  | EmptyString => true
  | String c s' => if decide (c = nul) then false else nul_free s'
  end.

(** The C string an array of characters holds: what comes before the
    first NUL. *)
Fixpoint c_string (bytes : string) : string :=
  match bytes with
  | EmptyString => EmptyString
  | String c rest => if decide (c = nul) then EmptyString else String c (c_string rest)
  end.

(** What the C compiler makes of one entry of the table: both literals
    are read back with [unescape_c]; the name was printed as it is, the
    code through [escape_c]. *)
Definition compile_entry (m : module) : option EmbeddedModule :=
  n ← unescape_c m.1;
  src ← unescape_c (escape_c m.2);
  Some {| name := c_string n; source := c_string src |}.

Definition compile_table (modules : list module) : option (list EmbeddedModule) :=
  mapM compile_entry modules.

(** ** The generated C: library functions *)

(** [strcmp]: the difference of the first two characters that differ, the
    terminator counting as 0. *)
Fixpoint strcmp (a b : string) : Z :=
  match a, b with
  | EmptyString, EmptyString => 0
  | EmptyString, String d _ => (0 - unsigned_char d)%Z
  | String c _, EmptyString => unsigned_char c
  | String c a', String d b' =>
      if decide (c = d) then strcmp a' b'
      else (unsigned_char c - unsigned_char d)%Z
  end.

(** The first [n] characters: what [strncpy(tmp, path, n); tmp[n] = 0] and
    [snprintf(full, n + 1, ...)] leave in the buffer. *)
Fixpoint truncate (n : nat) (s : string) : string :=
  match n, s with
  | S n', String c s' => String c (truncate n' s')
  | _, _ => EmptyString
  end.

(** [strrchr(s, c)] as the text before the last [c], if there is one. *)
Fixpoint before_last (c : ascii) (s : string) : option string :=
  match s with
  | EmptyString => None
  | String d s' =>
      match before_last c s' with
      | Some pre => Some (String d pre)
      | None => if decide (d = c) then Some EmptyString else None
      end
  end.

(** ** The file system the host program writes to

    Objects are found under their canonical absolute path, a list of
    names from the root down; the root itself is always a directory. *)
Inductive fsobj : Type :=
| FDir
| FFile (data : string).

Record world : Type := {
  objs : gmap (list string) fsobj;
  cwd : list string
}.

Definition obj_at (w : world) (k : list string) : option fsobj :=
  match k with
  | [] => Some FDir
  | _ => objs w !! k
  end.

Definition set_obj (k : list string) (o : fsobj) (w : world) : world :=
  {| objs := <[k := o]> (objs w); cwd := cwd w |}.

(** One component of a path, looked up in the directory reached so far:
    the place reached must be a directory; an empty component and [.]
    stay there, [..] goes to the parent (the root is its own parent), any
    other name is the entry of that name, whether it exists or not. *)
Definition lex_step (k : list string) (c : string) : list string :=
  if decide (c = "" \/ c = ".") then k
  else if decide (c = "..") then removelast k
  else k ++ [c].

Definition path_step (w : world) (cur : option (list string)) (c : string)
  : option (list string) :=
  k ← cur;
  match obj_at w k with
  | Some FDir => Some (lex_step k c)
  | _ => None
  end.

Definition path_start (w : world) (p : string) : list string :=
  if startswith p "/" then [] else cwd w.

(** Resolution of a path; the empty path names nothing. *)
Definition namei (w : world) (p : string) : option (list string) :=
  if decide (p = "") then None
  else fold_left (path_step w) (split slash p) (Some (path_start w p)).

(** Trailing slashes do not count in the name of a directory to create. *)
Fixpoint drop_trailing_empty (l : list string) : list string :=
  match l with
  | [] => []
  | x :: l' =>
      match drop_trailing_empty l' with
      | [] => if decide (x = "") then [] else [x]
      | l'' => x :: l''
      end
  end.

Definition namei_create (w : world) (p : string) : option (list string) :=
  if decide (p = "") then None
  else fold_left (path_step w) (drop_trailing_empty (split slash p))
         (Some (path_start w p)).

(** [mkdir(p, 0755)]: the new world and whether it succeeded.  It fails,
    changing nothing, when the path does not resolve or names something
    that exists. *)
Definition mkdir (p : string) (w : world) : world * bool :=
  match namei_create w p with
  | Some k =>
      match obj_at w k with
      | None => (set_obj k FDir w, true)
      | Some _ => (w, false)
      end
  | None => (w, false)
  end.

(** [fopen(p, "w")]: the file, created or emptied, or NULL when the path
    does not resolve or names a directory. *)
Definition fopen_w (p : string) (w : world) : option (list string * world) :=
  match namei w p with
  | Some k =>
      match obj_at w k with
      | Some FDir => None
      | _ => Some (k, set_obj k (FFile "") w)
      end
  | None => None
  end.

(** [fputs(s, f)] *)
Definition fputs (s : string) (f : list string) (w : world) : world :=
  match obj_at w f with
  | Some (FFile data) => set_obj f (FFile (data +:+ s)) w
  | _ => w
  end.

(** The content of the regular file a path names. *)
Definition file_at (w : world) (p : string) : option string :=
  match namei w p with
  | Some k =>
      match obj_at w k with
      | Some (FFile data) => Some data
      | _ => None
      end
  | None => None
  end.

Definition dir_at (w : world) (p : string) : bool :=
  match namei w p with
  | Some k =>
      match obj_at w k with
      | Some FDir => true
      | _ => false
      end
  | None => false
  end.

(** ** The generated C: the three functions *)

Section Runtime.
(** [const EmbeddedModule embeddedStdlib[] = { ... };] *)
Variable embeddedStdlib : list EmbeddedModule.

Definition embeddedStdlibCount : nat := length embeddedStdlib.

(** [for(int i=0;i<embeddedStdlibCount;i++){
       if(strcmp(embeddedStdlib[i].name,name)==0) return embeddedStdlib[i].source;
     }
     return NULL;]
    [todo] is the number of rounds left, [embeddedStdlibCount - i]. *)
Fixpoint getEmbeddedModule_loop (todo i : nat) (query : string)
  : option string :=
  match todo with
  | O => None
  | S todo' =>
      match embeddedStdlib !! i with
      | Some m =>
          if decide (strcmp (name m) query = 0%Z) then Some (source m)
          else getEmbeddedModule_loop todo' (S i) query
      | None => None
      end
  end.

Definition getEmbeddedModule (query : string) : option string :=
  getEmbeddedModule_loop embeddedStdlibCount 0 query.

(** [for(char* p=tmp+1; *p; p++){ if( *p=='/' ){ *p=0; mkdir(tmp,0755); *p='/'; } }]
    [before] is the text of [tmp] in front of [p], [rest] the text from
    [p] on. *)
Fixpoint ensure_dir_loop (before rest : string) (w : world) : world :=
  match rest with
  | EmptyString => w
  | String c rest' =>
      let w' := if decide (c = slash) then (mkdir before w).1 else w in
      ensure_dir_loop (before +:+ str c) rest' w'
  end.

(** [static void ensure_dir(const char* path)] *)
Definition ensure_dir (path : string) (w : world) : world :=
  let tmp := truncate 511 path in
  let w' :=
    match tmp with
    | EmptyString => w
    | String c rest => ensure_dir_loop (str c) rest w
    end in
  (mkdir tmp w').1.

(** The body of the loop of [dumpEmbeddedStdlib] for one entry. *)
Definition dump_entry (dir : string) (m : EmbeddedModule) (w : world) : world :=
  let full := truncate 511 (dir +:+ "/" +:+ name m) in
  let w1 :=
    match before_last slash full with
    | Some parent => ensure_dir parent w
    | None => ensure_dir full w
    end in
  match fopen_w full w1 with
  | Some (f, w2) => fputs (source m) f w2
  | None => w1
  end.

(** [for(int i=0;i<embeddedStdlibCount;i++){ ... }] *)
Fixpoint dumpEmbeddedStdlib_loop (todo i : nat) (dir : string) (w : world)
  : world :=
  match todo with
  | O => w
  | S todo' =>
      match embeddedStdlib !! i with
      | Some m => dumpEmbeddedStdlib_loop todo' (S i) dir (dump_entry dir m w)
      | None => w
      end
  end.

Definition dumpEmbeddedStdlib (dir : string) (w : world) : world :=
  dumpEmbeddedStdlib_loop embeddedStdlibCount 0 dir w.
End Runtime.

(** ** What the specification asks of the lookup

    The source of the first module, in stored order, whose name is the
    query; nothing when no module has that name. *)
Fixpoint lookup_spec (registry : list EmbeddedModule) (query : string)
  : option string :=
  match registry with
  | [] => None
  | m :: rest =>
      if decide (name m = query) then Some (source m)
      else lookup_spec rest query
  end.

(** The declarations artifact, as one text. *)
Definition declarations_text : string :=
"#ifndef BUILTIN_STDLIB_H
#define BUILTIN_STDLIB_H

typedef struct {
    const char* name;
    const char* source;
} EmbeddedModule;

extern const EmbeddedModule embeddedStdlib[];
extern const int embeddedStdlibCount;
const char* getEmbeddedModule(const char* name);
void dumpEmbeddedStdlib(const char* dir);

#endif
".

(** ** Sample inputs *)

Definition sample_registry : list EmbeddedModule :=
  [ {| name := "std/math.orus"; source := "first" |};
    {| name := "std/io.orus"; source := "io" |};
    {| name := "std/math.orus"; source := "second" |} ].

Definition empty_env : env :=
  {| getcwd := "/"; tree_at := fun _ => None; writable := fun _ => true |}.

(** A script saved with CR LF line ends. *)
Definition crlf_tree : node :=
  Dir (Some [("a.orus", File (Some ("x" +:+ str creturn +:+ NL +:+ "y")))]).

(** A tree whose one script was listed and then removed. *)
Definition vanished_tree : node :=
  Dir (Some [("gone.orus", File None); ("kept.orus", File (Some "kept"))]).

Definition vanished_env : env :=
  {| getcwd := "/";
     tree_at := fun p => if decide (p = "stdlib") then Some vanished_tree else None;
     writable := fun _ => true |}.

(** One directory listed in two orders. *)
Definition tree_ab : node :=
  Dir (Some [("a.orus", File (Some "1"));
             ("sub", Dir (Some [("c.orus", File (Some "3")); ("notes.txt", File (Some "n"))]));
             ("b.orus", File (Some "2"))]).

Definition tree_ba : node :=
  Dir (Some [("b.orus", File (Some "2"));
             ("a.orus", File (Some "1"));
             ("sub", Dir (Some [("notes.txt", File (Some "n")); ("c.orus", File (Some "3"))]))]).

(** The root of a run is missing, cannot be listed, or is no directory. *)
Definition no_listing (root : option node) : Prop :=
  match root with
  | None => True
  | Some (Dir None) => True
  | Some (File _) => True
  | Some (Dir (Some _)) => False
  end.

(** ** The dump, read on canonical paths *)

(** Where a list of components leads from [start] when every directory on
    the way exists. *)
Definition lex_key (start comps : list string) : list string :=
  fold_left lex_step comps start.

Definition path_key (w : world) (p : string) : list string :=
  lex_key (path_start w p) (split slash p).

(** The places on the way from [start] down to [k']. *)
Definition on_way (start k' k : list string) : Prop :=
  start `prefix_of` k /\ k `prefix_of` k'.

Definition no_dotdot (p : string) : Prop :=
  Forall (fun c => c <> "..") (split slash p).

(** [mkdir] on a path already cut into components. *)
Definition mkdir_at (start comps : list string) (w : world) : world :=
  match fold_left (path_step w) (drop_trailing_empty comps) (Some start) with
  | Some k =>
      match obj_at w k with
      | None => set_obj k FDir w
      | Some _ => w
      end
  | None => w
  end.

(** [mkdir] on every prefix of a list of components, shortest first;
    [done] holds the components already passed. *)
Fixpoint mkdir_prefixes (start done todo : list string) (w : world) : world :=
  match todo with
  | [] => w
  | c :: todo' =>
      mkdir_prefixes start (done ++ [c]) todo' (mkdir_at start (done ++ [c]) w)
  end.

(** The text of the components in [done], a slash after each. *)
Fixpoint slashed (done : list string) : string :=
  match done with
  | [] => EmptyString
  | c :: done' => c +:+ "/" +:+ slashed done'
  end.

(** The first piece of a split text grown by [partial] at its front. *)
Definition glue (partial : string) (pieces : list string) : list string :=
  match pieces with
  | [] => [partial]
  | r :: pieces' => (partial +:+ r) :: pieces'
  end.

(** Nothing stands in the way of creating the file [p]: the directory
    the path starts from exists, no place on the way down to its parent
    holds a regular file, and [p] itself is no directory. *)
Definition clear_way (w : world) (p : string) : Prop :=
  obj_at w (path_start w p) = Some FDir
  /\ (forall k data,
        on_way (path_start w p) (path_key w p) k ->
        k <> path_key w p -> obj_at w k <> Some (FFile data))
  /\ obj_at w (path_key w p) <> Some FDir.

(** [w'] is [w] with a directory at every place on the way from [start]
    down to [k']. *)
Definition grown (w : world) (start k' : list string) (w' : world) : Prop :=
  cwd w' = cwd w
  /\ (forall k, on_way start k' k -> obj_at w' k = Some FDir)
  /\ (forall k, ~ on_way start k' k -> obj_at w' k = obj_at w k).

(** The path ends in a name: not in a slash, not in a dot. *)
Definition names_file (p : string) : Prop :=
  exists leaf, last (split slash p) = Some leaf /\ leaf <> "" /\ leaf <> ".".

(** Sample worlds: an empty one; one where a regular file sits where the
    dump wants a directory; one that holds an older copy of a module. *)
Definition empty_world : world := {| objs := ∅; cwd := [] |}.

Definition blocked_world : world :=
  {| objs := {[ ["out"] := FDir; ["out"; "std"] := FFile "in the way" ]};
     cwd := [] |}.

Definition stale_world : world :=
  {| objs := {[ ["out"] := FDir; ["out"; "std"] := FDir;
                ["out"; "std"; "math.orus"] := FFile "old" ]};
     cwd := [] |}.

Definition math_module : EmbeddedModule :=
  {| name := "std/math.orus"; source := "new" |}.

(** A target directory 540 characters long. *)
Definition long_dir : string := slashed (replicate 60 "dddddddd").

(** ** A table made of named files

    A job is a module told by the components of its name. *)
Definition job : Type := list string * string.

Definition job_module (j : job) : EmbeddedModule :=
  {| name := str_join "/" j.1; source := j.2 |}.

Definition proper_job (j : job) : Prop :=
  j.1 <> [] /\ Forall (fun c => proper_name c) j.1.

(** No name is another name or a directory on the way to it. *)
Definition prefix_free (jobs : list job) : Prop :=
  forall j j', j ∈ jobs -> j' ∈ jobs -> j.1 `prefix_of` j'.1 -> j = j'.

(** [w'] is [w] after the jobs in [jobs] were dumped below the place [t]
    reached from [start]. *)
Definition dumped (w : world) (start t : list string) (jobs : list job)
    (w' : world) : Prop :=
  cwd w' = cwd w
  /\ (forall j, j ∈ jobs -> obj_at w' (t ++ j.1) = Some (FFile j.2))
  /\ (forall j k, j ∈ jobs -> on_way start (t ++ j.1) k -> k <> t ++ j.1 ->
                  obj_at w' k = Some FDir)
  /\ (forall k data, obj_at w' k = Some (FFile data) ->
                     obj_at w k = Some (FFile data)
                     \/ exists j, j ∈ jobs /\ k = t ++ j.1)
  /\ (forall k, obj_at w' k = Some FDir ->
                obj_at w k = Some FDir
                \/ exists j, j ∈ jobs /\ on_way start (t ++ j.1) k /\ k <> t ++ j.1)
  /\ (forall k, obj_at w k = Some FDir -> obj_at w' k = Some FDir).

(** The target directory is fresh: the directory its path starts from
    exists, no place on the way to it is a regular file, and nothing is
    below it. *)
Definition fresh_target (w : world) (dir : string) : Prop :=
  let start := path_start w (dir +:+ "/") in
  let t := lex_key start (split slash dir) in
  obj_at w start = Some FDir
  /\ (forall k data, on_way start t k -> obj_at w k <> Some (FFile data))
  /\ (forall k, t `prefix_of` k -> k <> t -> obj_at w k = None).

(** ** From the source tree to the target directory *)

(** Scan the tree, print the table, compile it, dump it; [None] when the
    scan raises or the table does not compile. *)
Definition round_trip (cwd src_dir : string) (root : node) (dir : string)
    (w : world) : option world :=
  match scan cwd src_dir (Some root) with
  | Ok modules =>
      reg ← compile_table modules; Some (dumpEmbeddedStdlib reg dir w)
  | Raise _ => None
  end.

(** A name that goes through the generator, the C compiler and the dump
    unchanged: proper, and free of backslash, double quote, line feed and
    NUL. *)
Definition plain_name (s : string) : bool :=
  proper_name s
  && negb (has_char backslash s) && negb (has_char dquote s)
  && negb (has_char newline s) && nul_free s.

(** A text that does: free of carriage return and NUL. *)
Definition plain_text (s : string) : bool :=
  negb (has_char creturn s) && nul_free s.

(** Every name in the tree is plain, and so is the data of every file. *)
Fixpoint portable_tree (n : node) : bool :=
  match n with
  | File (Some data) => plain_text data
  | File None => true
  | Dir None => true
  | Dir (Some es) => forallb (fun e => plain_name e.1 && portable_tree e.2) es
  end.

(** The job a file becomes. *)
Definition job_of (x : file_entry) : option job :=
  data ← x.2; Some ("std" :: x.1.1 ++ [x.1.2], data).

(** Sample trees: a script whose name holds a double quote, and one whose
    name holds a backslash. *)
Definition quote_tree : node :=
  Dir (Some [("a" +:+ Q +:+ "b.orus", File (Some "x"))]).

Definition backslash_tree : node :=
  Dir (Some [("a" +:+ str backslash +:+ "b.orus", File (Some "x"))]).
(** ** Further notions used in the properties below *)

(** The number of characters of a text the Escaper writes as two. *)
Fixpoint count_escaped (s : string) : nat :=
  match s with
  | EmptyString => 0
  | String c s' =>
      (if decide (c = backslash \/ c = dquote \/ c = newline) then 1 else 0)
      + count_escaped s'
  end.

(** An environment where only [out.h] can be opened for writing. *)
Definition header_only_env : env :=
  {| getcwd := "/"; tree_at := fun _ => None;
     writable := fun p => bool_decide (p = "out.h") |}.

(** The tree with every directory that cannot be listed taken as an empty
    one. *)
Fixpoint listed (n : node) : node :=
  match n with
  | File data => File data
  | Dir None => Dir (Some [])
  | Dir (Some es) => Dir (Some (map (fun e => (e.1, listed e.2)) es))
  end.

(** A tree with a directory that cannot be listed. *)
Definition locked_tree : node :=
  Dir (Some [("a.orus", File (Some "1"));
             ("locked", Dir None);
             ("sub", Dir (Some [("c.orus", File (Some "3"))]))]).

(** A tree where two scripts get one module name: the backslash in the
    name of the first becomes the slash that separates the second from its
    directory. *)
Definition colliding_tree : node :=
  Dir (Some [("a" +:+ str backslash +:+ "b.orus", File (Some "1"));
             ("a", Dir (Some [("b.orus", File (Some "2"))]))]).

(** A table of two named files. *)
Definition sample_jobs : list job :=
  [(["std"; "math.orus"], "m"); (["std"; "io"; "file.orus"], "f")].

(** The paths the loop of [ensure_dir] calls [mkdir] on, in order: the
    text in front of each slash it meets. *)
Fixpoint cuts (before rest : string) : list string :=
  match rest with
  | EmptyString => []
  | String c rest' =>
      (if decide (c = slash) then [before] else [])
      ++ cuts (before +:+ str c) rest'
  end.

(** All the paths [ensure_dir] calls [mkdir] on, the whole path last. *)
Definition mkdir_calls (path : string) : list string :=
  let tmp := truncate 511 path in
  match tmp with
  | EmptyString => []
  | String c rest => cuts (str c) rest
  end ++ [tmp].

Definition mkdirs (l : list string) (w : world) : world :=
  fold_left (fun w q => (mkdir q w).1) l w.

(** [mkdir q] has nothing to do in [w]: the path does not resolve, or
    what it names exists. *)
Definition settled (w : world) (q : string) : Prop :=
  match namei_create w q with
  | Some k => obj_at w k <> None
  | None => True
  end.

(** [q'] is [q], a slash and more. *)
Definition extends (q q' : string) : Prop :=
  exists r, q' = q +:+ String slash r.

(** Each path of the list is extended by all that come after it. *)
Fixpoint chain (l : list string) : Prop :=
  match l with
  | [] => True
  | q :: l' => Forall (extends q) l' /\ chain l'
  end.

(** What the dump of the table [reg] can do to the object under one key:
    leave it, make a directory where there was nothing, or put the
    source of a module where there was no directory. *)
Definition dump_change (reg : list EmbeddedModule) (o o' : option fsobj) : Prop :=
  o' = o
  \/ (o = None /\ o' = Some FDir)
  \/ (o <> Some FDir /\ exists m, m ∈ reg /\ o' = Some (FFile (source m))).

(** A tree with a script whose name, once its backslashes are slashes,
    climbs out of [std] and of the target directory. *)
Definition climbing_tree : node :=
  Dir (Some [(".." +:+ str backslash +:+ ".." +:+ str backslash +:+ "x.orus",
              File (Some "x"))]).

(** A module whose code holds a double quote, a backslash, a line feed
    and a NUL. *)
Definition odd_module : module :=
  ("std/odd.orus",
   "a" +:+ Q +:+ str backslash +:+ NL +:+ "b" +:+ str nul +:+ "c").

(** ** The file system read back as a tree

    [reads_as w K n]: the tree [n] is what a walk finds at the place [K]
    of the file system [w], its directories listed in some order: a
    regular file shows its content, a directory one entry for each
    object right below it. *)
#[local] Unset Elimination Schemes.
Inductive reads_as (w : world) : list string -> node -> Prop :=
| reads_file K data :
    obj_at w K = Some (FFile data) -> reads_as w K (File (Some data))
| reads_dir K es :
    obj_at w K = Some FDir ->
    NoDup es.*1 ->
    (forall nm, nm ∈ es.*1 <-> obj_at w (K ++ [nm]) <> None) ->
    Forall (fun e => reads_as w (K ++ [e.1]) e.2) es ->
    reads_as w K (Dir (Some es)).
#[local] Set Elimination Schemes.

(** A tree of one script. *)
Definition one_script_tree : node :=
  Dir (Some [("a.orus", File (Some "x"))]).


(* ================================================================== *)
(** * Properties *)

(** ** Strings *)

Lemma str_app_cons (c : ascii) (s t : string) :
  String c s +:+ t = String c (s +:+ t).
Proof. reflexivity. Qed.

Lemma str_app_nil_l (t : string) : "" +:+ t = t.
Proof. reflexivity. Qed.

Lemma str_app_nil_r (s : string) : s +:+ "" = s.
Proof. induction s as [|c s IH]; [reflexivity|]. rewrite str_app_cons. by rewrite IH. Qed.

Lemma str_app_assoc (s t u : string) : (s +:+ t) +:+ u = s +:+ (t +:+ u).
Proof. induction s as [|c s IH]; [reflexivity|]. rewrite !str_app_cons. by rewrite IH. Qed.

Lemma concat_map_app f s t :
  concat_map f (s +:+ t) = concat_map f s +:+ concat_map f t.
Proof.
  induction s as [|c s IH]; [reflexivity|].
  rewrite str_app_cons. simpl. rewrite IH. by rewrite str_app_assoc.
Qed.

(** Push the characters of a known prefix out of an append. *)
Ltac str_norm := unfold str; rewrite ?str_app_cons, ?str_app_nil_l.

(** ** The Escaper *)

#[local] Arguments escape_c : simpl never.

(** Replacing a one-character pattern is a character map. *)
Lemma replace_char (a : ascii) (new s : string) :
  replace s (str a) new
  = concat_map (fun c => if decide (c = a) then new else str c) s.
Proof.
  unfold replace, str.
  induction s as [|c s IH]; [reflexivity|].
  simpl. destruct (decide (a = c)) as [->|Hne].
  - rewrite decide_True by done. by rewrite IH.
  - rewrite decide_False by congruence. by rewrite IH.
Qed.

Lemma escape_c_concat_map (s : string) :
  escape_c s = concat_map escape_char s.
Proof.
  unfold escape_c. rewrite !replace_char.
  induction s as [|c s IH]; [reflexivity|].
  simpl. rewrite !concat_map_app, IH. f_equal.
  unfold escape_char.
  destruct (decide (c = backslash)) as [->|Hb]; [reflexivity|].
  destruct (decide (c = dquote)) as [->|Hq]; [reflexivity|].
  destruct (decide (c = newline)) as [->|Hn]; [reflexivity|].
  simpl. rewrite decide_False by done. simpl. by rewrite decide_False by done.
Qed.

Lemma escape_c_cons (c : ascii) (s : string) :
  escape_c (String c s) = escape_char c +:+ escape_c s.
Proof. by rewrite !escape_c_concat_map. Qed.

Lemma escape_c_nil : escape_c "" = "".
Proof. reflexivity. Qed.

(** The four shapes of [escape_char]. *)
Lemma escape_char_cases (c : ascii) :
  (c = backslash /\ escape_char c = String backslash (str backslash))
  \/ (c = dquote /\ escape_char c = String backslash (str dquote))
  \/ (c = newline /\ escape_char c = String backslash "n")
  \/ (c <> backslash /\ c <> dquote /\ c <> newline /\ escape_char c = str c).
Proof.
  unfold escape_char.
  destruct (decide (c = backslash)); [by left|].
  destruct (decide (c = dquote)); [by right; left|].
  destruct (decide (c = newline)); [by right; right; left|].
  by right; right; right.
Qed.

Example escape_c_sample :
  escape_c ("a" +:+ str dquote +:+ str backslash +:+ str newline +:+ "b")
  = "a" +:+ str backslash +:+ str dquote +:+ str backslash +:+ str backslash
        +:+ str backslash +:+ "nb".
Proof. reflexivity. Qed.

(** Python replaces from the left and never looks again at what it has
    put in. *)
Example replace_sample : replace "aaa" "aa" "a" = "aa".
Proof. reflexivity. Qed.

Example replace_empty_sample : replace "ab" "" "-" = "-a-b-".
Proof. reflexivity. Qed.

(** C2.  The Escaper is a total function, equal to the per-character map
    that sends backslash, double quote and line feed to their
    two-character escapes and every other character to itself. *)
Theorem escape_c_is_char_map (s : string) :
  escape_c s = concat_map escape_char s
  /\ escape_char backslash = String backslash (str backslash)
  /\ escape_char dquote = String backslash (str dquote)
  /\ escape_char newline = String backslash "n"
  /\ forall c, c <> backslash -> c <> dquote -> c <> newline ->
       escape_char c = str c.
Proof.
  split; [apply escape_c_concat_map|].
  repeat split.
  intros c Hb Hq Hn. destruct (escape_char_cases c) as [[? _]|[[? _]|[[? _]|(_&_&_&H)]]]; done.
Qed.

Lemma unescape_escape (s : string) : unescape_from false (escape_c s) = Some s.
Proof.
  induction s as [|c s IH]; [reflexivity|].
  rewrite escape_c_cons.
  destruct (escape_char_cases c) as [[-> ->]|[[-> ->]|[[-> ->]|(Hb&Hq&Hn&->)]]];
    str_norm; simpl; rewrite ?IH; try reflexivity.
  by rewrite !decide_False by done.
Qed.

(** C3.  Escaping is undone exactly by reading the three escapes back:
    for every string, the empty one and those with backslashes, double
    quotes and line feeds included. *)
Theorem unescape_c_escape_c (s : string) : unescape_c (escape_c s) = Some s.
Proof. apply unescape_escape. Qed.

Lemma get_app_l (s t : string) (i : nat) :
  i < String.length s -> String.get i (s +:+ t) = String.get i s.
Proof.
  revert i. induction s as [|c s IH]; intros i Hi; simpl in Hi; [lia|].
  rewrite str_app_cons. destruct i as [|i]; [reflexivity|]. simpl. apply IH. lia.
Qed.

Lemma get_app_r (s t : string) (i : nat) :
  String.get (String.length s + i) (s +:+ t) = String.get i t.
Proof. induction s as [|c s IH]; [reflexivity|]. rewrite str_app_cons. simpl. apply IH. Qed.

Lemma escape_c_no_newline (s : string) (i : nat) :
  String.get i (escape_c s) <> Some newline.
Proof.
  revert i. induction s as [|c s IH]; intros i; [by destruct i|].
  rewrite escape_c_cons.
  destruct (escape_char_cases c) as [[-> ->]|[[-> ->]|[[-> ->]|(Hb&Hq&Hn&->)]]];
    str_norm; (destruct i as [|[|i]]; simpl; try apply IH; try discriminate).
  all: congruence.
Qed.

Lemma escape_c_quotes_escaped (s : string) (i : nat) :
  String.get i (escape_c s) = Some dquote ->
  exists j, i = S j /\ String.get j (escape_c s) = Some backslash.
Proof.
  revert i. induction s as [|c s IH]; intros i; [by destruct i|].
  rewrite escape_c_cons.
  destruct (escape_char_cases c) as [[-> ->]|[[-> ->]|[[-> ->]|(Hb&Hq&Hn&->)]]].
  all: str_norm; destruct i as [|[|i]]; simpl; try discriminate.
  all: try (intros Hi; apply IH in Hi as (j & -> & Hj); eexists; split; [reflexivity|exact Hj]).
  all: try (intros _; by exists 0).
  congruence.
Qed.

(** C9.  The escaped code holds no line feed, and every double quote in it
    comes right after a backslash; read back as the body of a literal it
    is consumed to its end, so the literal of a table entry stays on one
    line and is closed by its own closing quote only. *)
Theorem escape_c_literal_safe (s : string) :
  (forall i, String.get i (escape_c s) <> Some newline)
  /\ (forall i, String.get i (escape_c s) = Some dquote ->
        exists j, i = S j /\ String.get j (escape_c s) = Some backslash)
  /\ is_Some (unescape_c (escape_c s)).
Proof.
  split; [apply escape_c_no_newline|].
  split; [apply escape_c_quotes_escaped|].
  unfold unescape_c. rewrite unescape_escape. by eexists.
Qed.

(** ** Lookup *)

Lemma unsigned_char_inj (c d : ascii) :
  unsigned_char c = unsigned_char d -> c = d.
Proof.
  unfold unsigned_char. intros H. apply Nat2Z.inj in H.
  rewrite <- (ascii_nat_embedding c), <- (ascii_nat_embedding d). by rewrite H.
Qed.

Lemma unsigned_char_nul (c : ascii) : unsigned_char c = 0%Z -> c = nul.
Proof. intros H. by apply unsigned_char_inj. Qed.

(** On C strings [strcmp] is 0 exactly between equal strings. *)
Lemma strcmp_0_iff (a b : string) :
  nul_free a -> nul_free b -> strcmp a b = 0%Z <-> a = b.
Proof.
  revert b. induction a as [|c a IH]; intros [|d b]; simpl.
  - done.
  - destruct (decide (d = nul)) as [|Hd]; [done|]. intros _ _. split; [|done].
    intros H. destruct Hd. apply unsigned_char_nul. lia.
  - destruct (decide (c = nul)) as [|Hc]; [done|]. intros _ _. split; [|done].
    intros H. destruct Hc. by apply unsigned_char_nul.
  - destruct (decide (c = nul)) as [|Hc]; [done|].
    destruct (decide (d = nul)) as [|Hd]; [done|]. intros Ha Hb.
    destruct (decide (c = d)) as [->|Hcd].
    + rewrite IH by done. split; congruence.
    + split; [|congruence]. intros H. destruct Hcd. apply unsigned_char_inj. lia.
Qed.

Lemma getEmbeddedModule_loop_spec (reg : list EmbeddedModule) (query : string)
    (todo i : nat) :
  Forall (fun m => nul_free (name m)) reg -> nul_free query ->
  todo = length reg - i ->
  getEmbeddedModule_loop reg todo i query = lookup_spec (drop i reg) query.
Proof.
  intros Hreg Hq. revert i. induction todo as [|todo IH]; intros i Hi; simpl.
  - by rewrite drop_ge by lia.
  - destruct (lookup_lt_is_Some_2 reg i) as [m Hm]; [lia|].
    rewrite Hm, (drop_S _ _ _ Hm). simpl.
    assert (nul_free (name m)) as Hn.
    { by eapply (Forall_lookup_1 _ _ _ _ Hreg). }
    destruct (decide (strcmp (name m) query = 0%Z)) as [H0|H0];
      rewrite strcmp_0_iff in H0 by done.
    + by rewrite decide_True.
    + rewrite decide_False by done. apply IH. lia.
Qed.

Lemma lookup_spec_first (pre post : list EmbeddedModule) m query :
  name m = query ->
  (forall m', m' ∈ pre -> name m' <> query) ->
  lookup_spec (pre ++ m :: post) query = Some (source m).
Proof.
  intros Hm. induction pre as [|m0 pre IH]; intros Hpre; simpl.
  - by rewrite decide_True.
  - rewrite decide_False by (apply Hpre; left). apply IH.
    intros m' Hin. apply Hpre. by right.
Qed.

Lemma lookup_spec_none (reg : list EmbeddedModule) query :
  (forall m, m ∈ reg -> name m <> query) -> lookup_spec reg query = None.
Proof.
  induction reg as [|m0 reg IH]; intros Hreg; simpl; [done|].
  rewrite decide_False by (apply Hreg; left). apply IH.
  intros m' Hin. apply Hreg. by right.
Qed.

Example lookup_duplicate :
  getEmbeddedModule sample_registry "std/math.orus" = Some "first".
Proof. reflexivity. Qed.

Example lookup_case_sensitive :
  getEmbeddedModule sample_registry "std/Math.orus" = None.
Proof. reflexivity. Qed.

Example lookup_empty : getEmbeddedModule [] "std/math.orus" = None.
Proof. reflexivity. Qed.

(** C4.  On a table of C strings, [getEmbeddedModule] scans in stored order
    and returns the source of the first module whose name is the query,
    character for character; it returns NULL when no module has that
    name, the empty table included; of several modules of one name the
    first wins. *)
Theorem getEmbeddedModule_first_match (reg : list EmbeddedModule) (query : string) :
  Forall (fun m => nul_free (name m)) reg ->
  nul_free query ->
  getEmbeddedModule reg query = lookup_spec reg query
  /\ (forall pre m post,
        reg = pre ++ m :: post -> name m = query ->
        (forall m', m' ∈ pre -> name m' <> query) ->
        getEmbeddedModule reg query = Some (source m))
  /\ ((forall m, m ∈ reg -> name m <> query) ->
        getEmbeddedModule reg query = None).
Proof.
  intros Hreg Hq.
  assert (getEmbeddedModule reg query = lookup_spec reg query) as E.
  { unfold getEmbeddedModule, embeddedStdlibCount.
    rewrite (getEmbeddedModule_loop_spec reg query _ 0) by (done || lia).
    by rewrite drop_0. }
  rewrite E. split; [done|]. split.
  - intros pre m post -> Hm Hpre. by apply lookup_spec_first.
  - apply lookup_spec_none.
Qed.

Lemma getEmbeddedModule_first_match_witness :
  getEmbeddedModule sample_registry "std/math.orus"
  = lookup_spec sample_registry "std/math.orus"
  /\ getEmbeddedModule sample_registry "std/math.orus" = Some "first".
Proof.
  assert (Forall (fun m => nul_free (name m)) sample_registry) as Hreg.
  { repeat constructor. }
  assert (nul_free "std/math.orus") as Hq by reflexivity.
  destruct (getEmbeddedModule_first_match sample_registry "std/math.orus" Hreg Hq)
    as (E & Hfirst & _).
  split; [exact E|].
  apply (Hfirst [] {| name := "std/math.orus"; source := "first" |}
           (tail sample_registry)); [reflexivity|reflexivity|].
  intros m' Hin. by apply elem_of_nil in Hin.
Defined.

(** ** The declarations artifact *)

Lemma h_writes_text : concat_str h_writes = declarations_text.
Proof. reflexivity. Qed.



(** ** Prefixes, suffixes, pieces *)

Lemma app_eq_nil_str (s t : string) : s +:+ t = "" -> s = "" /\ t = "".
Proof. destruct s; [done|]. rewrite str_app_cons. discriminate. Qed.

Lemma length_app_str (s t : string) :
  String.length (s +:+ t) = String.length s + String.length t.
Proof. induction s as [|c s IH]; [done|]. rewrite str_app_cons. simpl. by rewrite IH. Qed.

Lemma startswith_app (s t p : string) :
  startswith s p = true -> startswith (s +:+ t) p = true.
Proof.
  revert s. induction p as [|a p IH]; intros [|b s]; try done.
  rewrite str_app_cons. simpl. destruct (decide (a = b)); [apply IH|done].
Qed.

Lemma startswith_char_app (s t : string) (c : ascii) :
  s <> "" -> startswith (s +:+ t) (str c) = startswith s (str c).
Proof. destruct s as [|b s]; [done|]. intros _. rewrite str_app_cons. reflexivity. Qed.

Lemma endswith_unfold (s suf : string) :
  endswith s suf =
  if decide (s = suf) then true
  else match s with
       | EmptyString => false
       | String _ s' => endswith s' suf
       end.
Proof. by destruct s. Qed.

Lemma endswith_refl (s : string) : endswith s s = true.
Proof. rewrite endswith_unfold. by rewrite decide_True. Qed.

Lemma endswith_char_app (s t : string) (c : ascii) :
  t <> "" -> endswith (s +:+ t) (str c) = endswith t (str c).
Proof.
  intros Ht. induction s as [|b s IH]; [done|].
  rewrite str_app_cons, endswith_unfold. rewrite decide_False; [exact IH|].
  unfold str. intros [= _ H]. by apply app_eq_nil_str in H as [_ ?].
Qed.

Lemma endswith_char_snoc (s : string) (c d : ascii) :
  endswith (s +:+ str d) (str c) = bool_decide (d = c).
Proof.
  rewrite endswith_char_app by done. unfold str.
  rewrite endswith_unfold.
  destruct (decide (d = c)) as [->|Hne].
  - rewrite decide_True by done. by rewrite bool_decide_eq_true_2.
  - rewrite decide_False by congruence. rewrite endswith_unfold.
    rewrite decide_False by done. by rewrite bool_decide_eq_false_2.
Qed.

Lemma endswith_suffix (s t : string) : endswith (s +:+ t) t = true.
Proof.
  induction s as [|b s IH]; [apply endswith_refl|].
  rewrite str_app_cons, endswith_unfold. by destruct (decide _).
Qed.

Lemma has_char_app (c : ascii) (s t : string) :
  has_char c (s +:+ t) = has_char c s || has_char c t.
Proof.
  induction s as [|b s IH]; [done|]. rewrite str_app_cons. simpl.
  by destruct (decide (b = c)).
Qed.

Lemma split_nonempty (sep : ascii) (s : string) : split sep s <> [].
Proof.
  induction s as [|c s IH]; simpl; [done|].
  destruct (decide (c = sep)); [done|]. by destruct (split sep s).
Qed.

Lemma split_no_sep (sep : ascii) (s : string) :
  has_char sep s = false -> split sep s = [s].
Proof.
  induction s as [|c s IH]; simpl; [done|].
  destruct (decide (c = sep)); [done|]. intros H. by rewrite IH.
Qed.

Lemma split_app_sep (sep : ascii) (a b : string) :
  split sep (a +:+ String sep b) = split sep a ++ split sep b.
Proof.
  induction a as [|c a IH]; rewrite ?str_app_cons, ?str_app_nil_l; simpl.
  - by rewrite decide_True.
  - destruct (decide (c = sep)); [by rewrite IH|].
    rewrite IH. pose proof (split_nonempty sep a). by destruct (split sep a).
Qed.

Lemma split_pieces (sep : ascii) (s : string) :
  Forall (fun p => has_char sep p = false) (split sep s).
Proof.
  induction s as [|c s IH]; simpl; [by repeat constructor|].
  destruct (decide (c = sep)); [by constructor|].
  destruct (split sep s) as [|p ps]; [by repeat constructor; simpl; rewrite decide_False|].
  inversion IH; subst. constructor; [|done]. simpl. by rewrite decide_False.
Qed.

Lemma str_join_cons (sep x : string) (l : list string) :
  l <> [] -> str_join sep (x :: l) = x +:+ sep +:+ str_join sep l.
Proof. by destruct l. Qed.

Lemma str_join_snoc (sep x : string) (l : list string) :
  l <> [] -> str_join sep (l ++ [x]) = str_join sep l +:+ sep +:+ x.
Proof.
  induction l as [|y l IH]; [done|]. intros _.
  destruct l as [|z l]; [done|].
  change ((y :: z :: l) ++ [x]) with (y :: ((z :: l) ++ [x])).
  rewrite str_join_cons by (simpl; discriminate).
  rewrite IH by done. rewrite (str_join_cons sep y (z :: l)) by done.
  by rewrite !str_app_assoc.
Qed.

Lemma split_join (l : list string) :
  l <> [] -> Forall (fun p => has_char slash p = false) l ->
  split slash (str_join "/" l) = l.
Proof.
  induction l as [|x l IH]; [done|]. intros _ Hl. inversion Hl; subst.
  destruct l as [|y l]; [by apply split_no_sep|].
  rewrite str_join_cons by done.
  change ("/" +:+ str_join "/" (y :: l)) with (String slash (str_join "/" (y :: l))).
  rewrite split_app_sep, IH by done. by rewrite split_no_sep.
Qed.

Lemma truncate_fits (n : nat) (s : string) :
  String.length s <= n -> truncate n s = s.
Proof.
  revert n. induction s as [|c s IH]; intros [|n] H; simpl in *; try done; [lia|].
  rewrite IH; [done|lia].
Qed.

(** A proper name, unfolded. *)
Lemma proper_name_spec (s : string) :
  proper_name s ->
  s <> "" /\ s <> "." /\ s <> ".." /\ has_char slash s = false.
Proof.
  unfold proper_name. intros H. apply andb_prop_elim in H as [H1 H2].
  apply bool_decide_unpack in H1 as (?&?&?).
  apply negb_prop_elim in H2. repeat split; try done.
  by destruct (has_char slash s).
Qed.

Lemma proper_not_abs (s : string) : proper_name s -> startswith s "/" = false.
Proof.
  intros H. apply proper_name_spec in H as (Hne&_&_&Hs).
  destruct s as [|c s]; [done|]. simpl in *.
  change "/"%char with slash.
  destruct (decide (slash = c)) as [<-|]; [|done]. by rewrite decide_True in Hs.
Qed.

Lemma proper_open_end (p s : string) :
  proper_name s -> endswith (p +:+ s) "/" = false.
Proof.
  intros H. apply proper_name_spec in H as (Hne&_&_&Hs).
  change (endswith (p +:+ s) (str slash) = false).
  rewrite (endswith_char_app p s slash) by done. clear p Hne.
  induction s as [|c s IH]; [done|]. simpl in Hs.
  destruct (decide (c = slash)) as [|Hc]; [done|].
  rewrite endswith_unfold. destruct (decide _) as [E|_]; [|by apply IH].
  unfold str in E. congruence.
Qed.

(** ** posixpath on the paths the walk builds *)

Section PathLemmas.
Import posixpath.
Variable cwd : string.
Hypothesis cwd_abs : isabs cwd = true.

Lemma isabs_nonempty (p : string) : isabs p = true -> p <> "".
Proof. by destruct p. Qed.

Lemma isabs_app (p t : string) : isabs p = true -> isabs (p +:+ t) = true.
Proof. apply startswith_app. Qed.

Lemma endswith_slash_inv (s : string) :
  endswith s "/" = true -> exists t, s = t +:+ "/".
Proof.
  induction s as [|c s IH]; rewrite endswith_unfold.
  - by destruct (decide _).
  - destruct (decide _) as [->|_]; [by exists ""|].
    intros H. destruct (IH H) as [t ->]. by exists (String c t).
Qed.

Lemma join2_proper (p nm : string) :
  proper_name nm ->
  join2 p nm =
  if decide (p = "") then p +:+ nm
  else if endswith p "/" then p +:+ nm else p +:+ "/" +:+ nm.
Proof. intros H. unfold join2, sep. by rewrite proper_not_abs. Qed.

Lemma join2_relative (p : string) :
  isabs p = false ->
  join2 cwd p = join2 cwd "" +:+ p.
Proof.
  intros Hp. unfold join2, sep. unfold isabs, sep in Hp. rewrite Hp. simpl.
  rewrite !decide_False by (by apply isabs_nonempty).
  destruct (endswith cwd "/"); [by rewrite str_app_nil_r|].
  by rewrite !str_app_assoc.
Qed.

Lemma join2_cwd_empty :
  join2 cwd "" <> "" /\ endswith (join2 cwd "") "/" = true.
Proof.
  unfold join2, sep. simpl. rewrite decide_False by (by apply isabs_nonempty).
  destruct (endswith cwd "/") eqn:He.
  - rewrite str_app_nil_r. split; [by apply isabs_nonempty|done].
  - split; [intros E; by apply app_eq_nil_str in E as [_ E]|].
    change (cwd +:+ "/" +:+ "") with (cwd +:+ str slash).
    change "/" with (str slash).
    rewrite endswith_char_snoc. by rewrite bool_decide_eq_true_2.
Qed.

Lemma join2_nonempty (p nm : string) : proper_name nm -> join2 p nm <> "".
Proof.
  intros H. rewrite join2_proper by done.
  apply proper_name_spec in H as (Hne&_).
  repeat case_match; intros E; apply app_eq_nil_str in E as [_ E]; try done.
Qed.

Lemma absolute_isabs (p : string) : isabs (absolute cwd p) = true.
Proof.
  unfold absolute. destruct (isabs p) eqn:Hp; [done|].
  rewrite join2_relative by done. apply isabs_app.
  unfold join2, sep. simpl. rewrite decide_False by (by apply isabs_nonempty).
  destruct (endswith cwd "/"); by apply isabs_app.
Qed.

Lemma absolute_join2 (top nm : string) :
  proper_name nm ->
  absolute cwd (join2 top nm) = join2 (absolute cwd top) nm.
Proof.
  intros Hnm. pose proof (proper_not_abs _ Hnm) as Hrel.
  destruct (decide (top = "")) as [->|Htop].
  - rewrite (join2_proper "") by done. rewrite decide_True by done.
    rewrite str_app_nil_l. unfold absolute. change (isabs "") with false.
    unfold isabs, sep. rewrite Hrel.
    rewrite (join2_relative nm) by done.
    rewrite (join2_proper (join2 cwd "")) by done.
    destruct (join2_cwd_empty) as [Hne He].
    by rewrite decide_False, He by done.
  - assert (exists X, join2 top nm = top +:+ X
                      /\ forall q, q <> "" -> endswith q "/" = endswith top "/" ->
                                   join2 q nm = q +:+ X) as (X & HX & Hq).
    { rewrite join2_proper by done. rewrite decide_False by done.
      destruct (endswith top "/") eqn:He.
      - exists nm. split; [done|]. intros q Hq1 Hq2.
        rewrite join2_proper by done. by rewrite decide_False, Hq2 by done.
      - exists ("/" +:+ nm). split; [done|]. intros q Hq1 Hq2.
        rewrite join2_proper by done. by rewrite decide_False, Hq2 by done. }
    rewrite HX. unfold absolute.
    assert (isabs (top +:+ X) = isabs top) as ->.
    { unfold isabs, sep. change "/" with (str slash). by apply startswith_char_app. }
    destruct (isabs top) eqn:Habs.
    + symmetry. by rewrite <- HX.
    + rewrite join2_relative.
      2:{ unfold isabs, sep. change "/" with (str slash).
          by rewrite startswith_char_app. }
      rewrite (join2_relative top) by done.
      rewrite Hq.
      * by rewrite str_app_assoc.
      * intros E. by apply app_eq_nil_str in E as [_ E].
      * change "/" with (str slash). by apply endswith_char_app.
Qed.

Lemma initial_slashes_join2 (X nm : string) :
  isabs X = true -> proper_name nm ->
  initial_slashes (join2 X nm) = initial_slashes X.
Proof.
  intros HX Hnm. pose proof (proper_not_abs _ Hnm) as Hrel.
  rewrite join2_proper by done. rewrite decide_False by (by apply isabs_nonempty).
  unfold isabs, sep in HX.
  destruct X as [|c1 [|c2 [|c3 X]]]; [done|..].
  - simpl in HX. destruct (decide ("/"%char = c1)) as [<-|]; [|done].
    rewrite endswith_refl. destruct nm as [|n1 nm]; [done|].
    simpl in Hrel. destruct (decide ("/"%char = n1)); [done|].
    unfold initial_slashes. str_norm. simpl.
    repeat case_decide; simplify_eq; done.
  - simpl in HX. destruct (decide ("/"%char = c1)) as [<-|]; [|done].
    change (String "/" (String c2 "")) with ("/" +:+ str c2).
    change (endswith ("/" +:+ str c2) "/") with (endswith ("/" +:+ str c2) (str slash)).
    rewrite endswith_char_snoc.
    destruct (decide (c2 = slash)) as [->|Hc2].
    + rewrite bool_decide_eq_true_2 by done.
      destruct nm as [|n1 nm]; [done|].
      simpl in Hrel. destruct (decide ("/"%char = n1)); [done|].
      unfold initial_slashes. str_norm. simpl.
      repeat case_decide; simplify_eq; done.
    + rewrite bool_decide_eq_false_2 by done.
      unfold initial_slashes. str_norm. simpl.
      repeat case_decide; simplify_eq; done.
  - unfold initial_slashes.
    destruct (endswith _ _); str_norm; reflexivity.
Qed.

Lemma norm_step_proper (k : nat) (cs : list string) (nm : string) :
  proper_name nm -> norm_step k cs nm = cs ++ [nm].
Proof.
  intros H. apply proper_name_spec in H as (H1&H2&H3&_).
  unfold norm_step. rewrite decide_False by (intros [?|?]; done).
  by rewrite decide_True by (by left).
Qed.

Lemma norm_step_empty (k : nat) (cs : list string) : norm_step k cs "" = cs.
Proof. unfold norm_step. by rewrite decide_True by (by left). Qed.

Lemma norm_comps_join2 (X nm : string) :
  isabs X = true -> proper_name nm ->
  norm_comps (join2 X nm) = norm_comps X ++ [nm].
Proof.
  intros HX Hnm. unfold norm_comps. rewrite initial_slashes_join2 by done.
  set (k := initial_slashes X).
  pose proof (proper_name_spec _ Hnm) as (_&_&_&Hs).
  rewrite join2_proper by done. rewrite decide_False by (by apply isabs_nonempty).
  destruct (endswith X "/") eqn:He.
  - apply endswith_slash_inv in He as [Y ->].
    rewrite str_app_assoc. change ("/" +:+ nm) with (String slash nm).
    change (Y +:+ "/") with (Y +:+ String slash "").
    rewrite !split_app_sep, !fold_left_app, (split_no_sep _ nm) by done. simpl.
    by rewrite norm_step_empty, norm_step_proper.
  - change ("/" +:+ nm) with (String slash nm).
    rewrite split_app_sep, fold_left_app, (split_no_sep _ nm) by done. simpl.
    by rewrite norm_step_proper.
Qed.

Lemma norm_fold_pieces (k : nat) (l acc : list string) :
  Forall (fun c => has_char slash c = false) l ->
  Forall (fun c => c <> "" /\ has_char slash c = false) acc ->
  Forall (fun c => c <> "" /\ has_char slash c = false)
    (fold_left (norm_step k) l acc).
Proof.
  revert acc. induction l as [|c l IH]; intros acc Hl Hacc; [done|].
  inversion Hl; subst. simpl. apply IH; [done|].
  unfold norm_step. destruct (decide (c = "" \/ c = ".")) as [|Hc]; [done|].
  destruct (decide _).
  - apply Forall_app. split; [done|]. constructor; [|done]. split; [|done].
    intros ->. apply Hc. by left.
  - clear -Hacc. induction Hacc as [|x [|y acc]]; simpl; try done.
    constructor; [done|]. by apply IHHacc.
Qed.

Lemma norm_comps_pieces (X : string) :
  Forall (fun c => c <> "" /\ has_char slash c = false) (norm_comps X).
Proof. apply norm_fold_pieces; [apply split_pieces|done]. Qed.

Lemma nonempty_pieces_normpath (X : string) :
  isabs X = true -> nonempty_pieces (normpath X) = norm_comps X.
Proof.
  intros HX. unfold normpath. rewrite decide_False by (by apply isabs_nonempty).
  pose proof (norm_comps_pieces X) as Hcs.
  assert (exists k, initial_slashes X = S k) as [k ->].
  { unfold initial_slashes. unfold isabs, sep in HX. rewrite HX.
    destruct (_ && _); by eexists. }
  simpl str_repeat. rewrite str_app_cons. rewrite decide_False by done.
  assert (forall j s, nonempty_pieces (str_repeat slash j +:+ s) = nonempty_pieces s) as Hrep.
  { intros j s. induction j as [|j IH]; [done|].
    simpl str_repeat. rewrite str_app_cons. unfold nonempty_pieces in *. simpl.
    rewrite filter_cons_False by (by intros ?).
    exact IH. }
  change (String slash (str_repeat slash k +:+ str_join "/" (norm_comps X)))
    with (str_repeat slash (S k) +:+ str_join "/" (norm_comps X)).
  rewrite Hrep. unfold nonempty_pieces.
  destruct (norm_comps X) as [|c cs] eqn:E; [done|].
  rewrite split_join; [|done|].
  - clear E. induction Hcs as [|x l [Hx _] _ IH]; [done|].
    by rewrite filter_cons_True, IH.
  - eapply Forall_impl; [exact Hcs|]. by intros ? [_ ?].
Qed.

Lemma path_list_join2 (top nm : string) :
  proper_name nm ->
  path_list cwd (join2 top nm) = path_list cwd top ++ [nm].
Proof.
  intros Hnm. unfold path_list, abspath.
  rewrite !nonempty_pieces_normpath by apply absolute_isabs.
  rewrite absolute_join2 by done.
  apply norm_comps_join2; [apply absolute_isabs|done].
Qed.

Lemma commonprefix_app (l x : list string) : commonprefix l (l ++ x) = l.
Proof.
  induction l as [|a l IH]; [by destruct x|]. simpl.
  by rewrite decide_True, IH.
Qed.

(** Joining proper names is putting slashes between them. *)
Lemma join_proper (a : string) (p : list string) :
  proper_name a -> Forall (fun c => proper_name c) p ->
  join a p = str_join "/" (a :: p).
Proof.
  intros Ha Hp. unfold join.
  assert (forall q x, x <> "" -> endswith x "/" = false ->
            Forall (fun c => proper_name c) q ->
            fold_left join2 q x = str_join "/" (x :: q)) as H.
  { induction q as [|b q IH]; intros x Hx1 Hx2 Hq; [done|].
    inversion Hq; subst. simpl fold_left.
    rewrite join2_proper by done. rewrite decide_False by done. rewrite Hx2.
    rewrite IH.
    3:{ rewrite <- (str_app_assoc x "/" b). by apply proper_open_end. }
    3: done.
    - destruct q as [|c q]; [done|].
      rewrite (str_join_cons _ _ (c :: q)) by done.
      rewrite (str_join_cons _ x) by done.
      rewrite (str_join_cons _ b) by done.
      by rewrite !str_app_assoc.
    - intros E. by apply app_eq_nil_str in E as [? _]. }
  apply H; [|by apply (proper_open_end "")|done].
  by apply proper_name_spec in Ha as [? _].
Qed.

(** The relative path of what lies [below] the start directory. *)
Lemma relpath_below (path start : string) (below : list string) :
  path <> "" -> below <> [] ->
  Forall (fun c => proper_name c) below ->
  path_list cwd path = path_list cwd start ++ below ->
  relpath cwd path start = Ok (str_join "/" below).
Proof.
  intros Hp Hb Hprop Hpl. unfold relpath. rewrite decide_False by done.
  rewrite Hpl, commonprefix_app, Nat.sub_diag, drop_app_length. simpl.
  destruct below as [|a p]; [done|]. inversion Hprop; subst.
  by rewrite join_proper.
Qed.

End PathLemmas.

(** ** The Scanner *)

Lemma for_each_app {A S} (body : S -> A -> result S) (l1 l2 : list A) (s : S) :
  for_each body (l1 ++ l2) s = s' ← for_each body l1 s; for_each body l2 s'.
Proof.
  revert s. induction l1 as [|x l1 IH]; intros s; [done|]. simpl.
  destruct (body s x) as [s'|e]; [apply IH|done].
Qed.

Lemma wf_tree_dir (es : list (string * node)) :
  wf_tree (Dir (Some es)) ->
  NoDup es.*1 /\ Forall (fun e => proper_name e.1 /\ wf_tree e.2) es.
Proof.
  simpl. intros H. apply andb_prop_elim in H as [H1 H2].
  apply bool_decide_unpack in H1. split; [done|].
  apply forallb_True in H2. eapply Forall_impl; [exact H2|].
  intros e He. by apply andb_prop_elim in He.
Qed.

Lemma filenames_proper (es : list (string * node)) :
  Forall (fun e => proper_name e.1 /\ wf_tree e.2) es ->
  Forall (fun f => proper_name f.1) (filenames es).
Proof.
  unfold filenames. induction 1 as [|[nm [d|l]] es [Hnm _] _ IH]; simpl; try done.
  by constructor.
Qed.

Lemma str_join_not_abs (l : list string) :
  l <> [] -> Forall (fun c => proper_name c) l ->
  startswith (str_join "/" l) "/" = false.
Proof.
  destruct l as [|a l]; [done|]. intros _ H. inversion H; subst.
  pose proof (proper_not_abs _ H2) as Ha.
  destruct l as [|b l]; [done|].
  rewrite str_join_cons by done.
  pose proof (proper_name_spec _ H2) as (Hne&_).
  change (startswith (a +:+ "/" +:+ str_join "/" (b :: l)) (str slash) = false).
  by rewrite startswith_char_app.
Qed.

Section ScanLemmas.
Variable cwd : string.
Variable src_dir : string.
Hypothesis cwd_abs : posixpath.isabs cwd = true.

Lemma scan_file_spec (top : string) (ds : list string) (ms : list module)
    (f : string * option string) :
  posixpath.path_list cwd top = posixpath.path_list cwd src_dir ++ ds ->
  Forall (fun c => proper_name c) ds ->
  proper_name f.1 ->
  scan_file cwd src_dir top ms f =
  if endswith f.1 ".orus" then add_module ms (ds, f.1, f.2) else Ok ms.
Proof.
  intros Htop Hds Hf. unfold scan_file.
  destruct (endswith f.1 ".orus"); [|done].
  assert (Forall (fun c => proper_name c) (ds ++ [f.1])) as Hall.
  { apply Forall_app. split; [done|]. by constructor. }
  rewrite (relpath_below cwd _ _ (ds ++ [f.1])).
  - cbn [mbind result_bind].
    unfold add_module, module_of, module_name, relative_path. cbn [fst snd].
    assert (posixpath.join2 "std" (str_join "/" (ds ++ [f.1]))
            = "std/" +:+ str_join "/" (ds ++ [f.1])) as ->.
    { unfold posixpath.join2, posixpath.sep.
      rewrite str_join_not_abs; [done| |done]. by destruct ds. }
    destruct f.2 as [data|]; reflexivity.
  - by apply join2_nonempty.
  - by destruct ds.
  - done.
  - rewrite path_list_join2 by done. by rewrite Htop, app_assoc.
Qed.

Lemma scan_files_spec (top : string) (ds : list string)
    (l : list (string * option string)) (ms : list module) :
  posixpath.path_list cwd top = posixpath.path_list cwd src_dir ++ ds ->
  Forall (fun c => proper_name c) ds ->
  Forall (fun f => proper_name f.1) l ->
  for_each (scan_file cwd src_dir top) l ms =
  for_each add_module
    (filter (fun x => is_orus x) (map (fun f => (ds, f.1, f.2)) l)) ms.
Proof.
  intros Htop Hds Hl. revert ms.
  induction Hl as [|f l Hf _ IH]; intros ms; [done|].
  simpl for_each. rewrite (scan_file_spec top ds) by done.
  simpl map.
  destruct (endswith f.1 ".orus") eqn:He.
  - rewrite filter_cons_True by (unfold is_orus; cbn [fst snd]; rewrite He; exact I).
    simpl for_each. destruct (add_module ms (ds, f.1, f.2)); [apply IH|done].
  - rewrite filter_cons_False by (unfold is_orus; cbn [fst snd]; rewrite He; intros []).
    apply IH.
Qed.

Lemma files_of_dir (es : list (string * node)) :
  files_of (Dir (Some es)) =
  map (fun f => ([], f.1, f.2)) (filenames es)
  ++ flat_map (fun e => if is_dir e.2 then entry_files e else []) es.
Proof.
  simpl. f_equal. apply flat_map_ext. by intros [nm [d|l]].
Qed.

Lemma scan_walk_spec (n : node) :
  forall (top : string) (ds : list string) (ms : list module),
  wf_tree n ->
  posixpath.path_list cwd top = posixpath.path_list cwd src_dir ++ ds ->
  Forall (fun c => proper_name c) ds ->
  for_each (scan_dir cwd src_dir) (walk top n) ms =
  for_each add_module
    (filter (fun x => is_orus x)
       (map (fun x : file_entry => (ds ++ x.1.1, x.1.2, x.2)) (files_of n))) ms.
Proof.
  induction n as [data| |es IH] using node_ind; intros top ds ms Hwf Htop Hds;
    [done|done|].
  apply wf_tree_dir in Hwf as [_ Hes].
  rewrite files_of_dir, map_app, filter_app, for_each_app.
  simpl walk. simpl for_each.
  change (scan_dir cwd src_dir ms (top, dirnames es, filenames es))
    with (for_each (scan_file cwd src_dir top) (filenames es) ms).
  rewrite (scan_files_spec top ds) by (done || by apply filenames_proper).
  rewrite map_map. cbn [fst snd].
  rewrite (map_ext (fun f : string * option string => (ds ++ [], f.1, f.2))
             (fun f : string * option string => (ds, f.1, f.2)))
    by (intros f; by rewrite app_nil_r).
  destruct (for_each add_module _ ms) as [ms'|]; [|done].
  cbn [mbind result_bind]. clear ms. revert ms'.
  induction es as [|[nm sub] es IHes]; intros ms; [done|].
  inversion IH as [|? ? IHsub IHrest]; subst.
  inversion Hes as [|? ? [Hnm Hsub] Hrest]; subst.
  cbn [fst snd] in IHsub, Hnm, Hsub.
  cbn [flat_map fst snd]. rewrite map_app, filter_app, !for_each_app.
  destruct sub as [d|l].
  - simpl. by apply IHes.
  - cbn [is_dir]. unfold entry_files. cbn [fst snd].
    rewrite (IHsub (posixpath.join2 top nm) (ds ++ [nm]) ms); [|done| |].
    + rewrite !map_map. cbn [fst snd].
      erewrite (map_ext _ (fun x : file_entry => (ds ++ nm :: x.1.1, x.1.2, x.2))).
      2:{ intros x. by rewrite <- app_assoc. }
      destruct (for_each add_module _ ms) as [ms'|]; [|done].
      by apply IHes.
    + rewrite path_list_join2 by done. by rewrite Htop, app_assoc.
    + apply Forall_app. split; [done|]. by constructor.
Qed.

Lemma for_each_add_module (l : list file_entry) (ms : list module) :
  for_each add_module l ms =
  match mapM module_of l with
  | Some ys => Ok (ms ++ ys)
  | None => Raise OSError
  end.
Proof.
  revert ms. induction l as [|x l IH]; intros ms; simpl.
  - by rewrite app_nil_r.
  - change (add_module ms x)
      with (match module_of x with
            | Some m => Ok (ms ++ [m])
            | None => Raise OSError
            end).
    destruct (module_of x) as [m|]; simpl; [|done].
    rewrite IH. destruct (mapM module_of l) as [ys|]; simpl; [|done].
    by rewrite <- app_assoc.
Qed.

(** The scan of the generator is the scan of the specification. *)
Lemma scan_scan_spec (root : node) :
  wf_tree root -> scan cwd src_dir (Some root) = scan_spec root.
Proof.
  intros Hwf. unfold scan, os_walk.
  rewrite (scan_walk_spec root src_dir [] []); [|done|by rewrite app_nil_r|done].
  rewrite for_each_add_module. unfold scan_spec.
  erewrite (map_ext _ id), map_id; [done|]. by intros [[? ?] ?].
Qed.

End ScanLemmas.

(** *** Names and sources *)

Lemma universal_newlines_id (data : string) :
  has_char creturn data = false -> universal_newlines data = data.
Proof.
  induction data as [|c data IH]; [done|]. simpl.
  destruct (decide (c = creturn)); [done|]. intros H. by rewrite IH.
Qed.

Example scan_sample :
  scan "/home/u" "../lib/" (Some tree_ab)
  = Ok [("std/a.orus", "1"); ("std/b.orus", "2"); ("std/sub/c.orus", "3")].
Proof. reflexivity. Qed.




(** *** Failures *)

(** The claim of C7 fails both ways: with no directory at the root the
    run writes both artifacts, the table empty, and ends with status 0;
    with a script that was listed and cannot be opened it ends with
    status 1 and writes nothing. *)
Lemma missing_root_is_no_error :
  (scan "/" "nowhere" None = Ok []
   /\ main ["gen_stdlib.py"; "nowhere"; "out.c"; "out.h"] empty_env
      = {| exit_status := 0; printed := [];
           written := [("out.h", declarations_text);
                       ("out.c", concat_str (c_writes []))] |})
  /\ (scan "/" "stdlib" (Some vanished_tree) = Raise OSError
      /\ main ["gen_stdlib.py"; "stdlib"; "out.c"; "out.h"] vanished_env
         = {| exit_status := 1; printed := []; written := [] |}).
Proof. repeat split. Qed.

Lemma scan_no_listing (cwd src_dir : string) (root : option node) :
  no_listing root -> scan cwd src_dir root = Ok [].
Proof. by destruct root as [[d|[es|]]|]. Qed.

Lemma scan_spec_unreadable (root : node) (x : file_entry) :
  x ∈ files_of root -> is_orus x -> x.2 = None ->
  scan_spec root = Raise OSError.
Proof.
  intros Hin Ho Hx. unfold scan_spec.
  destruct (mapM _ _) as [ms|] eqn:E; [|done]. exfalso.
  assert (is_Some (mapM module_of (filter (fun x => is_orus x) (files_of root))))
    as HS by (by rewrite E).
  apply mapM_is_Some in HS. rewrite Forall_forall in HS.
  destruct (HS x) as [m Hm]; [by apply list_elem_of_filter|].
  change (module_of x = Some m) in Hm.
  unfold module_of in Hm. by rewrite Hx in Hm.
Qed.

(** C7, amended.  With no directory to list at the root (none there, one
    that cannot be listed, or a file) the scan raises nothing and finds
    nothing: the run writes both artifacts, the table empty, and ends
    with status 0.  A script the walk lists and that cannot be opened
    is not left out: the scan raises, the run ends with status 1 and
    writes nothing. *)
Theorem scan_failures (e : env) (prog src_dir out_c out_h : string) :
  let run := main [prog; src_dir; out_c; out_h] e in
  (no_listing (tree_at e src_dir) ->
   writable e out_h = true -> writable e out_c = true ->
   scan (getcwd e) src_dir (tree_at e src_dir) = Ok []
   /\ exit_status run = 0%Z
   /\ written run = [(out_h, declarations_text);
                     (out_c, concat_str (c_writes []))])
  /\ (forall root x,
        tree_at e src_dir = Some root ->
        posixpath.isabs (getcwd e) = true -> wf_tree root ->
        x ∈ files_of root -> is_orus x -> x.2 = None ->
        scan (getcwd e) src_dir (tree_at e src_dir) = Raise OSError
        /\ exit_status run = 1%Z
        /\ written run = []).
Proof.
  intros run. subst run. unfold main. split.
  - intros Hroot Hh Hc. rewrite (scan_no_listing _ _ _ Hroot).
    unfold write_file. by rewrite Hh, Hc.
  - intros root x Hroot Hcwd Hwf Hin Ho Hx. rewrite Hroot.
    rewrite (scan_scan_spec _ _ Hcwd root Hwf).
    by rewrite (scan_spec_unreadable root x).
Qed.

Lemma scan_failures_witness :
  exit_status (main ["gen_stdlib.py"; "nowhere"; "out.c"; "out.h"] empty_env) = 0%Z
  /\ exit_status (main ["gen_stdlib.py"; "stdlib"; "out.c"; "out.h"] vanished_env)
     = 1%Z.
Proof.
  split.
  - destruct (scan_failures empty_env "gen_stdlib.py" "nowhere" "out.c" "out.h")
      as [H _].
    assert (no_listing (tree_at empty_env "nowhere")) as Hroot by exact I.
    destruct (H Hroot eq_refl eq_refl) as (_ & Hexit & _). exact Hexit.
  - destruct (scan_failures vanished_env "gen_stdlib.py" "stdlib" "out.c" "out.h")
      as [_ H].
    assert (([], "gone.orus", None) ∈ files_of vanished_tree) as Hin
      by (apply list_elem_of_In; vm_compute; auto).
    assert (Is_true (wf_tree vanished_tree)) as Hwf by (vm_compute; exact I).
    assert (Is_true (is_orus ([], "gone.orus", None))) as Ho by (vm_compute; exact I).
    destruct (H vanished_tree ([], "gone.orus", None) eq_refl eq_refl Hwf Hin Ho eq_refl)
      as (_ & Hexit & _).
    exact Hexit.
Defined.


(** *** The order of the listings *)

Lemma files_of_entries (es : list (string * node)) :
  files_of (Dir (Some es)) ≡ₚ flat_map entry_files es.
Proof.
  rewrite files_of_dir. unfold filenames.
  induction es as [|[nm [d|l]] es IH]; [done|..]; cbn [omap flat_map fst snd is_dir map].
  - unfold entry_files at 2. cbn [fst snd app]. by constructor.
  - rewrite <- IH. rewrite !(assoc_L (++)). apply Permutation_app_tail.
    apply Permutation_app_comm.
Qed.

Lemma same_tree_files (t1 t2 : node) :
  same_tree t1 t2 -> files_of t1 ≡ₚ files_of t2.
Proof.
  intros H.
  induction H using same_tree_mut
    with (P0 := fun es es' _ => flat_map entry_files es ≡ₚ flat_map entry_files es');
    try done.
  - by rewrite !files_of_entries.
  - cbn [flat_map]. apply Permutation_app; [|done].
    unfold entry_files. cbn [fst snd].
    inversion H; subst; try done. by apply Permutation_map.
  - cbn [flat_map]. rewrite !(assoc_L (++)). apply Permutation_app_tail.
    apply Permutation_app_comm.
  - by etrans.
Qed.

Lemma mapM_omap {A B} (f : A -> option B) (l : list A) (k : list B) :
  mapM f l = Some k -> k = omap f l.
Proof.
  revert k. induction l as [|x l IH]; intros k; simpl.
  - by intros [= <-].
  - destruct (f x) as [y|]; [|done]. simpl.
    destruct (mapM f l) as [k'|]; [|done]. simpl. intros [= <-].
    by rewrite (IH k').
Qed.

Lemma scan_spec_order (t1 t2 : node) :
  same_tree t1 t2 ->
  match scan_spec t1, scan_spec t2 with
  | Ok m1, Ok m2 => m1 ≡ₚ m2
  | Raise _, Raise _ => True
  | _, _ => False
  end.
Proof.
  intros H. apply same_tree_files in H. unfold scan_spec.
  assert (filter (fun x => is_orus x) (files_of t1)
          ≡ₚ filter (fun x => is_orus x) (files_of t2)) as Hf by by rewrite H.
  destruct (mapM module_of (filter _ (files_of t1))) as [m1|] eqn:E1;
    destruct (mapM module_of (filter _ (files_of t2))) as [m2|] eqn:E2; try done.
  - apply mapM_omap in E1, E2. subst. by rewrite Hf.
  - apply eq_None_not_Some in E2. apply E2, mapM_is_Some.
    rewrite <- Hf. apply mapM_is_Some. by rewrite E1.
  - apply eq_None_not_Some in E1. apply E1, mapM_is_Some.
    rewrite Hf. apply mapM_is_Some. by rewrite E2.
Qed.

Lemma same_tree_ab_ba : same_tree tree_ab tree_ba.
Proof.
  unfold tree_ab, tree_ba. apply same_dir.
  eapply same_trans.
  { apply same_skip; [apply same_file|]. apply same_swap. }
  eapply same_trans; [apply same_swap|].
  apply same_skip; [apply same_file|].
  apply same_skip; [apply same_file|].
  apply same_skip; [|apply same_nil].
  apply same_dir, same_swap.
Qed.

(** C8.  Two scans of one tree, its directories listed in whatever order
    each time, both return or both raise, and when they return they hold
    the same modules the same number of times, possibly in another order.
    The order shows in the definitions artifact: there are two listings
    of one tree for which its text differs. *)
Theorem scan_order_independent (cwd src_dir : string) (t1 t2 : node) :
  posixpath.isabs cwd = true ->
  wf_tree t1 -> wf_tree t2 ->
  same_tree t1 t2 ->
  match scan cwd src_dir (Some t1), scan cwd src_dir (Some t2) with
  | Ok m1, Ok m2 => m1 ≡ₚ m2
  | Raise _, Raise _ => True
  | _, _ => False
  end
  /\ exists ta tb ma mb,
       same_tree ta tb
       /\ scan cwd src_dir (Some ta) = Ok ma
       /\ scan cwd src_dir (Some tb) = Ok mb
       /\ concat_str (c_writes ma) <> concat_str (c_writes mb).
Proof.
  intros Hcwd Hwf1 Hwf2 Hsame. split.
  - rewrite !(scan_scan_spec cwd src_dir Hcwd) by done.
    by apply scan_spec_order.
  - exists tree_ab, tree_ba. eexists _, _.
    split; [apply same_tree_ab_ba|].
    rewrite !(scan_scan_spec cwd src_dir Hcwd) by (vm_compute; exact I).
    split; [reflexivity|]. split; [reflexivity|].
    vm_compute. discriminate.
Qed.

Lemma scan_order_independent_witness :
  [("std/a.orus", "1"); ("std/b.orus", "2"); ("std/sub/c.orus", "3")]
  ≡ₚ [("std/b.orus", "2"); ("std/a.orus", "1"); ("std/sub/c.orus", "3")].
Proof.
  assert (posixpath.isabs "/" = true) as Hcwd by reflexivity.
  assert (Is_true (wf_tree tree_ab)) as Hab by (vm_compute; exact I).
  assert (Is_true (wf_tree tree_ba)) as Hba by (vm_compute; exact I).
  exact (proj1 (scan_order_independent "/" "stdlib" tree_ab tree_ba
                  Hcwd Hab Hba same_tree_ab_ba)).
Defined.

(** ** The file system of the host *)

Lemma obj_at_set_obj (w : world) (k k' : list string) (o : fsobj) :
  k <> [] ->
  obj_at (set_obj k o w) k' = if decide (k' = k) then Some o else obj_at w k'.
Proof.
  intros Hk. unfold obj_at, set_obj. cbn [objs].
  destruct k' as [|c k'].
  - by rewrite decide_False.
  - destruct (decide (c :: k' = k)) as [<-|Hne].
    + by rewrite lookup_insert_eq.
    + by rewrite lookup_insert_ne.
Qed.

Lemma obj_at_None_nonroot (w : world) (k : list string) :
  obj_at w k = None -> k <> [].
Proof. by destruct k. Qed.

Lemma obj_at_not_dir_nonroot (w : world) (k : list string) :
  obj_at w k <> Some FDir -> k <> [].
Proof. by destruct k. Qed.

Lemma lex_step_cases (k : list string) (c : string) :
  c <> ".." ->
  (lex_step k c = k /\ (c = "" \/ c = "."))
  \/ (lex_step k c = k ++ [c] /\ c <> "" /\ c <> ".").
Proof.
  intros Hc. unfold lex_step.
  destruct (decide (c = "" \/ c = ".")) as [H|H]; [by left|].
  rewrite decide_False by done. right. split; [done|]. split; intros ->; apply H; auto.
Qed.

Lemma lex_key_snoc (start comps : list string) (c : string) :
  lex_key start (comps ++ [c]) = lex_step (lex_key start comps) c.
Proof. unfold lex_key. by rewrite fold_left_app. Qed.

Lemma lex_key_app (start l1 l2 : list string) :
  lex_key start (l1 ++ l2) = lex_key (lex_key start l1) l2.
Proof. unfold lex_key. by rewrite fold_left_app. Qed.

Lemma lex_step_extends (k : list string) (c : string) :
  c <> ".." -> k `prefix_of` lex_step k c.
Proof.
  intros Hc. destruct (lex_step_cases k c Hc) as [[-> _]|[-> _]]; [done|].
  by apply prefix_app_r.
Qed.

Lemma lex_key_extends (start comps : list string) :
  Forall (fun c => c <> "..") comps -> start `prefix_of` lex_key start comps.
Proof.
  revert start. induction comps as [|c comps IH]; intros start H; [done|].
  inversion H; subst. unfold lex_key. simpl. etrans; [by apply lex_step_extends|].
  by apply IH.
Qed.

Lemma lex_key_app_extends (start l1 l2 : list string) :
  Forall (fun c => c <> "..") l2 ->
  lex_key start l1 `prefix_of` lex_key start (l1 ++ l2).
Proof. intros H. rewrite lex_key_app. by apply lex_key_extends. Qed.

Lemma on_way_refl_end (start k : list string) :
  start `prefix_of` k -> on_way start k k.
Proof. by split. Qed.

Lemma on_way_start (start k : list string) :
  start `prefix_of` k -> on_way start k start.
Proof. by split. Qed.

Lemma on_way_weaken (start k1 k2 k : list string) :
  k1 `prefix_of` k2 -> on_way start k1 k -> on_way start k2 k.
Proof. intros H [H1 H2]. split; [done|]. by etrans. Qed.

Lemma prefix_snoc_cases (k l : list string) (c : string) :
  k `prefix_of` l ++ [c] -> k `prefix_of` l \/ k = l ++ [c].
Proof.
  intros [t Ht]. destruct t as [|x t _] using rev_ind.
  - right. by rewrite app_nil_r in Ht.
  - left. rewrite app_assoc in Ht. apply app_inj_tail in Ht as [-> _].
    by apply prefix_app_r.
Qed.

Lemma on_way_snoc (start k' k : list string) (c : string) :
  on_way start (k' ++ [c]) k -> on_way start k' k \/ k = k' ++ [c].
Proof.
  intros [H1 H2]. destruct (prefix_snoc_cases _ _ _ H2) as [H|H]; [|by right].
  by left.
Qed.

Lemma Forall_removelast {A} (P : A -> Prop) (l : list A) :
  Forall P l -> Forall P (removelast l).
Proof.
  induction 1 as [|x [|y l] Hx Hl IH]; simpl; try done. by constructor.
Qed.

(** Resolution follows the components while every place on the way is a
    directory. *)
Lemma resolve_ok (w : world) (comps start : list string) :
  Forall (fun c => c <> "..") comps ->
  (forall k, on_way start (lex_key start (removelast comps)) k ->
             obj_at w k = Some FDir) ->
  comps <> [] ->
  fold_left (path_step w) comps (Some start) = Some (lex_key start comps).
Proof.
  revert start. induction comps as [|c comps IH]; intros start Hdd Hway _; [done|].
  inversion Hdd as [|? ? Hc Hcs]; subst.
  assert (obj_at w start = Some FDir) as Hstart.
  { by apply Hway, on_way_start, lex_key_extends, Forall_removelast. }
  cbn [fold_left]. unfold path_step at 2. cbn [mbind option_bind]. rewrite Hstart.
  destruct comps as [|c' comps]; [done|].
  apply IH; [done| |done].
  intros k Hk. apply Hway. change (removelast (c :: c' :: comps)) with (c :: removelast (c' :: comps)).
  unfold lex_key at 1. cbn [fold_left]. destruct Hk as [Hk1 Hk2]. split; [|done].
  etrans; [|exact Hk1]. by apply lex_step_extends.
Qed.

(** *** [mkdir] on the prefixes of a path *)

Lemma drop_trailing_empty_snoc (l : list string) (c : string) :
  c <> "" -> drop_trailing_empty (l ++ [c]) = l ++ [c].
Proof.
  intros Hc. induction l as [|x l IH]; simpl.
  - by rewrite decide_False.
  - rewrite IH. by destruct l.
Qed.

Lemma drop_trailing_empty_snoc_empty (l : list string) :
  drop_trailing_empty (l ++ [""]) = drop_trailing_empty l.
Proof. induction l as [|x l IH]; simpl; [done|]. by rewrite IH. Qed.

Lemma drop_trailing_empty_split (l : list string) :
  exists m, l = drop_trailing_empty l ++ replicate m "".
Proof.
  induction l as [|x l [m IH]]; [by exists 0|]. simpl.
  destruct (drop_trailing_empty l) as [|y l'] eqn:E.
  - destruct (decide (x = "")) as [->|].
    + exists (S m). simpl. by rewrite IH at 1.
    + exists m. simpl. by rewrite IH at 1.
  - exists m. simpl. by rewrite IH at 1.
Qed.

Lemma lex_key_replicate_empty (k : list string) (m : nat) :
  lex_key k (replicate m "") = k.
Proof. induction m as [|m IH]; [done|]. simpl. exact IH. Qed.

Lemma lex_key_drop_trailing_empty (start l : list string) :
  lex_key start (drop_trailing_empty l) = lex_key start l.
Proof.
  destruct (drop_trailing_empty_split l) as [m Hm].
  rewrite Hm at 2. by rewrite lex_key_app, lex_key_replicate_empty.
Qed.

Lemma drop_trailing_empty_no_dotdot (l : list string) :
  Forall (fun c => c <> "..") l ->
  Forall (fun c => c <> "..") (drop_trailing_empty l).
Proof.
  intros H. destruct (drop_trailing_empty_split l) as [m Hm].
  rewrite Hm in H. by apply Forall_app in H as [? _].
Qed.

Lemma lex_key_prefix (start l1 l2 : list string) :
  Forall (fun c => c <> "..") l2 -> l1 `prefix_of` l2 ->
  lex_key start l1 `prefix_of` lex_key start l2.
Proof.
  intros H [t ->]. apply Forall_app in H as [_ H]. by apply lex_key_app_extends.
Qed.

Lemma removelast_prefix {A} (l : list A) : removelast l `prefix_of` l.
Proof.
  induction l as [|x [|y l] IH]; simpl; [done|apply prefix_nil|].
  by apply prefix_cons.
Qed.

Lemma on_way_antisym (start k : list string) : on_way start start k -> k = start.
Proof.
  intros [H1 H2]. apply prefix_length_eq; [done|]. by apply prefix_length.
Qed.

Lemma grown_start (w : world) (start : list string) :
  obj_at w start = Some FDir -> grown w start start w.
Proof.
  intros H. split; [done|]. split; [|done].
  intros k Hk. by rewrite (on_way_antisym _ _ Hk).
Qed.

(** Resolution where every place down to [k'] is a directory. *)
Lemma resolve_dirs (w : world) (start comps : list string) (k' : list string) :
  (forall k, on_way start k' k -> obj_at w k = Some FDir) ->
  Forall (fun c => c <> "..") comps ->
  lex_key start (removelast comps) `prefix_of` k' ->
  fold_left (path_step w) comps (Some start) = Some (lex_key start comps).
Proof.
  intros Hdir Hdd Hpre.
  destruct comps as [|c comps]; [done|].
  apply resolve_ok; [done| |done].
  intros k Hk. apply Hdir. by eapply on_way_weaken.
Qed.

Lemma resolve_grown (w0 w : world) (start comps : list string) (k' : list string) :
  grown w0 start k' w ->
  Forall (fun c => c <> "..") comps ->
  lex_key start (removelast comps) `prefix_of` k' ->
  fold_left (path_step w) comps (Some start) = Some (lex_key start comps).
Proof. intros (_ & Hdir & _). by apply resolve_dirs. Qed.

Lemma mkdir_at_grow (w0 w : world) (start comps : list string) (c : string) :
  Forall (fun c => c <> "..") (comps ++ [c]) ->
  grown w0 start (lex_key start comps) w ->
  (forall data, obj_at w0 (lex_key start (comps ++ [c])) <> Some (FFile data)) ->
  grown w0 start (lex_key start (comps ++ [c])) (mkdir_at start (comps ++ [c]) w).
Proof.
  intros Hdd Hg Hfile.
  pose proof Hdd as Hdd'. apply Forall_app in Hdd' as [Hcomps Hc].
  inversion Hc as [|? ? Hc' _]; subst.
  pose proof (lex_key_extends start comps Hcomps) as Hext.
  set (K := lex_key start comps) in *.
  assert (obj_at w K = Some FDir) as HK.
  { destruct Hg as (_ & Hdir & _). by apply Hdir, on_way_refl_end. }
  assert (lex_key start (comps ++ [c]) = lex_step K c) as HKc
    by apply lex_key_snoc.
  unfold mkdir_at. rewrite HKc in *.
  destruct (lex_step_cases K c Hc') as [[E Hc0]|[E [Hc1 Hc2]]]; rewrite E in *.
  - (* an empty component or a dot: the directory is there already *)
    pose proof (drop_trailing_empty_no_dotdot _ Hdd) as Hdte.
    pose proof (lex_key_drop_trailing_empty start (comps ++ [c])) as Hkey.
    rewrite HKc in Hkey.
    rewrite (resolve_grown w0 w start _ K Hg), Hkey, HK; [done|done|].
    rewrite <- Hkey. apply lex_key_prefix; [done|apply removelast_prefix].
  - (* a name: the directory is made unless it is there *)
    rewrite drop_trailing_empty_snoc by done.
    rewrite (resolve_grown w0 w start _ K Hg); [|done|by rewrite removelast_last].
    rewrite HKc.
    assert (~ on_way start K (K ++ [c])) as Hnot.
    { intros [_ H]. by apply prefix_snoc_not in H. }
    destruct Hg as (Hcwd & Hdir & Hsame).
    assert (obj_at w (K ++ [c]) = obj_at w0 (K ++ [c])) as Hobj by by apply Hsame.
    destruct (obj_at w (K ++ [c])) as [[|data]|] eqn:Ho.
    + split; [done|]. split.
      * intros k Hk. apply on_way_snoc in Hk as [Hk| ->]; [by apply Hdir|done].
      * intros k Hk. apply Hsame. intros Hk'. apply Hk.
        eapply on_way_weaken; [|exact Hk']. by apply prefix_app_r.
    + by destruct (Hfile data).
    + assert (K ++ [c] <> []) as Hne by by destruct K.
      split; [done|]. split.
      * intros k Hk. rewrite obj_at_set_obj by done.
        destruct (decide (k = K ++ [c])); [done|].
        apply on_way_snoc in Hk as [Hk|Hk]; [by apply Hdir|done].
      * intros k Hk. rewrite obj_at_set_obj by done.
        rewrite decide_False.
        -- apply Hsame. intros Hk'. apply Hk.
           eapply on_way_weaken; [|exact Hk']. by apply prefix_app_r.
        -- intros ->. apply Hk. apply on_way_refl_end.
           etrans; [exact Hext|]. by apply prefix_app_r.
Qed.

Lemma mkdir_prefixes_grow (w0 : world) (start todo : list string) :
  forall (done : list string) (w : world),
  Forall (fun c => c <> "..") (done ++ todo) ->
  grown w0 start (lex_key start done) w ->
  (forall k data, on_way start (lex_key start (done ++ todo)) k ->
                  obj_at w0 k <> Some (FFile data)) ->
  grown w0 start (lex_key start (done ++ todo)) (mkdir_prefixes start done todo w).
Proof.
  induction todo as [|c todo IH]; intros done w Hdd Hg Hfile.
  - by rewrite app_nil_r.
  - cbn [mkdir_prefixes].
    replace (done ++ c :: todo) with ((done ++ [c]) ++ todo) in *
      by (by rewrite <- app_assoc).
    pose proof Hdd as Hdd'. apply Forall_app in Hdd' as [Hdc Htodo].
    apply IH; [done| |done].
    apply mkdir_at_grow; [done|done|].
    intros data. apply Hfile. split.
    + by apply lex_key_extends.
    + by apply lex_key_app_extends.
Qed.

(** *** [ensure_dir] is [mkdir] on every prefix *)

Lemma mkdir_cwd (p : string) (w : world) : cwd (mkdir p w).1 = cwd w.
Proof.
  unfold mkdir. destruct (namei_create w p) as [k|]; [|done].
  by destruct (obj_at w k).
Qed.

Lemma mkdir_split (p : string) (w : world) :
  p <> "" -> (mkdir p w).1 = mkdir_at (path_start w p) (split slash p) w.
Proof.
  intros Hp. unfold mkdir, namei_create, mkdir_at. rewrite decide_False by done.
  destruct (fold_left _ _ _) as [k|]; [|done]. by destruct (obj_at w k).
Qed.

Lemma path_start_app (w : world) (p s : string) :
  p <> "" -> path_start w (p +:+ s) = path_start w p.
Proof.
  intros Hp. unfold path_start.
  change "/" with (str slash). by rewrite startswith_char_app.
Qed.

Lemma path_start_cwd (w w' : world) (p : string) :
  cwd w' = cwd w -> path_start w' p = path_start w p.
Proof. intros H. unfold path_start. by rewrite H. Qed.

Lemma slashed_snoc (done : list string) (c : string) :
  slashed (done ++ [c]) = slashed done +:+ c +:+ "/".
Proof.
  induction done as [|x done IH]; simpl.
  - by rewrite str_app_nil_r.
  - by rewrite IH, !str_app_assoc.
Qed.

Lemma split_slashed (done : list string) (x : string) :
  Forall (fun c => has_char slash c = false) done ->
  split slash (slashed done +:+ x) = done ++ split slash x.
Proof.
  induction 1 as [|c done Hc _ IH]; [done|]. simpl.
  rewrite !str_app_assoc.
  change ("/" +:+ slashed done +:+ x) with (String slash (slashed done +:+ x)).
  by rewrite split_app_sep, split_no_sep, IH.
Qed.

Lemma glue_split_cons (partial : string) (c : ascii) (rest : string) :
  c <> slash ->
  glue partial (split slash (String c rest))
  = glue (partial +:+ str c) (split slash rest).
Proof.
  intros Hc. simpl. rewrite decide_False by done.
  destruct (split slash rest) as [|r t]; simpl; [done|].
  by rewrite str_app_assoc.
Qed.

Lemma ensure_dir_loop_prefixes (rest : string) :
  forall (done : list string) (partial : string) (w : world),
  Forall (fun c => has_char slash c = false) done ->
  has_char slash partial = false ->
  slashed done +:+ partial <> "" ->
  (mkdir ((slashed done +:+ partial) +:+ rest)
     (ensure_dir_loop (slashed done +:+ partial) rest w)).1
  = mkdir_prefixes (path_start w (slashed done +:+ partial)) done
      (glue partial (split slash rest)) w.
Proof.
  induction rest as [|c rest IH]; intros done partial w Hdone Hpartial Hne.
  - rewrite str_app_nil_r. simpl. rewrite str_app_nil_r.
    rewrite mkdir_split by done.
    by rewrite split_slashed, split_no_sep.
  - cbn [ensure_dir_loop].
    destruct (decide (c = slash)) as [->|Hc].
    + pose proof (mkdir_split _ w Hne) as Hmk.
      rewrite split_slashed, split_no_sep in Hmk by done.
      set (P := slashed done +:+ partial) in *.
      assert (P +:+ str slash = slashed (done ++ [partial]) +:+ "") as HP.
      { by rewrite slashed_snoc, str_app_nil_r, <- str_app_assoc. }
      assert (P +:+ String slash rest = (P +:+ str slash) +:+ rest) as ->.
      { by rewrite str_app_assoc. }
      rewrite HP.
      rewrite IH.
      * rewrite <- HP.
        rewrite (path_start_cwd w), path_start_app by (done || apply mkdir_cwd).
        simpl split. cbn [glue]. rewrite str_app_nil_r.
        destruct (split slash rest) as [|r t] eqn:E;
          [by destruct (split_nonempty slash rest)|].
        cbn [glue mkdir_prefixes]. rewrite str_app_nil_l. by rewrite Hmk.
      * apply Forall_app. split; [done|]. by constructor.
      * done.
      * rewrite <- HP. intros H. by apply app_eq_nil_str in H as [_ ?].
    + set (P := slashed done +:+ partial) in *.
      assert (P +:+ String c rest = (P +:+ str c) +:+ rest) as ->.
      { by rewrite str_app_assoc. }
      assert (P +:+ str c = slashed done +:+ (partial +:+ str c)) as HP.
      { unfold P. by rewrite str_app_assoc. }
      rewrite HP, IH.
      * rewrite <- HP, path_start_app by done. by rewrite glue_split_cons.
      * done.
      * rewrite has_char_app, Hpartial. simpl. by rewrite decide_False.
      * rewrite <- HP. intros H. by apply app_eq_nil_str in H as [_ ?].
Qed.

Lemma ensure_dir_prefixes (path : string) (w : world) :
  String.length path <= 511 -> path <> "" ->
  ensure_dir path w = mkdir_prefixes (path_start w path) [] (split slash path) w.
Proof.
  intros Hlen Hne. unfold ensure_dir. rewrite truncate_fits by done.
  destruct path as [|c rest]; [done|].
  destruct (decide (c = slash)) as [->|Hc].
  - assert ((mkdir (String slash rest) (ensure_dir_loop (str slash) rest w)).1
            = mkdir_prefixes (path_start w (str slash)) [""]
                (glue "" (split slash rest)) w) as H.
    { apply (ensure_dir_loop_prefixes rest [""] "" w); [|done|done].
      by repeat constructor. }
    rewrite H. simpl split. cbn [mkdir_prefixes app].
    assert (mkdir_at (path_start w (String slash rest)) [""] w = w) as ->
      by done.
    destruct (split slash rest) as [|r t] eqn:E;
      [by destruct (split_nonempty slash rest)|].
    cbn [glue]. by rewrite str_app_nil_l.
  - assert ((mkdir (String c rest) (ensure_dir_loop (str c) rest w)).1
            = mkdir_prefixes (path_start w (str c)) []
                (glue (str c) (split slash rest)) w) as H.
    { apply (ensure_dir_loop_prefixes rest [] (str c) w); [done| |done].
      simpl. by rewrite decide_False. }
    rewrite H.
    assert (path_start w (str c) = path_start w (String c rest)) as ->.
    { change (String c rest) with (str c +:+ rest). by rewrite path_start_app. }
    f_equal. simpl. rewrite decide_False by done.
    by destruct (split slash rest).
Qed.

(** What [ensure_dir] leaves behind when nothing stands in its way. *)
Lemma ensure_dir_grow (path : string) (w : world) :
  String.length path <= 511 -> path <> "" ->
  no_dotdot path ->
  obj_at w (path_start w path) = Some FDir ->
  (forall k data, on_way (path_start w path) (path_key w path) k ->
                  obj_at w k <> Some (FFile data)) ->
  grown w (path_start w path) (path_key w path) (ensure_dir path w).
Proof.
  intros Hlen Hne Hdd Hstart Hfile. rewrite ensure_dir_prefixes by done.
  apply (mkdir_prefixes_grow w _ _ []); [done| |done].
  by apply grown_start.
Qed.

(** *** One entry of the dump *)

Lemma before_last_leaf (parent leaf : string) :
  has_char slash leaf = false ->
  before_last slash (parent +:+ String slash leaf) = Some parent.
Proof.
  intros Hleaf.
  assert (before_last slash leaf = None) as Hnone.
  { induction leaf as [|c leaf IH]; [done|]. simpl in *.
    destruct (decide (c = slash)); [done|]. by rewrite IH. }
  induction parent as [|c parent IH]; rewrite ?str_app_cons, ?str_app_nil_l; simpl.
  - by rewrite Hnone.
  - by rewrite IH.
Qed.

Lemma last_slash (s : string) :
  has_char slash s = true ->
  exists parent leaf,
    s = parent +:+ String slash leaf /\ has_char slash leaf = false.
Proof.
  induction s as [|c s IH]; [done|]. simpl.
  destruct (has_char slash s) eqn:Hs.
  - intros _. destruct (IH eq_refl) as (parent & leaf & -> & Hleaf).
    by exists (String c parent), leaf.
  - destruct (decide (c = slash)) as [->|]; [|done]. intros _.
    by exists "", s.
Qed.

Lemma fopen_fputs_objs (w : world) (K k : list string) (s : string) :
  K <> [] ->
  obj_at (fputs s K (set_obj K (FFile "") w)) k
  = if decide (k = K) then Some (FFile s) else obj_at w k.
Proof.
  intros HK. unfold fputs. rewrite obj_at_set_obj, decide_True by done.
  rewrite obj_at_set_obj by done.
  destruct (decide (k = K)); [done|]. by rewrite obj_at_set_obj, decide_False.
Qed.

Section DumpEntry.
Variable dir : string.
Variable m : EmbeddedModule.
Variable w : world.

Let full : string := dir +:+ "/" +:+ name m.
Let start : list string := path_start w full.
Let K : list string := path_key w full.

Hypothesis full_fits : String.length full <= 511.
Hypothesis full_plain : no_dotdot full.
Hypothesis leaf_named :
  exists leaf, last (split slash full) = Some leaf /\ leaf <> "" /\ leaf <> ".".
Hypothesis way_clear : clear_way w full.

Lemma full_has_slash : has_char slash full = true.
Proof.
  unfold full. rewrite has_char_app.
  change ("/" +:+ name m) with (String slash (name m)). simpl.
  by rewrite orb_true_r.
Qed.

(** The parts of the destination: the text before its last slash and the
    name after it. *)
Lemma full_parts :
  exists parent leaf,
    full = parent +:+ String slash leaf
    /\ has_char slash leaf = false
    /\ leaf <> "" /\ leaf <> "." /\ leaf <> ".."
    /\ split slash full = split slash parent ++ [leaf]
    /\ Forall (fun c => c <> "..") (split slash parent)
    /\ K = lex_key start (split slash parent) ++ [leaf].
Proof.
  destruct (last_slash full full_has_slash) as (parent & leaf & Hfull & Hleaf).
  assert (split slash full = split slash parent ++ [leaf]) as Hsplit.
  { by rewrite Hfull, split_app_sep, (split_no_sep slash leaf). }
  destruct leaf_named as (leaf' & Hlast & Hl1 & Hl2).
  rewrite Hsplit, last_snoc in Hlast. injection Hlast as <-.
  pose proof full_plain as Hdd. unfold no_dotdot in Hdd. rewrite Hsplit in Hdd.
  apply Forall_app in Hdd as [Hdd1 Hdd2]. inversion Hdd2; subst.
  exists parent, leaf. repeat split; try done.
  unfold K, path_key. fold start. rewrite Hsplit, lex_key_snoc.
  unfold lex_step. rewrite decide_False by (intros [?|?]; done).
  by rewrite decide_False.
Qed.

Lemma dump_entry_effect :
  cwd (dump_entry dir m w) = cwd w
  /\ obj_at (dump_entry dir m w) K = Some (FFile (source m))
  /\ (forall k, on_way start K k -> k <> K ->
                obj_at (dump_entry dir m w) k = Some FDir)
  /\ (forall k, ~ on_way start K k ->
                obj_at (dump_entry dir m w) k = obj_at w k).
Proof.
  destruct full_parts as (parent & leaf & Hfull & Hleaf & Hl1 & Hl2 & Hl3
                          & Hsplit & Hdd & HK).
  destruct way_clear as (Hstart & Hfiles & Hnodir). fold start K in Hstart, Hfiles, Hnodir.
  set (Kp := lex_key start (split slash parent)) in *.
  assert (start `prefix_of` Kp) as HsKp by by apply lex_key_extends.
  assert (~ on_way start Kp K) as HKnot.
  { rewrite HK. intros [_ H]. by apply prefix_snoc_not in H. }
  assert (K <> []) as HKne by (rewrite HK; by destruct Kp).
  assert (String.length parent <= 511) as Hplen.
  { pose proof full_fits as Hlen. rewrite Hfull, length_app_str in Hlen. lia. }
  (* the directories *)
  assert (grown w start Kp (ensure_dir parent w)) as G.
  { destruct (decide (parent = "")) as [->|Hp].
    - assert (start = []) as Hs0.
      { unfold start, path_start. by rewrite Hfull. }
      unfold Kp. rewrite Hs0. simpl. by apply grown_start.
    - assert (path_start w parent = start) as Hps.
      { unfold start. by rewrite Hfull, path_start_app. }
      pose proof (ensure_dir_grow parent w Hplen Hp Hdd) as H.
      unfold path_key in H. rewrite Hps in H. apply H; [done|].
      intros k data Hk. apply Hfiles.
      + eapply on_way_weaken; [|exact Hk]. rewrite HK. by apply prefix_app_r.
      + intros ->. by apply HKnot. }
  unfold dump_entry. fold full. rewrite (truncate_fits 511 full) by done.
  assert (before_last slash full = Some parent) as ->
    by (rewrite Hfull; by apply before_last_leaf).
  set (w1 := ensure_dir parent w) in *.
  destruct G as (Hcwd & Hdirs & Hsame).
  (* the file *)
  assert (namei w1 full = Some K) as Hnamei.
  { unfold namei. rewrite decide_False.
    2:{ rewrite Hfull. intros H. by apply app_eq_nil_str in H as [_ ?]. }
    rewrite (path_start_cwd w w1) by done. fold start.
    rewrite (resolve_dirs w1 start _ Kp); [done|done| |].
    - unfold no_dotdot in full_plain. exact full_plain.
    - rewrite Hsplit, removelast_last. done. }
  unfold fopen_w. rewrite Hnamei.
  assert (obj_at w1 K = obj_at w K) as HobjK by by apply Hsame.
  destruct (obj_at w1 K) as [[|data]|] eqn:Ho; [by rewrite <- HobjK in Hnodir|..].
  all: split; [by unfold fputs; rewrite obj_at_set_obj, decide_True by done|].
  all: split; [by rewrite fopen_fputs_objs, decide_True|].
  all: split.
  all: intros k Hk; rewrite fopen_fputs_objs by done.
  - intros Hne. rewrite decide_False by done. apply Hdirs.
    rewrite HK in Hk. apply on_way_snoc in Hk as [Hk|Hk]; [done|].
    by rewrite <- HK in Hk.
  - rewrite decide_False.
    + apply Hsame. intros Hk'. apply Hk.
      eapply on_way_weaken; [|exact Hk']. rewrite HK. by apply prefix_app_r.
    + intros ->. apply Hk. apply on_way_refl_end. rewrite HK.
      etrans; [exact HsKp|]. by apply prefix_app_r.
  - intros Hne. rewrite decide_False by done. apply Hdirs.
    rewrite HK in Hk. apply on_way_snoc in Hk as [Hk|Hk]; [done|].
    by rewrite <- HK in Hk.
  - rewrite decide_False.
    + apply Hsame. intros Hk'. apply Hk.
      eapply on_way_weaken; [|exact Hk']. rewrite HK. by apply prefix_app_r.
    + intros ->. apply Hk. apply on_way_refl_end. rewrite HK.
      etrans; [exact HsKp|]. by apply prefix_app_r.
Qed.

End DumpEntry.

(** *** The dump *)

Lemma dumpEmbeddedStdlib_loop_fold (reg : list EmbeddedModule) (dir : string)
    (todo i : nat) (w : world) :
  todo = length reg - i ->
  dumpEmbeddedStdlib_loop reg todo i dir w
  = fold_left (fun w m => dump_entry dir m w) (drop i reg) w.
Proof.
  revert i w. induction todo as [|todo IH]; intros i w Hi; simpl.
  - by rewrite drop_ge by lia.
  - destruct (lookup_lt_is_Some_2 reg i) as [m Hm]; [lia|].
    rewrite Hm, (drop_S _ _ _ Hm). simpl. apply IH. lia.
Qed.

Lemma dumpEmbeddedStdlib_fold (reg : list EmbeddedModule) (dir : string) (w : world) :
  dumpEmbeddedStdlib reg dir w = fold_left (fun w m => dump_entry dir m w) reg w.
Proof.
  unfold dumpEmbeddedStdlib, embeddedStdlibCount.
  rewrite (dumpEmbeddedStdlib_loop_fold reg dir _ 0) by lia. by rewrite drop_0.
Qed.

Lemma removelast_app_nonempty {A} (l1 l2 : list A) :
  l2 <> [] -> removelast (l1 ++ l2) = l1 ++ removelast l2.
Proof.
  intros H. induction l1 as [|x l1 IH]; [done|]. simpl. rewrite IH.
  destruct (l1 ++ l2) eqn:E; [|done]. by apply app_eq_nil in E as [_ ?].
Qed.

(** What one entry of the dump leaves behind, told on paths. *)
Lemma dump_entry_paths (dir : string) (m : EmbeddedModule) (w : world) :
  String.length (dir +:+ "/" +:+ name m) <= 511 ->
  no_dotdot (dir +:+ "/" +:+ name m) ->
  names_file (dir +:+ "/" +:+ name m) ->
  clear_way w (dir +:+ "/" +:+ name m) ->
  file_at (dump_entry dir m w) (dir +:+ "/" +:+ name m) = Some (source m)
  /\ (forall pre rest,
        dir +:+ "/" +:+ name m = pre +:+ "/" +:+ rest -> pre <> "" ->
        dir_at (dump_entry dir m w) pre = true).
Proof.
  intros Hfits Hdd Hleaf Hclear.
  destruct (dump_entry_effect dir m w Hfits Hdd Hleaf Hclear)
    as (Hcwd & HfileK & Hdirs & _).
  destruct (full_parts dir m w Hdd Hleaf)
    as (parent & leaf & Hfull & _ & _ & _ & _ & Hsplit & Hddp & HK).
  set (full := dir +:+ "/" +:+ name m) in *.
  set (w' := dump_entry dir m w) in *.
  set (start := path_start w full) in *.
  set (K := path_key w full) in *.
  set (Kp := lex_key start (split slash parent)) in *.
  assert (start `prefix_of` Kp) as HsKp by by apply lex_key_extends.
  assert (forall k, on_way start Kp k -> obj_at w' k = Some FDir) as Hway.
  { intros k Hk. apply Hdirs.
    - eapply on_way_weaken; [|exact Hk]. rewrite HK. by apply prefix_app_r.
    - intros ->. destruct Hk as [_ Hk]. rewrite HK in Hk.
      by apply prefix_snoc_not in Hk. }
  assert (full <> "") as Hne.
  { rewrite Hfull. intros H. by apply app_eq_nil_str in H as [_ ?]. }
  split.
  - unfold file_at, namei. rewrite decide_False by done.
    rewrite (path_start_cwd w w') by done. fold start.
    rewrite (resolve_dirs w' start _ Kp Hway Hdd).
    + change (lex_key start (split slash full)) with K. by rewrite HfileK.
    + by rewrite Hsplit, removelast_last.
  - intros pre rest Hpre Hprene.
    assert (split slash full = split slash pre ++ split slash rest) as Hsp.
    { rewrite Hpre. change ("/" +:+ rest) with (String slash rest).
      apply split_app_sep. }
    pose proof Hdd as Hdd'. unfold no_dotdot in Hdd'. rewrite Hsp in Hdd'.
    apply Forall_app in Hdd' as [Hdd1 Hdd2].
    assert (lex_key start (split slash pre) `prefix_of` Kp) as HpreKp.
    { unfold Kp.
      assert (split slash parent = split slash pre ++ removelast (split slash rest)) as ->.
      { rewrite <- (removelast_last (split slash parent) leaf), <- Hsplit, Hsp.
        apply removelast_app_nonempty, split_nonempty. }
      apply lex_key_app_extends. by apply Forall_removelast. }
    unfold dir_at, namei. rewrite decide_False by done.
    rewrite (path_start_cwd w w') by done.
    assert (path_start w pre = start) as ->.
    { unfold start. by rewrite Hpre, path_start_app. }
    rewrite (resolve_dirs w' start _ Kp Hway Hdd1).
    + rewrite Hway; [done|]. split; [|done]. by apply lex_key_extends.
    + etrans; [|exact HpreKp]. apply lex_key_prefix; [done|].
      apply removelast_prefix.
Qed.

Example dump_sample :
  let w' := dumpEmbeddedStdlib [math_module] "out" empty_world in
  file_at w' "out/std/math.orus" = Some "new"
  /\ dir_at w' "out/std" = true
  /\ dir_at w' "out" = true
  /\ file_at w' "out/std" = None.
Proof. vm_compute. done. Qed.



Lemma stale_world_clear_way : clear_way stale_world "out/std/math.orus".
Proof.
  split; [done|]. split; [|by vm_compute].
  intros k data [_ Hk] Hne.
  change (path_key stale_world "out/std/math.orus")
    with ["out"; "std"; "math.orus"] in *.
  destruct Hk as [t Ht].
  destruct k as [|a [|b [|c [|d k]]]]; simplify_eq/=; done.
Qed.


(** ** Dumping a table of named files *)

Lemma lex_key_proper (k comps : list string) :
  Forall (fun c => proper_name c) comps -> lex_key k comps = k ++ comps.
Proof.
  revert k. induction comps as [|c comps IH]; intros k H.
  - by rewrite app_nil_r.
  - inversion H as [|? ? Hc Hcs]; subst. unfold lex_key. simpl. fold (lex_key (lex_step k c) comps).
    apply proper_name_spec in Hc as (H1 & H2 & H3 & _).
    unfold lex_step. rewrite decide_False by (intros [?|?]; done).
    rewrite decide_False by done. rewrite IH by done. by rewrite <- app_assoc.
Qed.

Lemma proper_no_dotdot (comps : list string) :
  Forall (fun c => proper_name c) comps -> Forall (fun c => c <> "..") comps.
Proof.
  intros H. eapply Forall_impl; [exact H|].
  intros c Hc. by apply proper_name_spec in Hc as (_ & _ & ? & _).
Qed.

Lemma proper_no_slash (comps : list string) :
  Forall (fun c => proper_name c) comps ->
  Forall (fun c => has_char slash c = false) comps.
Proof.
  intros H. eapply Forall_impl; [exact H|].
  intros c Hc. by apply proper_name_spec in Hc as (_ & _ & _ & ?).
Qed.

Section DumpAll.
Variable dir : string.
Variable w : world.

Let start : list string := path_start w (dir +:+ "/").
Let t : list string := lex_key start (split slash dir).
Let dest (j : job) : string := dir +:+ "/" +:+ name (job_module j).

Hypothesis dir_plain : no_dotdot dir.

Lemma dest_split (j : job) :
  proper_job j -> split slash (dest j) = split slash dir ++ j.1.
Proof.
  intros [Hne Hj]. unfold dest, job_module. cbn [name].
  change ("/" +:+ str_join "/" j.1) with (String slash (str_join "/" j.1)).
  rewrite split_app_sep, split_join; [done|done|by apply proper_no_slash].
Qed.

Lemma dest_start (j : job) (w' : world) :
  cwd w' = cwd w -> path_start w' (dest j) = start.
Proof.
  intros Hcwd. rewrite (path_start_cwd w w') by done. unfold dest, start.
  rewrite <- !str_app_assoc. apply path_start_app.
  intros H. by apply app_eq_nil_str in H as [_ ?].
Qed.

Lemma dest_key (j : job) (w' : world) :
  cwd w' = cwd w -> proper_job j -> path_key w' (dest j) = t ++ j.1.
Proof.
  intros Hcwd Hj. unfold path_key. rewrite dest_start, dest_split by done.
  rewrite lex_key_app. fold t. apply lex_key_proper. by destruct Hj.
Qed.

Lemma dest_plain (j : job) : proper_job j -> no_dotdot (dest j).
Proof.
  intros Hj. unfold no_dotdot. rewrite dest_split by done.
  apply Forall_app. split; [exact dir_plain|]. apply proper_no_dotdot. by destruct Hj.
Qed.

Lemma dest_names_file (j : job) : proper_job j -> names_file (dest j).
Proof.
  intros Hj. unfold names_file. rewrite dest_split by done.
  destruct Hj as [Hne Hj]. destruct j.1 as [|c l _] using rev_ind; [done|].
  exists c. rewrite app_assoc, last_snoc.
  apply Forall_app in Hj as [_ Hc]. inversion Hc as [|? ? Hc' _]; subst.
  by apply proper_name_spec in Hc' as (? & ? & _).
Qed.

Lemma start_t : start `prefix_of` t.
Proof. by apply lex_key_extends. Qed.

Lemma dumped_nil : dumped w start t [] w.
Proof.
  split; [done|]. split; [by intros j Hj; apply elem_of_nil in Hj|].
  split; [by intros j k Hj; apply elem_of_nil in Hj|].
  split; [by left|]. split; [by left|done].
Qed.

Lemma strict_on_way (j j' : job) :
  on_way start (t ++ j'.1) (t ++ j.1) -> j.1 `prefix_of` j'.1.
Proof. intros [_ H]. by apply prefix_app_inv in H. Qed.

(** One more job. *)
Lemma dumped_step (done : list job) (j : job) (w' : world) :
  dumped w start t done w' ->
  proper_job j ->
  prefix_free (done ++ [j]) ->
  String.length (dest j) <= 511 ->
  obj_at w start = Some FDir ->
  (forall k data, on_way start (t ++ j.1) k -> k <> t ++ j.1 ->
                  obj_at w k <> Some (FFile data)) ->
  obj_at w (t ++ j.1) <> Some FDir ->
  dumped w start t (done ++ [j]) (dump_entry dir (job_module j) w').
Proof.
  intros (Hcwd & Hfiles & Hdirs & Hfold & Hdold & Hkeep) Hj Hfree Hfits
         Hstart Hwayfree Hnodir.
  set (K := t ++ j.1).
  assert (path_key w' (dest j) = K) as HK by by apply dest_key.
  assert (path_start w' (dest j) = start) as Hst by by apply dest_start.
  assert (forall j0, j0 ∈ done -> t ++ j0.1 = K -> j0 = j) as Hsame.
  { intros j0 Hin HE. apply app_inv_head in HE.
    apply Hfree; [set_solver|set_solver|by rewrite HE]. }
  assert (forall j0, j0 ∈ done -> on_way start K (t ++ j0.1) -> j0 = j) as Hup.
  { intros j0 Hin Hw. apply Hfree; [set_solver|set_solver|].
    by apply (strict_on_way j0 j). }
  assert (forall j0, j0 ∈ done -> on_way start (t ++ j0.1) K -> j0 = j) as Hdown.
  { intros j0 Hin Hw. symmetry. apply Hfree; [set_solver|set_solver|].
    by apply (strict_on_way j j0). }
  assert (clear_way w' (dest j)) as Hclear.
  { unfold clear_way. rewrite HK, Hst. split; [by apply Hkeep|]. split.
    - intros k data Hk Hne Hobj.
      destruct (Hfold k data Hobj) as [Hold|(j0 & Hin & ->)].
      + by apply (Hwayfree k data).
      + apply Hne. by rewrite (Hup j0 Hin Hk).
    - intros Hobj. destruct (Hdold K Hobj) as [Hold|(j0 & Hin & Hw & Hne)]; [done|].
      apply Hne. by rewrite (Hdown j0 Hin Hw). }
  destruct (dump_entry_effect dir (job_module j) w' Hfits (dest_plain j Hj)
              (dest_names_file j Hj) Hclear)
    as (Ecwd & EK & Edirs & Esame).
  fold (dest j) in Ecwd, EK, Edirs, Esame. rewrite HK in EK, Edirs, Esame.
  rewrite Hst in Edirs, Esame. cbn [job_module source] in EK.
  set (w'' := dump_entry dir (job_module j) w') in *.
  assert (forall k,
            (k = K /\ obj_at w'' k = Some (FFile j.2))
            \/ (k <> K /\ on_way start K k /\ obj_at w'' k = Some FDir)
            \/ (k <> K /\ ~ on_way start K k /\ obj_at w'' k = obj_at w' k))
    as Hcases.
  { intros k. destruct (decide (k = K)) as [->|Hne]; [by left|]. right.
    destruct (decide (start `prefix_of` k /\ k `prefix_of` K)) as [Hw|Hw].
    - left. split; [done|]. split; [done|]. by apply Edirs.
    - right. split; [done|]. split; [done|]. by apply Esame. }
  split; [by rewrite Ecwd|]. split; [|split; [|split; [|split]]].
  - intros j0 Hin. apply elem_of_app in Hin as [Hin|Hin].
    + destruct (Hcases (t ++ j0.1)) as [[HE Ho]|[(Hne & Hw & Ho)|(Hne & Hw & Ho)]].
      * by rewrite (Hsame j0 Hin HE) in *.
      * destruct Hne. by rewrite (Hup j0 Hin Hw).
      * rewrite Ho. by apply Hfiles.
    + apply list_elem_of_singleton in Hin as ->. exact EK.
  - intros j0 k Hin Hk Hne. apply elem_of_app in Hin as [Hin|Hin].
    + destruct (Hcases k) as [[-> Ho]|[(Hne' & Hw & Ho)|(Hne' & Hw & Ho)]]; [|done|].
      * destruct Hne. by rewrite (Hdown j0 Hin Hk).
      * rewrite Ho. by apply (Hdirs j0).
    + apply list_elem_of_singleton in Hin as ->. by apply Edirs.
  - intros k data Hobj.
    destruct (Hcases k) as [[-> Ho]|[(Hne' & Hw & Ho)|(Hne' & Hw & Ho)]].
    + right. exists j. split; [set_solver|done].
    + by rewrite Ho in Hobj.
    + rewrite Ho in Hobj. destruct (Hfold k data Hobj) as [?|(j0 & Hin & ->)]; [by left|].
      right. exists j0. split; [set_solver|done].
  - intros k Hobj.
    destruct (Hcases k) as [[-> Ho]|[(Hne' & Hw & Ho)|(Hne' & Hw & Ho)]].
    + by rewrite Ho in Hobj.
    + right. exists j. split; [set_solver|done].
    + rewrite Ho in Hobj. destruct (Hdold k Hobj) as [?|(j0 & Hin & ? & ?)]; [by left|].
      right. exists j0. split; [set_solver|done].
  - intros k Hobj.
    destruct (Hcases k) as [[-> Ho]|[(Hne' & Hw & Ho)|(Hne' & Hw & Ho)]].
    + by destruct Hnodir.
    + done.
    + rewrite Ho. by apply Hkeep.
Qed.

(** All the jobs, in order. *)
Lemma dumped_all (todo : list job) :
  forall (done : list job) (w' : world),
  dumped w start t done w' ->
  Forall proper_job todo ->
  prefix_free (done ++ todo) ->
  Forall (fun j => String.length (dest j) <= 511) todo ->
  fresh_target w dir ->
  dumped w start t (done ++ todo)
    (fold_left (fun w m => dump_entry dir m w) (map job_module todo) w').
Proof.
  induction todo as [|j todo IH]; intros done w' Hd Hprop Hfree Hfits Hfresh.
  - by rewrite app_nil_r.
  - inversion Hprop as [|? ? Hj Hprop']; subst.
    inversion Hfits as [|? ? Hfj Hfits']; subst.
    replace (done ++ j :: todo) with ((done ++ [j]) ++ todo) in *
      by (by rewrite <- app_assoc).
    cbn [map fold_left]. apply IH; try done.
    destruct Hfresh as (Hstart & Hway & Hbelow). fold start t in Hstart, Hway, Hbelow.
    assert (t ++ j.1 <> t) as Hne.
    { destruct Hj as [Hj _]. intros H. apply Hj.
      apply (app_inv_head t). by rewrite app_nil_r. }
    apply dumped_step; try done.
    + intros j1 j2 H1 H2 Hp.
      apply Hfree; [apply elem_of_app; by left|apply elem_of_app; by left|done].
    + intros k data [Hk1 Hk2] Hk.
      destruct (prefix_weak_total k t (t ++ j.1)) as [H|H];
        [done|by apply prefix_app_r|..].
      * by apply Hway.
      * destruct (decide (k = t)) as [->|]; [by apply Hway, on_way_refl_end, start_t|].
        by rewrite Hbelow.
    + rewrite Hbelow; [done| |done]. by apply prefix_app_r.
Qed.

(** After the dump every job is a file under its name. *)
Lemma dumped_file_at (jobs : list job) (w' : world) (j : job) :
  dumped w start t jobs w' -> proper_job j -> j ∈ jobs ->
  file_at w' (dest j) = Some j.2.
Proof.
  intros (Hcwd & Hfiles & Hdirs & _) Hj Hin.
  assert (dest j <> "") as Hne.
  { unfold dest. intros H. apply app_eq_nil_str in H as [_ H].
    by apply app_eq_nil_str in H as [? _]. }
  unfold file_at, namei. rewrite decide_False by done.
  rewrite dest_start by done.
  pose proof (dest_key j w' Hcwd Hj) as HK. unfold path_key in HK.
  rewrite dest_start in HK by done.
  pose proof Hj as [Hjne Hjp].
  destruct (exists_last Hjne) as (l & c & Ej).
  rewrite (resolve_dirs w' start _ (t ++ l)).
  - rewrite HK. by rewrite (Hfiles j Hin).
  - intros k Hk. apply (Hdirs j); [done| |].
    + rewrite Ej. eapply on_way_weaken; [|exact Hk].
      rewrite app_assoc. by apply prefix_app_r.
    + intros ->. destruct Hk as [_ Hk]. rewrite Ej, app_assoc in Hk.
      by apply prefix_snoc_not in Hk.
  - by apply dest_plain.
  - rewrite dest_split by done.
    rewrite Ej, app_assoc, removelast_last, lex_key_app. fold t.
    rewrite lex_key_proper; [done|].
    rewrite Ej in Hjp. by apply Forall_app in Hjp as [? _].
Qed.

End DumpAll.

(** ** The paths of the files of a tree *)

Lemma files_of_elem (es : list (string * node)) (x : file_entry) :
  x ∈ files_of (Dir (Some es)) ->
  (x.1.1 = [] /\ (x.1.2, File x.2) ∈ es)
  \/ (exists nm sub x',
        (nm, sub) ∈ es /\ x' ∈ files_of sub
        /\ x = (nm :: x'.1.1, x'.1.2, x'.2)).
Proof.
  simpl. intros H. apply elem_of_app in H as [H|H].
  - left. change (x ∈ (fun f : string * option string => ([], f.1, f.2)) <$> filenames es) in H.
    apply list_elem_of_fmap in H as (f & -> & Hf).
    unfold filenames in Hf. apply list_elem_of_omap in Hf as ([nm n] & He & Hn).
    destruct n as [d|l]; [|done]. injection Hn as <-. done.
  - right. apply list_elem_of_In, in_flat_map in H as ([nm sub] & He & Hx).
    apply list_elem_of_In in He. cbn [fst snd] in Hx.
    destruct sub as [d|l]; [done|].
    apply list_elem_of_In in Hx.
    change (x ∈ (fun x : file_entry => (nm :: x.1.1, x.1.2, x.2)) <$> files_of (Dir l)) in Hx.
    apply list_elem_of_fmap in Hx as (x' & -> & Hx').
    by exists nm, (Dir l), x'.
Qed.

Lemma entry_unique (es : list (string * node)) (nm : string) (a b : node) :
  NoDup es.*1 -> (nm, a) ∈ es -> (nm, b) ∈ es -> a = b.
Proof.
  induction es as [|[n0 c0] es IH]; intros Hnd Ha Hb; [by apply elem_of_nil in Ha|].
  rewrite fmap_cons in Hnd. apply NoDup_cons in Hnd as [Hn0 Hnd].
  assert (forall c, (nm, c) ∈ es -> nm ∈ es.*1) as Hin.
  { intros c Hc. apply list_elem_of_fmap. by exists (nm, c). }
  apply elem_of_cons in Ha as [Ha|Ha]; apply elem_of_cons in Hb as [Hb|Hb];
    simplify_eq; try done.
  - by destruct Hn0; apply (Hin b).
  - by destruct Hn0; apply (Hin a).
  - by apply IH.
Qed.

(** No file of a tree has a path that is, or starts, the path of
    another. *)
Lemma files_prefix_free (root : node) :
  wf_tree root ->
  forall x y : file_entry,
  x ∈ files_of root -> y ∈ files_of root ->
  (x.1.1 ++ [x.1.2]) `prefix_of` (y.1.1 ++ [y.1.2]) -> x = y.
Proof.
  induction root as [d| |es IH] using node_ind; intros Hwf x y Hx Hy Hp;
    [by apply elem_of_nil in Hx|by apply elem_of_nil in Hx|].
  apply wf_tree_dir in Hwf as [Hnd Hes].
  apply files_of_elem in Hx as [[Hx1 Hx2]|(nx & sx & x' & Hex & Hx' & ->)];
    apply files_of_elem in Hy as [[Hy1 Hy2]|(ny & sy & y' & Hey & Hy' & ->)].
  - destruct x as [[dx fx] ax], y as [[dy fy] ay]. cbn [fst snd] in *. subst.
    apply prefix_cons_inv_1 in Hp as ->.
    pose proof (entry_unique es fy _ _ Hnd Hx2 Hy2) as H. by injection H as ->.
  - destruct x as [[dx fx] ax]. cbn [fst snd] in *. subst.
    apply prefix_cons_inv_1 in Hp as ->.
    pose proof (entry_unique es ny _ _ Hnd Hx2 Hey) as <-.
    by apply elem_of_nil in Hy'.
  - destruct y as [[dy fy] ay]. cbn [fst snd] in *. subst.
    apply prefix_cons_inv_2 in Hp. apply prefix_nil_inv in Hp.
    by destruct (x'.1.1).
  - cbn [fst snd] in Hp.
    pose proof (prefix_cons_inv_1 _ _ _ _ Hp) as ->.
    apply prefix_cons_inv_2 in Hp.
    pose proof (entry_unique es ny _ _ Hnd Hex Hey) as ->.
    rewrite Forall_forall in IH, Hes.
    destruct (Hes _ Hey) as [_ Hwf].
    by rewrite (IH _ Hey Hwf x' y' Hx' Hy' Hp).
Qed.

Lemma files_of_proper (root : node) :
  wf_tree root ->
  forall x : file_entry,
  x ∈ files_of root -> Forall (fun c => proper_name c) (x.1.1 ++ [x.1.2]).
Proof.
  induction root as [d| |es IH] using node_ind; intros Hwf x Hx;
    [by apply elem_of_nil in Hx|by apply elem_of_nil in Hx|].
  apply wf_tree_dir in Hwf as [Hnd Hes]. rewrite Forall_forall in IH, Hes.
  apply files_of_elem in Hx as [[Hx1 Hx2]|(nx & sx & x' & Hex & Hx' & ->)].
  - rewrite Hx1. destruct (Hes _ Hx2) as [Hn _]. by repeat constructor.
  - cbn [fst snd]. destruct (Hes _ Hex) as [Hn Hwf]. constructor; [done|].
    by apply (IH _ Hex).
Qed.

(** ** The round trip *)

Lemma concat_map_id (s : string) (a : ascii) (new : string) :
  has_char a s = false ->
  concat_map (fun c => if decide (c = a) then new else str c) s = s.
Proof.
  induction s as [|c s IH]; [done|]. simpl.
  destruct (decide (c = a)); [done|]. intros H. by rewrite IH.
Qed.

Lemma replace_absent (s : string) (a : ascii) (new : string) :
  has_char a s = false -> replace s (str a) new = s.
Proof. intros H. rewrite replace_char. by apply concat_map_id. Qed.

Lemma unescape_plain (s : string) :
  has_char backslash s = false -> has_char dquote s = false ->
  has_char newline s = false ->
  unescape_c s = Some s.
Proof.
  unfold unescape_c. induction s as [|c s IH]; [done|]. simpl.
  destruct (decide (c = backslash)); [done|].
  destruct (decide (c = dquote)); [done|].
  destruct (decide (c = newline)); [done|].
  intros H1 H2 H3. by rewrite IH.
Qed.

Lemma c_string_nul_free (s : string) : nul_free s -> c_string s = s.
Proof.
  induction s as [|c s IH]; [done|]. simpl.
  destruct (decide (c = nul)); [done|]. intros H. by rewrite IH.
Qed.

Lemma nul_free_has_char (s : string) : nul_free s = negb (has_char nul s).
Proof.
  induction s as [|c s IH]; [done|]. simpl. by destruct (decide (c = nul)).
Qed.

Lemma has_char_join (a : ascii) (l : list string) :
  a <> slash ->
  Forall (fun c => has_char a c = false) l ->
  has_char a (str_join "/" l) = false.
Proof.
  intros Ha. induction 1 as [|c l Hc Hl IH]; [done|].
  destruct l as [|d l]; [done|].
  rewrite str_join_cons by done. rewrite !has_char_app, Hc, IH. simpl.
  by rewrite decide_False by done.
Qed.

Lemma plain_name_spec (s : string) :
  plain_name s ->
  proper_name s /\ has_char backslash s = false /\ has_char dquote s = false
  /\ has_char newline s = false /\ has_char nul s = false.
Proof.
  unfold plain_name. rewrite nul_free_has_char. intros H.
  repeat (apply andb_prop_elim in H as [H ?]).
  repeat match goal with
         | H : Is_true (negb ?b) |- _ =>
             apply negb_prop_elim in H; destruct b eqn:?; [by destruct H|]; clear H
         end.
  split; [|done]. unfold proper_name. apply andb_prop_intro. split; [done|].
  by match goal with H : has_char slash s = false |- _ => rewrite H end.
Qed.

Lemma portable_tree_dir (es : list (string * node)) :
  portable_tree (Dir (Some es)) ->
  Forall (fun e => plain_name e.1 /\ portable_tree e.2) es.
Proof.
  simpl. intros H. apply forallb_True in H. eapply Forall_impl; [exact H|].
  intros e He. by apply andb_prop_elim in He.
Qed.

(** The names and the data in a portable tree. *)
Lemma files_of_portable (root : node) :
  portable_tree root ->
  forall x : file_entry,
  x ∈ files_of root ->
  Forall (fun c => plain_name c) (x.1.1 ++ [x.1.2])
  /\ forall data, x.2 = Some data -> plain_text data.
Proof.
  induction root as [d| |es IH] using node_ind; intros Hp x Hx;
    [by apply elem_of_nil in Hx|by apply elem_of_nil in Hx|].
  apply portable_tree_dir in Hp. rewrite Forall_forall in IH, Hp.
  apply files_of_elem in Hx as [[Hx1 Hx2]|(nx & sx & x' & Hex & Hx' & ->)].
  - rewrite Hx1. destruct (Hp _ Hx2) as [Hn Hd]. split; [by repeat constructor|].
    intros data Hdata. cbn [snd] in Hd. by rewrite Hdata in Hd.
  - cbn [fst snd]. destruct (Hp _ Hex) as [Hn Hsub].
    destruct (IH _ Hex Hsub x' Hx') as [H1 H2]. split; [by constructor|done].
Qed.

(** A plain file goes through the scan and the compiler as it is. *)
Lemma compile_plain (x : file_entry) (m : module) (j : job) :
  Forall (fun c => plain_name c) (x.1.1 ++ [x.1.2]) ->
  (forall data, x.2 = Some data -> plain_text data) ->
  module_of x = Some m -> job_of x = Some j ->
  compile_entry m = Some (job_module j)
  /\ j.2 = default "" x.2
  /\ m.1 = "std/" +:+ relative_path x
  /\ name (job_module j) = m.1.
Proof.
  intros Hnames Hdata Hm Hj. unfold module_of in Hm. unfold job_of in Hj.
  destruct x.2 as [data|] eqn:Ex; [|done].
  change (Some (module_name x, universal_newlines data) = Some m) in Hm.
  change (Some ("std" :: x.1.1 ++ [x.1.2], data) = Some j) in Hj.
  injection Hm as <-. injection Hj as <-.
  specialize (Hdata data eq_refl). unfold plain_text in Hdata.
  apply andb_prop_elim in Hdata as [Hcr Hnul].
  apply negb_prop_elim in Hcr. destruct (has_char creturn data) eqn:Ecr; [by destruct Hcr|].
  assert (forall a, a <> slash -> (forall c, plain_name c -> has_char a c = false) ->
            has_char a ("std/" +:+ relative_path x) = false) as Hrel.
  { intros a Ha Hc. rewrite has_char_app.
    unfold relative_path. rewrite has_char_join; [|done|].
    - rewrite orb_false_r. change "std/" with ("std" +:+ str slash).
      rewrite has_char_app, (Hc "std") by done. simpl.
      by rewrite decide_False by done.
    - eapply Forall_impl; [exact Hnames|]. done. }
  assert (module_name x = "std/" +:+ relative_path x) as Hname.
  { unfold module_name. apply replace_absent. apply Hrel; [done|].
    intros c Hc. by apply plain_name_spec in Hc as (_ & ? & _). }
  assert (str_join "/" ("std" :: x.1.1 ++ [x.1.2]) = "std/" +:+ relative_path x) as Hjoin.
  { rewrite str_join_cons by (by destruct x.1.1). done. }
  unfold compile_entry, job_module. cbn [fst snd name source].
  rewrite Hname, Hjoin, universal_newlines_id by done.
  rewrite (unescape_plain ("std/" +:+ relative_path x)).
  - unfold unescape_c. rewrite unescape_escape. cbn [mbind option_bind].
    rewrite !c_string_nul_free; [done|done|].
    rewrite nul_free_has_char. rewrite Hrel; [done|done|].
    intros c Hc. by apply plain_name_spec in Hc as (_ & _ & _ & _ & ?).
  - apply Hrel; [done|]. intros c Hc. by apply plain_name_spec in Hc as (_ & ? & _).
  - apply Hrel; [done|]. intros c Hc. by apply plain_name_spec in Hc as (_ & _ & ? & _).
  - apply Hrel; [done|]. intros c Hc. by apply plain_name_spec in Hc as (_ & _ & _ & ? & _).
Qed.

Lemma std_proper : proper_name "std".
Proof. by vm_compute. Qed.

(** The table the scan of a portable tree compiles to. *)
Lemma compile_jobs (files : list file_entry) :
  Forall (fun x : file_entry =>
            Forall (fun c => plain_name c) (x.1.1 ++ [x.1.2])
            /\ forall data, x.2 = Some data -> plain_text data) files ->
  forall modules jobs,
  mapM module_of files = Some modules ->
  mapM job_of files = Some jobs ->
  compile_table modules = Some (map job_module jobs).
Proof.
  unfold compile_table.
  induction 1 as [|x files [Hn Hd] _ IH]; intros modules jobs Hm Hj.
  - injection Hm as <-. by injection Hj as <-.
  - cbn [mapM] in Hm, Hj.
    destruct (module_of x) as [m|] eqn:Em; [|done].
    destruct (job_of x) as [j|] eqn:Ej; [|done].
    cbn [mbind option_bind] in Hm, Hj.
    destruct (mapM module_of files) as [ms|]; [|done].
    destruct (mapM job_of files) as [js|]; [|done].
    cbn in Hm, Hj. injection Hm as <-. injection Hj as <-.
    destruct (compile_plain x m j Hn Hd Em Ej) as (Hc & _).
    cbn [mapM map]. rewrite Hc. cbn [mbind option_bind].
    by rewrite (IH ms js).
Qed.

Lemma job_of_elem (files : list file_entry) (jobs : list job) (j : job) :
  mapM job_of files = Some jobs -> j ∈ jobs ->
  exists x, x ∈ files /\ job_of x = Some j.
Proof.
  intros H Hj. apply mapM_Some in H.
  destruct (list_elem_of_lookup_1 _ _ Hj) as [i Hi].
  destruct (Forall2_lookup_r _ _ _ _ _ H Hi) as (x & Hx & Hxj).
  exists x. split; [|done]. by eapply list_elem_of_lookup_2.
Qed.

Lemma job_of_elem_2 (files : list file_entry) (jobs : list job) (x : file_entry) :
  mapM job_of files = Some jobs -> x ∈ files ->
  exists j, j ∈ jobs /\ job_of x = Some j.
Proof.
  intros H Hx. apply mapM_Some in H.
  destruct (list_elem_of_lookup_1 _ _ Hx) as [i Hi].
  destruct (Forall2_lookup_l _ _ _ _ _ H Hi) as (j & Hj & Hxj).
  exists j. split; [|done]. by eapply list_elem_of_lookup_2.
Qed.

Lemma job_of_path (x : file_entry) (j : job) :
  job_of x = Some j -> j.1 = "std" :: x.1.1 ++ [x.1.2] /\ x.2 = Some j.2.
Proof.
  unfold job_of. destruct x.2 as [data|]; [|done]. by intros [= <-].
Qed.

Section RoundTrip.
Variable cwd src_dir : string.
Variable root : node.
Variable dir : string.
Variable w : world.

Hypothesis cwd_abs : posixpath.isabs cwd = true.
Hypothesis root_wf : wf_tree root.
Hypothesis root_portable : portable_tree root.
Hypothesis root_readable :
  Forall (fun x : file_entry => is_orus x -> is_Some x.2) (files_of root).
Hypothesis dir_plain : no_dotdot dir.
Hypothesis paths_fit :
  Forall (fun x : file_entry =>
            is_orus x -> String.length (dir +:+ "/" +:+ module_name x) <= 511)
    (files_of root).
Hypothesis target_fresh : fresh_target w dir.

Lemma round_trip_jobs :
  exists modules jobs,
    scan cwd src_dir (Some root) = Ok modules
    /\ compile_table modules = Some (map job_module jobs)
    /\ mapM job_of (filter (fun x => is_orus x) (files_of root)) = Some jobs
    /\ Forall proper_job jobs
    /\ prefix_free jobs
    /\ Forall (fun j => String.length (dir +:+ "/" +:+ name (job_module j)) <= 511) jobs
    /\ (forall x j, x ∈ files_of root -> job_of x = Some j ->
                    name (job_module j) = module_name x
                    /\ module_name x = "std/" +:+ relative_path x).
Proof.
  set (files := filter (fun x => is_orus x) (files_of root)).
  assert (forall x, x ∈ files -> x ∈ files_of root /\ is_orus x) as Hfiles.
  { intros x Hx. apply list_elem_of_filter in Hx as [? ?]. done. }
  assert (is_Some (mapM module_of files)) as [modules Hm].
  { apply mapM_is_Some, Forall_forall. intros x Hx.
    destruct (Hfiles x Hx) as [Hin Ho]. rewrite Forall_forall in root_readable.
    destruct (root_readable x Hin Ho) as [data Hd].
    change (is_Some (module_of x)). unfold module_of. rewrite Hd. by eexists. }
  assert (is_Some (mapM job_of files)) as [jobs Hj].
  { apply mapM_is_Some, Forall_forall. intros x Hx.
    destruct (Hfiles x Hx) as [Hin Ho]. rewrite Forall_forall in root_readable.
    destruct (root_readable x Hin Ho) as [data Hd].
    change (is_Some (job_of x)). unfold job_of. rewrite Hd. by eexists. }
  assert (forall x j, x ∈ files_of root -> job_of x = Some j ->
            name (job_module j) = module_name x
            /\ module_name x = "std/" +:+ relative_path x) as Hnames.
  { intros x j Hin Hxj.
    destruct (files_of_portable root root_portable x Hin) as [Hn Hd].
    pose proof (job_of_path x j Hxj) as [_ Hdata].
    assert (module_of x = Some (module_name x, universal_newlines j.2)) as Hmx.
    { unfold module_of. by rewrite Hdata. }
    destruct (compile_plain x _ j Hn Hd Hmx Hxj) as (_ & _ & H1 & H2).
    done. }
  exists modules, jobs.
  split; [|split; [|split; [done|split; [|split; [|split; [|done]]]]]].
  - rewrite (scan_scan_spec cwd src_dir cwd_abs root root_wf).
    unfold scan_spec. fold files. by rewrite Hm.
  - apply (compile_jobs files); [|done|done].
    apply Forall_forall. intros x Hx. destruct (Hfiles x Hx) as [Hin _].
    exact (files_of_portable root root_portable x Hin).
  - apply Forall_forall. intros j Hjin.
    destruct (job_of_elem files jobs j Hj Hjin) as (x & Hx & Hxj).
    destruct (Hfiles x Hx) as [Hin _].
    destruct (job_of_path x j Hxj) as [Hp _].
    split; [by rewrite Hp|]. rewrite Hp. constructor; [apply std_proper|].
    exact (files_of_proper root root_wf x Hin).
  - intros j j' Hjin Hjin' Hpre.
    destruct (job_of_elem files jobs j Hj Hjin) as (x & Hx & Hxj).
    destruct (job_of_elem files jobs j' Hj Hjin') as (x' & Hx' & Hxj').
    destruct (Hfiles x Hx) as [Hin _]. destruct (Hfiles x' Hx') as [Hin' _].
    destruct (job_of_path x j Hxj) as [Hp _].
    destruct (job_of_path x' j' Hxj') as [Hp' _].
    rewrite Hp, Hp' in Hpre. apply prefix_cons_inv_2 in Hpre.
    pose proof (files_prefix_free root root_wf x x' Hin Hin' Hpre) as ->.
    rewrite Hxj in Hxj'. by injection Hxj'.
  - apply Forall_forall. intros j Hjin.
    destruct (job_of_elem files jobs j Hj Hjin) as (x & Hx & Hxj).
    destruct (Hfiles x Hx) as [Hin Ho].
    destruct (Hnames x j Hin Hxj) as [-> _].
    rewrite Forall_forall in paths_fit. by apply paths_fit.
Qed.

Lemma round_trip_files_aux :
  exists w',
    round_trip cwd src_dir root dir w = Some w'
    /\ forall (x : file_entry) (data : string),
         x ∈ files_of root -> is_orus x -> x.2 = Some data ->
         module_name x = "std/" +:+ relative_path x
         /\ file_at w' (dir +:+ "/" +:+ module_name x) = Some data.
Proof.
  destruct round_trip_jobs
    as (modules & jobs & Hscan & Hcomp & Hjobs & Hprop & Hfree & Hfit & Hnames).
  unfold round_trip. rewrite Hscan, Hcomp. cbn [mbind option_bind].
  eexists. split; [reflexivity|].
  intros x data Hin Ho Hdata.
  assert (x ∈ filter (fun x => is_orus x) (files_of root)) as Hx
    by by apply list_elem_of_filter.
  destruct (job_of_elem_2 _ jobs x Hjobs Hx) as (j & Hjin & Hxj).
  destruct (Hnames x j Hin Hxj) as [Hname Hstd]. split; [done|].
  destruct (job_of_path x j Hxj) as [_ Hd]. rewrite Hdata in Hd. injection Hd as ->.
  rewrite dumpEmbeddedStdlib_fold, <- Hname.
  pose proof (dumped_all dir w dir_plain jobs [] w (dumped_nil dir w)
                Hprop Hfree Hfit target_fresh) as Hdumped.
  rewrite Forall_forall in Hprop.
  exact (dumped_file_at dir w dir_plain jobs _ j Hdumped (Hprop j Hjin) Hjin).
Qed.

End RoundTrip.



Lemma empty_world_fresh (dir : string) : fresh_target empty_world dir.
Proof.
  unfold fresh_target.
  assert (forall k, obj_at empty_world k = None \/ obj_at empty_world k = Some FDir) as H.
  { intros [|c k]; [by right|by left]. }
  split; [|split].
  - unfold path_start. by destruct (startswith _ _).
  - intros k data _. by destruct (H k) as [-> | ->].
  - intros [|c k] Hk Hne; [|done].
    apply prefix_nil_inv in Hk. by rewrite Hk in Hne.
Qed.

(** * Further properties of the generator and of the code it prints *)

(** ** The Escaper *)

Lemma escape_char_length (c : ascii) :
  String.length (escape_char c)
  = 1 + (if decide (c = backslash \/ c = dquote \/ c = newline) then 1 else 0).
Proof.
  destruct (escape_char_cases c) as [[-> ->]|[[-> ->]|[[-> ->]|(Hb&Hq&Hn&->)]]];
    try reflexivity.
  rewrite decide_False; [reflexivity|]. intros [?|[?|?]]; done.
Qed.

Lemma escape_c_length_count (s : string) :
  String.length (escape_c s) = String.length s + count_escaped s.
Proof.
  induction s as [|c s IH]; [reflexivity|].
  rewrite escape_c_cons, length_app_str, escape_char_length, IH. simpl. lia.
Qed.

Lemma count_escaped_bound (s : string) : count_escaped s <= String.length s.
Proof.
  induction s as [|c s IH]; [done|]. simpl. case_decide; lia.
Qed.

Lemma count_escaped_0 (s : string) :
  count_escaped s = 0
  <-> has_char backslash s = false /\ has_char dquote s = false
      /\ has_char newline s = false.
Proof.
  induction s as [|c s IH]; [done|]. simpl.
  repeat case_decide; subst; try done; rewrite <- ?IH; try lia.
  all: try (split; [intros ?; exfalso; lia | by intros (?&?&?)]).
  all: exfalso; tauto.
Qed.

(** X1.  Escaping goes through concatenation: the escape of two texts put
    together is their escapes put together, so a text can be escaped piece
    by piece. *)
Theorem escape_c_app (s t : string) :
  escape_c (s +:+ t) = escape_c s +:+ escape_c t.
Proof. rewrite !escape_c_concat_map. apply concat_map_app. Qed.

(** X2.  The escaped text is longer than the text by one character for
    each backslash, double quote and line feed in it: never shorter, and
    at most twice as long. *)
Theorem escape_c_length (s : string) :
  String.length (escape_c s) = String.length s + count_escaped s
  /\ String.length s <= String.length (escape_c s) <= 2 * String.length s.
Proof.
  pose proof (escape_c_length_count s). pose proof (count_escaped_bound s).
  split; [done|lia].
Qed.

(** X3.  Different texts have different escapes. *)
Theorem escape_c_distinct (s t : string) : s <> t -> escape_c s <> escape_c t.
Proof.
  intros Hne E. apply Hne.
  pose proof (unescape_escape s) as Hs. rewrite E, unescape_escape in Hs.
  by injection Hs.
Qed.

Lemma escape_c_distinct_witness :
  escape_c ("a" +:+ str newline) <> escape_c ("a" +:+ str backslash +:+ "n").
Proof. apply escape_c_distinct. discriminate. Defined.

(** X4.  The Escaper leaves a text as it is exactly when the text holds no
    backslash, no double quote and no line feed. *)
Theorem escape_c_unchanged_iff (s : string) :
  escape_c s = s
  <-> has_char backslash s = false /\ has_char dquote s = false
      /\ has_char newline s = false.
Proof.
  rewrite <- count_escaped_0. split.
  - intros E. pose proof (escape_c_length_count s) as H. rewrite E in H. lia.
  - induction s as [|c s IH]; [done|]. simpl. intros H.
    rewrite escape_c_cons.
    destruct (escape_char_cases c) as [[-> _]|[[-> _]|[[-> _]|(Hb&Hq&Hn&->)]]].
    1-3: exfalso; revert H; case_decide; [lia|tauto].
    rewrite IH; [done|]. lia.
Qed.

(** ** The run as a whole *)

(** X5.  Unless it is given exactly three arguments after its own name the
    run does nothing but print the usage line and end with status 1,
    whatever is on the disk; given three it never prints anything. *)
Theorem main_usage (argv : list string) (e : env) :
  (length argv <> 4 ->
   main argv e
   = {| exit_status := 1;
        printed := ["Usage: gen_stdlib.py <src_dir> <out_c> <out_h>"];
        written := [] |})
  /\ (length argv = 4 -> printed (main argv e) = []).
Proof.
  unfold main, uncaught.
  destruct argv as [|a0 [|a1 [|a2 [|a3 [|a4 argv]]]]]; (split; [|try done]);
    try done.
  intros _. by repeat case_match.
Qed.

Lemma main_usage_witness :
  main ["gen_stdlib.py"; "stdlib"] empty_env
  = {| exit_status := 1;
       printed := ["Usage: gen_stdlib.py <src_dir> <out_c> <out_h>"];
       written := [] |}
  /\ printed (main ["gen_stdlib.py"; "nowhere"; "out.c"; "out.h"] empty_env) = [].
Proof.
  split.
  - apply (main_usage ["gen_stdlib.py"; "stdlib"] empty_env). simpl. lia.
  - apply (main_usage ["gen_stdlib.py"; "nowhere"; "out.c"; "out.h"] empty_env).
    reflexivity.
Defined.



(** X7.  The declarations are written before the definitions, and only
    after the scan: when the declarations cannot be opened nothing is
    written; when the scan returned and the declarations were written but
    the definitions cannot be opened, the run ends with status 1 and leaves
    the new declarations behind, alone. *)
Theorem main_partial_output (e : env) (prog src_dir out_c out_h : string) :
  let run := main [prog; src_dir; out_c; out_h] e in
  (writable e out_h = false -> exit_status run = 1%Z /\ written run = [])
  /\ (forall modules,
        scan (getcwd e) src_dir (tree_at e src_dir) = Ok modules ->
        writable e out_h = true -> writable e out_c = false ->
        exit_status run = 1%Z /\ written run = [(out_h, declarations_text)]).
Proof.
  intros run. subst run. unfold main, write_file. split.
  - intros ->. by destruct (scan _ _ _).
  - intros modules -> -> ->. by rewrite <- h_writes_text.
Qed.

Lemma main_partial_output_witness :
  exit_status (main ["gen_stdlib.py"; "nowhere"; "out.c"; "out.h"] header_only_env)
  = 1%Z
  /\ written (main ["gen_stdlib.py"; "nowhere"; "out.c"; "out.h"] header_only_env)
     = [("out.h", declarations_text)].
Proof.
  destruct (main_partial_output header_only_env
              "gen_stdlib.py" "nowhere" "out.c" "out.h") as [_ H].
  apply (H []); reflexivity.
Defined.

(** ** The Scanner *)

Lemma endswith_inv (s suf : string) :
  endswith s suf = true -> exists p, s = p +:+ suf.
Proof.
  induction s as [|c s IH]; rewrite endswith_unfold; case_decide; subst.
  - intros _. by exists "".
  - done.
  - intros _. by exists "".
  - intros He. destruct (IH He) as [p ->]. by exists (String c p).
Qed.

Lemma has_char_replaced (a : ascii) (new s : string) :
  has_char a new = false ->
  has_char a (concat_map (fun c => if decide (c = a) then new else str c) s) = false.
Proof.
  intros Hnew. induction s as [|c s IH]; [done|]. simpl.
  rewrite has_char_app, IH, orb_false_r.
  case_decide; [done|]. simpl. by rewrite decide_False.
Qed.

Lemma module_name_shape (x : file_entry) :
  is_orus x ->
  startswith (module_name x) "std/" = true
  /\ endswith (module_name x) ".orus" = true
  /\ has_char backslash (module_name x) = false.
Proof.
  intros Ho. unfold module_name. rewrite replace_char. split; [|split].
  - rewrite concat_map_app. done.
  - apply Is_true_true in Ho. apply endswith_inv in Ho as [p Hp].
    unfold relative_path.
    assert (exists P, "std/" +:+ str_join "/" (x.1.1 ++ [x.1.2]) = P +:+ ".orus")
      as [P ->].
    { destruct (decide (x.1.1 = [])) as [->|Hne].
      - exists ("std/" +:+ p). simpl. by rewrite Hp, str_app_assoc.
      - rewrite (str_join_snoc "/" x.1.2 x.1.1 Hne), Hp.
        exists ("std/" +:+ str_join "/" x.1.1 +:+ "/" +:+ p).
        by rewrite !str_app_assoc. }
    rewrite concat_map_app.
    change (concat_map _ ".orus") with ".orus". apply endswith_suffix.
  - by apply has_char_replaced.
Qed.

Lemma scan_spec_modules (root : node) (modules : list module) :
  scan_spec root = Ok modules ->
  Forall2 (fun x m => module_of x = Some m)
    (filter (fun x => is_orus x) (files_of root)) modules.
Proof.
  unfold scan_spec. destruct (mapM _ _) as [ms|] eqn:E; [|done].
  intros [= <-]. by apply mapM_Some in E.
Qed.

Lemma module_of_name (x : file_entry) (m : module) :
  module_of x = Some m -> m.1 = module_name x.
Proof. unfold module_of. destruct x.2; [|done]. by intros [= <-]. Qed.

(** X8.  The modules do not depend on how the source directory is written
    (relative or absolute, with or without a slash at its end) nor on the
    working directory: two scans of one tree agree, names included. *)
Theorem scan_root_spelling (cwd1 cwd2 src1 src2 : string) (root : node) :
  posixpath.isabs cwd1 = true -> posixpath.isabs cwd2 = true ->
  wf_tree root ->
  scan cwd1 src1 (Some root) = scan cwd2 src2 (Some root).
Proof.
  intros H1 H2 Hwf.
  by rewrite (scan_scan_spec cwd1 src1 H1 root Hwf),
             (scan_scan_spec cwd2 src2 H2 root Hwf).
Qed.

Lemma scan_root_spelling_witness :
  scan "/home/u" "../lib/" (Some tree_ab) = scan "/" "/srv/stdlib" (Some tree_ab).
Proof.
  apply scan_root_spelling; [reflexivity|reflexivity|].
  vm_compute. exact I.
Defined.

(** X9.  Every name the scan gives a module starts with [std/], ends in
    [.orus] and holds no backslash. *)
Theorem scan_name_shape (cwd src_dir : string) (root : node)
    (modules : list module) :
  posixpath.isabs cwd = true -> wf_tree root ->
  scan cwd src_dir (Some root) = Ok modules ->
  Forall (fun m : module =>
            startswith m.1 "std/" = true
            /\ endswith m.1 ".orus" = true
            /\ has_char backslash m.1 = false) modules.
Proof.
  intros Hcwd Hwf. rewrite (scan_scan_spec cwd src_dir Hcwd root Hwf).
  intros H. apply scan_spec_modules in H.
  eapply Forall2_Forall_r; [exact H|].
  apply Forall_forall. intros x Hx m Hm.
  apply list_elem_of_filter in Hx as [Ho _].
  rewrite (module_of_name x m Hm). by apply module_name_shape.
Qed.

Lemma scan_name_shape_witness :
  Forall (fun m : module =>
            startswith m.1 "std/" = true
            /\ endswith m.1 ".orus" = true
            /\ has_char backslash m.1 = false)
    [("std/a" +:+ "/" +:+ "b.orus", "x")].
Proof.
  apply (scan_name_shape "/" "stdlib" backslash_tree); [reflexivity| |reflexivity].
  vm_compute. exact I.
Defined.

Lemma entry_files_head (e : string * node) (x : file_entry) :
  x ∈ entry_files e -> head (x.1.1 ++ [x.1.2]) = Some e.1.
Proof.
  unfold entry_files. destruct e as [nm [d|l]]; cbn [fst snd].
  - intros H. apply list_elem_of_singleton in H. by subst.
  - intros H.
    change (x ∈ (fun x : file_entry => (nm :: x.1.1, x.1.2, x.2)) <$> files_of (Dir l)) in H.
    apply list_elem_of_fmap in H as (y & -> & _). done.
Qed.

(** The walk reaches no file twice. *)
Lemma files_of_NoDup (root : node) : wf_tree root -> NoDup (files_of root).
Proof.
  induction root as [d| |es IH] using node_ind; intros Hwf;
    [constructor|constructor|].
  rewrite files_of_entries.
  apply wf_tree_dir in Hwf as [Hnd Hes].
  induction es as [|[nm sub] es IHes]; [constructor|].
  inversion IH as [|? ? IHsub IHrest]; subst.
  inversion Hes as [|? ? [Hnm Hsub] Hrest]; subst.
  rewrite fmap_cons in Hnd. apply NoDup_cons in Hnd as [Hfresh Hnd].
  cbn [fst snd] in *. cbn [flat_map]. apply NoDup_app. split; [|split].
  - unfold entry_files. cbn [fst snd]. destruct sub as [d|l].
    + apply NoDup_singleton.
    + apply (NoDup_fmap_2_strong
               (fun x : file_entry => (nm :: x.1.1, x.1.2, x.2))).
      * intros [[? ?] ?] [[? ?] ?] _ _ [=]. by subst.
      * by apply IHsub.
  - intros x Hx Hx'. apply entry_files_head in Hx.
    apply list_elem_of_In, in_flat_map in Hx' as (e' & He' & Hx').
    apply list_elem_of_In in He', Hx'. apply entry_files_head in Hx'.
    rewrite Hx in Hx'. injection Hx' as ->.
    apply Hfresh. apply list_elem_of_fmap. by exists e'.
  - by apply IHes.
Qed.

Lemma scan_spec_names (root : node) (modules : list module) :
  scan_spec root = Ok modules ->
  modules.*1 = module_name <$> filter (fun x => is_orus x) (files_of root).
Proof.
  intros H. apply scan_spec_modules in H.
  induction H as [|x m l k Hm _ IH]; [done|].
  rewrite !fmap_cons, IH. by rewrite (module_of_name x m Hm).
Qed.

Lemma module_name_plain (x : file_entry) :
  Forall (fun c => has_char backslash c = false) (x.1.1 ++ [x.1.2]) ->
  module_name x = "std/" +:+ relative_path x.
Proof.
  intros H. unfold module_name. apply replace_absent.
  rewrite has_char_app. unfold relative_path.
  by rewrite (has_char_join backslash _) by done.
Qed.

Lemma relative_path_inj (x y : file_entry) :
  Forall (fun c => proper_name c) (x.1.1 ++ [x.1.2]) ->
  Forall (fun c => proper_name c) (y.1.1 ++ [y.1.2]) ->
  relative_path x = relative_path y ->
  x.1.1 ++ [x.1.2] = y.1.1 ++ [y.1.2].
Proof.
  intros Hx Hy E. unfold relative_path in E.
  apply (f_equal (split slash)) in E.
  rewrite (split_join (x.1.1 ++ [x.1.2])) in E;
    [|by destruct (x.1.1)|by apply proper_no_slash].
  rewrite (split_join (y.1.1 ++ [y.1.2])) in E;
    [done|by destruct (y.1.1)|by apply proper_no_slash].
Qed.

(** Two scripts of one tree with one module name. *)
Example scan_names_collide :
  scan "/" "stdlib" (Some colliding_tree)
  = Ok [("std/a/b.orus", "1"); ("std/a/b.orus", "2")].
Proof. reflexivity. Qed.

(** X10.  When no script has a backslash in its name or in the name of a
    directory above it, no two modules of a scan have the same name. *)
Theorem scan_names_distinct (cwd src_dir : string) (root : node)
    (modules : list module) :
  posixpath.isabs cwd = true -> wf_tree root ->
  Forall (fun x : file_entry =>
            is_orus x ->
            Forall (fun c => has_char backslash c = false) (x.1.1 ++ [x.1.2]))
    (files_of root) ->
  scan cwd src_dir (Some root) = Ok modules ->
  NoDup modules.*1.
Proof.
  intros Hcwd Hwf Hplain. rewrite (scan_scan_spec cwd src_dir Hcwd root Hwf).
  intros H. rewrite (scan_spec_names root modules H).
  rewrite Forall_forall in Hplain.
  apply NoDup_fmap_2_strong; [|by apply NoDup_filter, files_of_NoDup].
  intros x y Hx Hy E.
  apply list_elem_of_filter in Hx as [Hox Hx], Hy as [Hoy Hy].
  rewrite !module_name_plain in E by by apply Hplain.
  apply (inj (String.app "std/")) in E.
  apply relative_path_inj in E; try by apply (files_of_proper root).
  apply (files_prefix_free root Hwf x y Hx Hy). by rewrite E.
Qed.

Lemma scan_names_distinct_witness :
  NoDup ([("std/a.orus", "1"); ("std/b.orus", "2"); ("std/sub/c.orus", "3")].*1
         : list string).
Proof.
  apply (scan_names_distinct "/home/u" "../lib/" tree_ab
           [("std/a.orus", "1"); ("std/b.orus", "2"); ("std/sub/c.orus", "3")]).
  - reflexivity.
  - vm_compute. exact I.
  - let l := eval vm_compute in (files_of tree_ab) in
    change (files_of tree_ab) with l.
    repeat (constructor; [intros _; by repeat constructor|]). constructor.
  - reflexivity.
Defined.

Lemma filenames_listed (es : list (string * node)) :
  filenames (map (fun e => (e.1, listed e.2)) es) = filenames es.
Proof.
  unfold filenames. induction es as [|[nm [d|[l|]]] es IH]; [done|..]; simpl.
  - f_equal. exact IH.
  - exact IH.
  - exact IH.
Qed.

Lemma walk_listed (cwd src_dir : string) (n : node) :
  forall (top : string) (ms : list module),
  for_each (scan_dir cwd src_dir) (walk top (listed n)) ms
  = for_each (scan_dir cwd src_dir) (walk top n) ms.
Proof.
  induction n as [d| |es IH] using node_ind; intros top ms; [done|done|].
  cbn [listed walk for_each].
  change (scan_dir cwd src_dir ms (top, dirnames es, filenames es))
    with (for_each (scan_file cwd src_dir top) (filenames es) ms).
  change (scan_dir cwd src_dir ms
            (top, dirnames (map (fun e => (e.1, listed e.2)) es),
             filenames (map (fun e => (e.1, listed e.2)) es)))
    with (for_each (scan_file cwd src_dir top)
            (filenames (map (fun e => (e.1, listed e.2)) es)) ms).
  rewrite filenames_listed.
  destruct (for_each (scan_file cwd src_dir top) (filenames es) ms) as [ms'|];
    [|done].
  cbn [mbind result_bind]. clear ms. revert ms'.
  induction es as [|[nm sub] es IHes]; intros ms; [done|].
  inversion IH as [|? ? IHsub IHrest]; subst.
  cbn [map flat_map fst snd] in *. rewrite !for_each_app.
  destruct sub as [d|l].
  - simpl. by apply IHes.
  - assert (exists l', listed (Dir l) = Dir l') as [l' Hl'] by (destruct l; by eexists).
    rewrite <- (IHsub (posixpath.join2 top nm) ms). rewrite Hl'.
    destruct (for_each _ _ ms) as [ms'|]; [|done]. by apply IHes.
Qed.

(** X11.  A directory that cannot be listed counts as an empty one: the
    scan raises nothing for it and returns what it returns for the tree
    with that directory empty. *)
Theorem scan_unlistable_as_empty (cwd src_dir : string) (root : node) :
  scan cwd src_dir (Some (listed root)) = scan cwd src_dir (Some root).
Proof. unfold scan, os_walk. apply walk_listed. Qed.

Example scan_locked_sample :
  scan "/" "stdlib" (Some locked_tree)
  = Ok [("std/a.orus", "1"); ("std/sub/c.orus", "3")].
Proof. reflexivity. Qed.

(** ** The lookup *)

Lemma getEmbeddedModule_loop_shift (m : EmbeddedModule) (reg : list EmbeddedModule)
    (query : string) (todo i : nat) :
  getEmbeddedModule_loop (m :: reg) todo (S i) query
  = getEmbeddedModule_loop reg todo i query.
Proof.
  revert i. induction todo as [|todo IH]; intros i; [done|]. simpl.
  destruct (reg !! i) as [m'|]; [|done]. case_decide; [done|]. apply IH.
Qed.

Lemma getEmbeddedModule_cons (m : EmbeddedModule) (reg : list EmbeddedModule)
    (query : string) :
  getEmbeddedModule (m :: reg) query
  = if decide (strcmp (name m) query = 0%Z) then Some (source m)
    else getEmbeddedModule reg query.
Proof.
  unfold getEmbeddedModule, embeddedStdlibCount. simpl.
  case_decide; [done|]. apply getEmbeddedModule_loop_shift.
Qed.

(** X12.  A lookup in two tables put one after the other is a lookup in
    the first and, only when that finds nothing, in the second: entries
    added at the end never change what an earlier entry answers. *)
Theorem getEmbeddedModule_app (reg1 reg2 : list EmbeddedModule) (query : string) :
  getEmbeddedModule (reg1 ++ reg2) query
  = match getEmbeddedModule reg1 query with
    | Some src => Some src
    | None => getEmbeddedModule reg2 query
    end.
Proof.
  induction reg1 as [|m reg1 IH]; [done|].
  rewrite <- app_comm_cons, !getEmbeddedModule_cons. by case_decide.
Qed.

Lemma job_name_inj (j j' : job) :
  proper_job j -> proper_job j' ->
  name (job_module j) = name (job_module j') -> j.1 = j'.1.
Proof.
  intros [Hne Hp] [Hne' Hp'] E. cbn [job_module name] in E.
  apply (f_equal (split slash)) in E.
  rewrite (split_join j.1) in E; [|done|by apply proper_no_slash].
  by rewrite (split_join j'.1) in E; [|done|by apply proper_no_slash].
Qed.

(** In a table of named files each name finds its own file. *)
Lemma lookup_job (jobs : list job) (j : job) :
  Forall proper_job jobs -> prefix_free jobs ->
  Forall (fun j => nul_free (name (job_module j))) jobs ->
  j ∈ jobs ->
  getEmbeddedModule (map job_module jobs) (name (job_module j)) = Some j.2.
Proof.
  intros Hprop Hfree Hnul Hj.
  rewrite Forall_forall in Hprop. rewrite Forall_forall in Hnul.
  unfold getEmbeddedModule, embeddedStdlibCount.
  rewrite (getEmbeddedModule_loop_spec _ _ _ 0); [| |by apply Hnul|lia].
  2:{ apply Forall_forall. intros m Hm.
      change (m ∈ job_module <$> jobs) in Hm.
      apply list_elem_of_fmap in Hm as (j' & -> & Hj'). by apply Hnul. }
  rewrite drop_0.
  destruct (list_elem_of_split_l jobs j Hj) as (l1 & l2 & E & Hfirst).
  rewrite E, map_app. cbn [map].
  change j.2 with (source (job_module j)).
  apply lookup_spec_first; [done|].
  intros m Hm Hname.
  change (m ∈ job_module <$> l1) in Hm.
  apply list_elem_of_fmap in Hm as (j' & -> & Hj').
  assert (j' ∈ jobs) as Hin' by (rewrite E; apply elem_of_app; by left).
  apply job_name_inj in Hname; [|by apply Hprop..].
  assert (j' = j) as ->; [|done].
  apply Hfree; [done|done|]. by rewrite Hname.
Qed.

Lemma nul_free_job (j : job) :
  Forall (fun c => plain_name c) j.1 -> nul_free (name (job_module j)).
Proof.
  intros H. cbn [job_module name]. rewrite nul_free_has_char.
  rewrite has_char_join; [done|done|].
  eapply Forall_impl; [exact H|]. intros c Hc.
  by apply plain_name_spec in Hc as (_ & _ & _ & _ & ?).
Qed.

Lemma std_plain : plain_name "std".
Proof. by vm_compute. Qed.




Lemma sample_jobs_prefix_free : prefix_free sample_jobs.
Proof.
  intros j j' Hj Hj' Hp.
  apply list_elem_of_In in Hj, Hj'. simpl in Hj, Hj'.
  destruct Hj as [<-|[<-|[]]], Hj' as [<-|[<-|[]]]; try done.
  all: destruct Hp as [k Hk]; discriminate.
Qed.


(** ** The file system after [ensure_dir] and after the dump *)

Lemma mkdir_objs (p : string) (w : world) (k : list string) :
  obj_at (mkdir p w).1 k = obj_at w k
  \/ (obj_at w k = None /\ obj_at (mkdir p w).1 k = Some FDir).
Proof.
  unfold mkdir. destruct (namei_create w p) as [k0|]; [|by left].
  destruct (obj_at w k0) as [o|] eqn:E; [by left|]. cbn [fst].
  rewrite obj_at_set_obj by by eapply obj_at_None_nonroot.
  destruct (decide (k = k0)) as [->|]; [by right|by left].
Qed.

Lemma mkdirs_cwd (l : list string) (w : world) : cwd (mkdirs l w) = cwd w.
Proof.
  revert w. induction l as [|q l IH]; intros w; [done|].
  cbn [mkdirs fold_left]. fold (mkdirs l (mkdir q w).1).
  by rewrite IH, mkdir_cwd.
Qed.

Lemma mkdirs_objs (l : list string) (w : world) (k : list string) :
  obj_at (mkdirs l w) k = obj_at w k
  \/ (obj_at w k = None /\ obj_at (mkdirs l w) k = Some FDir).
Proof.
  revert w. induction l as [|q l IH]; intros w; [by left|].
  cbn [mkdirs fold_left]. fold (mkdirs l (mkdir q w).1).
  destruct (IH (mkdir q w).1) as [E|[E1 E2]];
    destruct (mkdir_objs q w k) as [F|[F1 F2]].
  - left. by rewrite E.
  - right. by rewrite E.
  - right. by rewrite <- F.
  - rewrite F2 in E1. done.
Qed.

Lemma ensure_dir_loop_cuts (rest before : string) (w : world) :
  ensure_dir_loop before rest w = mkdirs (cuts before rest) w.
Proof.
  revert before w. induction rest as [|c rest IH]; intros before w; [done|].
  cbn [ensure_dir_loop cuts]. rewrite IH. unfold mkdirs.
  rewrite fold_left_app. by case_decide.
Qed.

Lemma ensure_dir_calls (path : string) (w : world) :
  ensure_dir path w = mkdirs (mkdir_calls path) w.
Proof.
  unfold ensure_dir, mkdir_calls, mkdirs. rewrite fold_left_app. cbn [fold_left].
  destruct (truncate 511 path) as [|c rest]; [done|].
  by rewrite ensure_dir_loop_cuts.
Qed.

Lemma ensure_dir_cwd (path : string) (w : world) :
  cwd (ensure_dir path w) = cwd w.
Proof. rewrite ensure_dir_calls. apply mkdirs_cwd. Qed.

Lemma ensure_dir_objs (path : string) (w : world) (k : list string) :
  obj_at (ensure_dir path w) k = obj_at w k
  \/ (obj_at w k = None /\ obj_at (ensure_dir path w) k = Some FDir).
Proof. rewrite ensure_dir_calls. apply mkdirs_objs. Qed.

(** X15.  [ensure_dir] only ever adds directories: whatever the path and
    the file system, every object that was there is there unchanged
    afterwards, and anything new is a directory. *)
Theorem ensure_dir_only_adds (path : string) (w : world) :
  cwd (ensure_dir path w) = cwd w
  /\ forall k,
       obj_at (ensure_dir path w) k = obj_at w k
       \/ (obj_at w k = None /\ obj_at (ensure_dir path w) k = Some FDir).
Proof. split; [apply ensure_dir_cwd|apply ensure_dir_objs]. Qed.

(** *** Calling [ensure_dir] again *)

Lemma fold_path_step_None (w : world) (l : list string) :
  fold_left (path_step w) l None = None.
Proof. by induction l. Qed.

Lemma fold_path_step_prefix (w : world) (l1 l2 : list string) (s : option (list string)) :
  is_Some (fold_left (path_step w) (l1 ++ l2) s) ->
  is_Some (fold_left (path_step w) l1 s).
Proof.
  rewrite fold_left_app. destruct (fold_left (path_step w) l1 s); [by eexists|].
  rewrite fold_path_step_None. by intros [? ?].
Qed.

Lemma fold_path_step_mono (w w' : world) (l : list string) (s k : list string) :
  (forall k, obj_at w k = Some FDir -> obj_at w' k = Some FDir) ->
  fold_left (path_step w) l (Some s) = Some k ->
  fold_left (path_step w') l (Some s) = Some k.
Proof.
  intros Hdirs. revert s. induction l as [|c l IH]; intros s; [done|].
  cbn [fold_left]. unfold path_step at 2 4. cbn [mbind option_bind].
  destruct (obj_at w s) as [[|d]|] eqn:E;
    try (rewrite fold_path_step_None; discriminate).
  rewrite (Hdirs s E). apply IH.
Qed.

Lemma drop_trailing_empty_app (l1 l2 : list string) :
  exists rest, drop_trailing_empty (l1 ++ l2) = drop_trailing_empty l1 ++ rest.
Proof.
  induction l1 as [|x l1 [rest IH]]; [by eexists|].
  cbn [app drop_trailing_empty]. rewrite IH.
  destruct (drop_trailing_empty l1) as [|y l'] eqn:E.
  - destruct rest as [|z rest]; cbn [app].
    + exists []. by rewrite app_nil_r.
    + destruct (decide (x = "")); [by eexists|]. by exists (z :: rest).
  - by exists rest.
Qed.

Lemma namei_create_extends (w : world) (q q' : string) :
  extends q q' -> q <> "" ->
  is_Some (namei_create w q') -> is_Some (namei_create w q).
Proof.
  intros [r ->] Hq. unfold namei_create.
  rewrite decide_False by (by destruct q). rewrite decide_False by done.
  rewrite split_app_sep, path_start_app by done.
  destruct (drop_trailing_empty_app (split slash q) (split slash r)) as [rest ->].
  apply fold_path_step_prefix.
Qed.

Lemma namei_create_mono (w w' : world) (q : string) (k : list string) :
  cwd w' = cwd w ->
  (forall k, obj_at w k = Some FDir -> obj_at w' k = Some FDir) ->
  namei_create w q = Some k -> namei_create w' q = Some k.
Proof.
  intros Hcwd Hdirs. unfold namei_create. case_decide; [done|].
  rewrite (path_start_cwd w w') by done. by apply fold_path_step_mono.
Qed.

Lemma mkdir_keeps (p : string) (w : world) (k : list string) (o : fsobj) :
  obj_at w k = Some o -> obj_at (mkdir p w).1 k = Some o.
Proof.
  intros H. destruct (mkdir_objs p w k) as [E|[E _]]; [by rewrite E|].
  by rewrite H in E.
Qed.

Lemma settled_noop (w : world) (q : string) : settled w q -> (mkdir q w).1 = w.
Proof.
  unfold settled, mkdir. destruct (namei_create w q) as [k|]; [|done].
  by destruct (obj_at w k).
Qed.

Lemma mkdir_settles (w : world) (q : string) : settled (mkdir q w).1 q.
Proof.
  destruct (namei_create w q) as [k|] eqn:E.
  - unfold settled.
    rewrite (namei_create_mono w (mkdir q w).1 q k);
      [|apply mkdir_cwd|intros k'; apply mkdir_keeps|done].
    unfold mkdir. rewrite E. destruct (obj_at w k) as [o|] eqn:Ek; cbn [fst].
    + by rewrite Ek.
    + rewrite obj_at_set_obj by by eapply obj_at_None_nonroot.
      by rewrite decide_True.
  - unfold mkdir. rewrite E. cbn [fst]. unfold settled. by rewrite E.
Qed.

Lemma settled_extended (w : world) (q q' : string) :
  extends q q' -> settled w q -> settled (mkdir q' w).1 q.
Proof.
  intros Hext Hq.
  destruct (decide (q = "")) as [->|Hne]; [done|].
  destruct (namei_create w q') as [k'|] eqn:E'.
  - destruct (namei_create_extends w q q' Hext Hne) as [k E]; [by rewrite E'|].
    unfold settled in *. rewrite E in Hq.
    rewrite (namei_create_mono w (mkdir q' w).1 q k);
      [|apply mkdir_cwd|intros k0; apply mkdir_keeps|done].
    destruct (obj_at w k) as [o|] eqn:Ek; [|done].
    by rewrite (mkdir_keeps q' w k o Ek).
  - unfold mkdir. by rewrite E'.
Qed.

Lemma settled_mkdirs (l : list string) (w : world) (q : string) :
  Forall (extends q) l -> settled w q -> settled (mkdirs l w) q.
Proof.
  intros Hl. revert w. induction Hl as [|q' l Hq' _ IH]; intros w Hq; [done|].
  cbn [mkdirs fold_left]. apply IH. by apply settled_extended.
Qed.

Lemma mkdirs_settles (l : list string) (w : world) :
  chain l -> Forall (settled (mkdirs l w)) l.
Proof.
  revert w. induction l as [|q l IH]; intros w Hl; [constructor|].
  destruct Hl as [Hext Hl]. cbn [mkdirs fold_left]. constructor.
  - apply settled_mkdirs; [done|]. apply mkdir_settles.
  - by apply IH.
Qed.

Lemma mkdirs_noop (l : list string) (w : world) :
  Forall (settled w) l -> mkdirs l w = w.
Proof.
  induction 1 as [|q l Hq _ IH]; [done|].
  cbn [mkdirs fold_left]. by rewrite (settled_noop w q Hq).
Qed.

Lemma cuts_extends (rest before q : string) :
  extends q before ->
  Forall (extends q) (cuts before rest ++ [before +:+ rest]).
Proof.
  revert before. induction rest as [|c rest IH]; intros before [r Hr].
  - cbn [cuts app]. constructor; [|constructor]. exists r.
    by rewrite str_app_nil_r.
  - cbn [cuts].
    assert (before +:+ String c rest = (before +:+ str c) +:+ rest) as ->.
    { by rewrite str_app_assoc. }
    assert (Forall (extends q) (cuts (before +:+ str c) rest ++ [(before +:+ str c) +:+ rest]))
      as Hrest.
    { apply IH. exists (r +:+ str c). rewrite Hr.
      by rewrite str_app_assoc, str_app_cons. }
    case_decide; [|done]. cbn [app]. constructor; [by exists r|done].
Qed.

Lemma cuts_chain (rest before : string) :
  chain (cuts before rest ++ [before +:+ rest]).
Proof.
  revert before. induction rest as [|c rest IH]; intros before.
  - cbn. by split.
  - cbn [cuts].
    assert (before +:+ String c rest = (before +:+ str c) +:+ rest) as ->.
    { by rewrite str_app_assoc. }
    case_decide as Hc; [|apply IH]. cbn [app chain]. split; [|apply IH].
    apply cuts_extends. exists "". by rewrite Hc.
Qed.

Lemma mkdir_calls_chain (path : string) : chain (mkdir_calls path).
Proof.
  unfold mkdir_calls. destruct (truncate 511 path) as [|c rest].
  - cbn. by split.
  - apply (cuts_chain rest (str c)).
Qed.

(** X16.  Calling [ensure_dir] again on the same path changes nothing,
    whatever the path and whatever the first call found or made. *)
Theorem ensure_dir_idempotent (path : string) (w : world) :
  ensure_dir path (ensure_dir path w) = ensure_dir path w.
Proof.
  rewrite !ensure_dir_calls. apply mkdirs_noop, mkdirs_settles, mkdir_calls_chain.
Qed.

(** *** What the dump can change *)

Lemma dump_change_trans (reg : list EmbeddedModule) (a b c : option fsobj) :
  dump_change reg a b -> dump_change reg b c -> dump_change reg a c.
Proof.
  intros [->|[[-> ->]|[Ha (m & Hm & ->)]]] Hbc; [done|..].
  - destruct Hbc as [->|[[? _]|[? _]]]; [|done..]. right. by left.
  - destruct Hbc as [->|[[? _]|[_ (m' & Hm' & ->)]]]; [|done|].
    + right. right. split; [done|]. by exists m.
    + right. right. split; [done|]. by exists m'.
Qed.

Lemma dump_entry_cwd (dir : string) (m : EmbeddedModule) (w : world) :
  cwd (dump_entry dir m w) = cwd w.
Proof.
  unfold dump_entry.
  set (w1 := match before_last slash _ with
             | Some parent => ensure_dir parent w
             | None => ensure_dir _ w
             end).
  assert (cwd w1 = cwd w) as H1.
  { unfold w1. destruct (before_last slash _); apply ensure_dir_cwd. }
  unfold fopen_w. destruct (namei w1 _) as [k|]; [|done].
  destruct (obj_at w1 k) as [[|d]|]; [done|..];
    unfold fputs; by destruct (obj_at _ k) as [[|?]|].
Qed.

Lemma dump_entry_change (dir : string) (m : EmbeddedModule) (w : world)
    (k : list string) :
  dump_change [m] (obj_at w k) (obj_at (dump_entry dir m w) k).
Proof.
  unfold dump_entry.
  set (w1 := match before_last slash _ with
             | Some parent => ensure_dir parent w
             | None => ensure_dir _ w
             end).
  assert (forall k, obj_at w1 k = obj_at w k
                    \/ (obj_at w k = None /\ obj_at w1 k = Some FDir)) as H1.
  { intros k0. unfold w1. destruct (before_last slash _); apply ensure_dir_objs. }
  assert (dump_change [m] (obj_at w k) (obj_at w1 k)) as Hw1.
  { destruct (H1 k) as [->|[-> ->]]; [by left|]. right. by left. }
  unfold fopen_w. destruct (namei w1 _) as [K|]; [|done].
  destruct (obj_at w1 K) as [o|] eqn:EK.
  - destruct o as [|d]; [done|].
    rewrite fopen_fputs_objs by (intros ->; done).
    destruct (decide (k = K)) as [->|]; [|done].
    right. right. split.
    + destruct (H1 K) as [E|[_ E]]; rewrite EK in E; [by rewrite <- E|done].
    + exists m. split; [by left|done].
  - rewrite fopen_fputs_objs by by eapply obj_at_None_nonroot.
    destruct (decide (k = K)) as [->|]; [|done].
    right. right. split.
    + destruct (H1 K) as [E|[_ E]]; rewrite EK in E; [by rewrite <- E|done].
    + exists m. split; [by left|done].
Qed.

Lemma dump_change_weaken (reg reg' : list EmbeddedModule) (a b : option fsobj) :
  (forall m, m ∈ reg -> m ∈ reg') -> dump_change reg a b -> dump_change reg' a b.
Proof.
  intros Hsub [->|[[-> ->]|[Ha (m & Hm & ->)]]]; [by left|right; by left|].
  right. right. split; [done|]. exists m. split; [by apply Hsub|done].
Qed.

Lemma dump_fold_change (reg0 l : list EmbeddedModule) (dir : string) :
  (forall m, m ∈ l -> m ∈ reg0) ->
  forall (w : world) (k : list string),
  dump_change reg0 (obj_at w k)
    (obj_at (fold_left (fun w m => dump_entry dir m w) l w) k).
Proof.
  induction l as [|m l IH]; intros Hsub w k; [by left|].
  cbn [fold_left]. eapply dump_change_trans.
  - eapply (dump_change_weaken [m]); [|apply dump_entry_change].
    intros m' Hm'. apply list_elem_of_singleton in Hm' as ->. apply Hsub. by left.
  - apply IH. intros m' Hm'. apply Hsub. by right.
Qed.

Lemma dump_fold_cwd (l : list EmbeddedModule) (dir : string) (w : world) :
  cwd (fold_left (fun w m => dump_entry dir m w) l w) = cwd w.
Proof.
  revert w. induction l as [|m l IH]; intros w; [done|].
  cbn [fold_left]. by rewrite IH, dump_entry_cwd.
Qed.

(** X17.  The dump never removes anything and never touches a directory,
    whatever the table, the target and the file system: afterwards every
    directory is still a directory, every regular file is still a
    regular file, holding what it held or the source of a module of the
    table, and where there was nothing there is nothing, a directory, or
    a file holding the source of a module of the table. *)
Theorem dump_never_destroys (reg : list EmbeddedModule) (dir : string) (w : world) :
  let w' := dumpEmbeddedStdlib reg dir w in
  cwd w' = cwd w
  /\ (forall k, dump_change reg (obj_at w k) (obj_at w' k))
  /\ (forall k, obj_at w k = Some FDir -> obj_at w' k = Some FDir)
  /\ (forall k data,
        obj_at w k = Some (FFile data) ->
        obj_at w' k = Some (FFile data)
        \/ exists m, m ∈ reg /\ obj_at w' k = Some (FFile (source m))).
Proof.
  intros w'. subst w'. rewrite dumpEmbeddedStdlib_fold.
  assert (forall k, dump_change reg (obj_at w k)
                      (obj_at (fold_left (fun w m => dump_entry dir m w) reg w) k))
    as H by (intros k; by apply dump_fold_change).
  split; [apply dump_fold_cwd|]. split; [done|]. split.
  - intros k Hk. destruct (H k) as [->|[[E _]|[E _]]]; [done|..];
      by rewrite Hk in E.
  - intros k data Hk. destruct (H k) as [->|[[E _]|[_ (m & Hm & ->)]]].
    + by left.
    + by rewrite Hk in E.
    + right. by exists m.
Qed.

Lemma dump_never_destroys_witness :
  obj_at (dumpEmbeddedStdlib [math_module] "out" stale_world) ["out"; "std"]
  = Some FDir
  /\ (obj_at (dumpEmbeddedStdlib [math_module] "out" stale_world)
        ["out"; "std"; "math.orus"] = Some (FFile "old")
      \/ exists m, m ∈ [math_module]
           /\ obj_at (dumpEmbeddedStdlib [math_module] "out" stale_world)
                ["out"; "std"; "math.orus"] = Some (FFile (source m))).
Proof.
  destruct (dump_never_destroys [math_module] "out" stale_world)
    as (_ & _ & Hdirs & Hfiles).
  split.
  - apply Hdirs. reflexivity.
  - apply Hfiles. reflexivity.
Defined.

(** *** Dumping again *)

(** All the jobs, in order, into a directory that need not be fresh: it
    is enough that nothing stands in the way of any of them. *)
Lemma dumped_all_clear (dir : string) (w : world) (todo : list job) :
  no_dotdot dir ->
  let start := path_start w (dir +:+ "/") in
  let t := lex_key start (split slash dir) in
  forall (done : list job) (w' : world),
  dumped w start t done w' ->
  Forall proper_job todo ->
  prefix_free (done ++ todo) ->
  Forall (fun j => String.length (dir +:+ "/" +:+ name (job_module j)) <= 511) todo ->
  obj_at w start = Some FDir ->
  Forall (fun j : job =>
            (forall k data, on_way start (t ++ j.1) k -> k <> t ++ j.1 ->
                            obj_at w k <> Some (FFile data))
            /\ obj_at w (t ++ j.1) <> Some FDir) todo ->
  dumped w start t (done ++ todo)
    (fold_left (fun w m => dump_entry dir m w) (map job_module todo) w').
Proof.
  intros Hdir start t.
  induction todo as [|j todo IH]; intros done w' Hd Hprop Hfree Hfits Hstart Hclear.
  - by rewrite app_nil_r.
  - inversion Hprop as [|? ? Hj Hprop']; subst.
    inversion Hfits as [|? ? Hfj Hfits']; subst.
    inversion Hclear as [|? ? [Hway Hnodir] Hclear']; subst.
    replace (done ++ j :: todo) with ((done ++ [j]) ++ todo) in *
      by (by rewrite <- app_assoc).
    cbn [map fold_left]. apply IH; try done.
    apply dumped_step; try done.
    intros j1 j2 H1 H2 Hp.
    apply Hfree; [apply elem_of_app; by left|apply elem_of_app; by left|done].
Qed.

(** X18.  Dumping a table of named files a second time into the
    directory it was just dumped into changes nothing: every path names
    the same object after the second dump as after the first. *)
Theorem dump_twice (jobs : list job) (dir : string) (w : world) :
  Forall proper_job jobs -> prefix_free jobs ->
  Forall (fun j => String.length (dir +:+ "/" +:+ name (job_module j)) <= 511)
    jobs ->
  no_dotdot dir -> fresh_target w dir ->
  let reg := map job_module jobs in
  let w1 := dumpEmbeddedStdlib reg dir w in
  let w2 := dumpEmbeddedStdlib reg dir w1 in
  cwd w2 = cwd w1 /\ forall k, obj_at w2 k = obj_at w1 k.
Proof.
  intros Hprop Hfree Hfit Hdir Hfresh reg w1 w2.
  set (start := path_start w (dir +:+ "/")).
  set (t := lex_key start (split slash dir)).
  assert (dumped w start t jobs w1) as D1.
  { unfold w1, reg. rewrite dumpEmbeddedStdlib_fold.
    exact (dumped_all dir w Hdir jobs [] w (dumped_nil dir w)
             Hprop Hfree Hfit Hfresh). }
  pose proof D1 as (Hcwd1 & Hfiles1 & Hdirs1 & _ & _ & Hkeep1).
  assert (path_start w1 (dir +:+ "/") = start) as Hstart1
    by by apply path_start_cwd.
  assert (dumped w1 start t jobs w2) as D2.
  { unfold w2, reg. rewrite dumpEmbeddedStdlib_fold.
    pose proof (dumped_all_clear dir w1 jobs Hdir [] w1) as H.
    cbn zeta in H. rewrite Hstart1 in H. fold t in H.
    apply H; try done.
    - pose proof (dumped_nil dir w1) as Hn. rewrite Hstart1 in Hn. exact Hn.
    - apply Hkeep1. by destruct Hfresh as [? _].
    - apply Forall_forall. intros j Hj. split.
      + intros k data Hk Hne. by rewrite (Hdirs1 j k Hj Hk Hne).
      + by rewrite (Hfiles1 j Hj). }
  destruct D2 as (Hcwd2 & Hfiles2 & _ & Hfold2 & Hdold2 & Hkeep2).
  split; [done|]. intros k.
  pose proof (dump_fold_change reg reg dir (fun m Hm => Hm) w1 k) as Hch.
  unfold w2 at 1. rewrite dumpEmbeddedStdlib_fold.
  destruct (obj_at (fold_left (fun w m => dump_entry dir m w) reg w1) k)
    as [[|d']|] eqn:E2.
  - unfold w2 in Hdold2. rewrite dumpEmbeddedStdlib_fold in Hdold2.
    destruct (Hdold2 k E2) as [->|(j & Hj & Hk & Hne)]; [done|].
    by rewrite (Hdirs1 j k Hj Hk Hne).
  - unfold w2 in Hfold2, Hfiles2. rewrite dumpEmbeddedStdlib_fold in Hfold2, Hfiles2.
    destruct (Hfold2 k d' E2) as [->|(j & Hj & ->)]; [done|].
    rewrite (Hfiles2 j Hj) in E2. injection E2 as <-. by rewrite (Hfiles1 j Hj).
  - destruct Hch as [E|[[_ E]|[_ (m & _ & E)]]]; [by rewrite <- E|done..].
Qed.

Lemma dump_twice_witness :
  obj_at (dumpEmbeddedStdlib (map job_module sample_jobs) "out"
            (dumpEmbeddedStdlib (map job_module sample_jobs) "out" empty_world))
    ["out"; "std"; "math.orus"]
  = obj_at (dumpEmbeddedStdlib (map job_module sample_jobs) "out" empty_world)
      ["out"; "std"; "math.orus"].
Proof.
  assert (Forall proper_job sample_jobs) as Hprop by (repeat constructor; done).
  assert (Forall (fun j => String.length ("out" +:+ "/" +:+ name (job_module j)) <= 511)
            sample_jobs) as Hfit by (repeat constructor; vm_compute; lia).
  assert (no_dotdot "out") as Hdir by (by repeat constructor).
  destruct (dump_twice sample_jobs "out" empty_world Hprop sample_jobs_prefix_free
              Hfit Hdir (empty_world_fresh "out")) as [_ H].
  apply H.
Defined.

(** *** The order of the table *)

(** The file system after a dump is told by what was there and by the
    set of jobs. *)
Lemma dumped_unique (w : world) (start t : list string) (jobs jobs' : list job)
    (reg reg' : list EmbeddedModule) (w1 w1' : world) :
  dumped w start t jobs w1 -> dumped w start t jobs' w1' ->
  (forall j, j ∈ jobs <-> j ∈ jobs') ->
  (forall k, dump_change reg (obj_at w k) (obj_at w1 k)) ->
  (forall k, dump_change reg' (obj_at w k) (obj_at w1' k)) ->
  forall k, obj_at w1 k = obj_at w1' k.
Proof.
  intros (_ & Hf & Hd & Hfold & Hdold & Hkeep)
         (_ & Hf' & Hd' & Hfold' & Hdold' & Hkeep') Hsame Hch Hch' k.
  destruct (obj_at w1 k) as [[|d]|] eqn:E.
  - destruct (Hdold k E) as [Hw|(j & Hj & Hk & Hne)].
    + symmetry. by apply Hkeep'.
    + symmetry. apply (Hd' j); [by apply Hsame|done|done].
  - destruct (Hfold k d E) as [Hw|(j & Hj & ->)].
    + destruct (Hch' k) as [->|[[H0 _]|[_ (m & _ & E')]]];
        [done|by rewrite Hw in H0|].
      destruct (Hfold' k _ E') as [Hw'|(j & Hj & ->)].
      * by rewrite E', <- Hw', Hw.
      * rewrite (Hf j) in E by by apply Hsame.
        by rewrite (Hf' j Hj), E.
    + rewrite (Hf j Hj) in E. rewrite (Hf' j) by by apply Hsame. done.
  - destruct (obj_at w1' k) as [[|d']|] eqn:E'; [| |done].
    + destruct (Hdold' k E') as [Hw|(j & Hj & Hk & Hne)].
      * by rewrite (Hkeep k Hw) in E.
      * rewrite (Hd j k) in E; [done|by apply Hsame|done|done].
    + destruct (Hfold' k d' E') as [Hw|(j & Hj & ->)].
      * destruct (Hch k) as [E0|[[H0 _]|[_ (m & _ & E0)]]].
        -- by rewrite E, Hw in E0.
        -- by rewrite Hw in H0.
        -- by rewrite E in E0.
      * rewrite (Hf j) in E; [done|by apply Hsame].
Qed.

(** X19.  The order of the table does not show in the dump: two tables
    of the same named files, in any two orders, dumped into a fresh
    directory leave the same object under every path. *)
Theorem dump_order_independent (jobs jobs' : list job) (dir : string) (w : world) :
  jobs ≡ₚ jobs' ->
  Forall proper_job jobs -> prefix_free jobs ->
  Forall (fun j => String.length (dir +:+ "/" +:+ name (job_module j)) <= 511)
    jobs ->
  no_dotdot dir -> fresh_target w dir ->
  forall k,
    obj_at (dumpEmbeddedStdlib (map job_module jobs) dir w) k
    = obj_at (dumpEmbeddedStdlib (map job_module jobs') dir w) k.
Proof.
  intros Hperm Hprop Hfree Hfit Hdir Hfresh.
  assert (forall j, j ∈ jobs <-> j ∈ jobs') as Hsame
    by (intros j; by rewrite Hperm).
  assert (Forall proper_job jobs') as Hprop' by by rewrite <- Hperm.
  assert (prefix_free jobs') as Hfree'.
  { intros j j' Hj Hj'. apply Hfree; by apply Hsame. }
  assert (Forall (fun j => String.length (dir +:+ "/" +:+ name (job_module j)) <= 511)
            jobs') as Hfit' by by rewrite <- Hperm.
  rewrite !dumpEmbeddedStdlib_fold.
  eapply dumped_unique.
  - exact (dumped_all dir w Hdir jobs [] w (dumped_nil dir w)
             Hprop Hfree Hfit Hfresh).
  - exact (dumped_all dir w Hdir jobs' [] w (dumped_nil dir w)
             Hprop' Hfree' Hfit' Hfresh).
  - exact Hsame.
  - intros k. by apply (dump_fold_change (map job_module jobs)).
  - intros k. by apply (dump_fold_change (map job_module jobs')).
Qed.

Lemma dump_order_independent_witness :
  obj_at (dumpEmbeddedStdlib (map job_module sample_jobs) "out" empty_world)
    ["out"; "std"; "io"; "file.orus"]
  = obj_at (dumpEmbeddedStdlib (map job_module (reverse sample_jobs)) "out"
              empty_world)
      ["out"; "std"; "io"; "file.orus"].
Proof.
  assert (Forall proper_job sample_jobs) as Hprop by (repeat constructor; done).
  assert (Forall (fun j => String.length ("out" +:+ "/" +:+ name (job_module j)) <= 511)
            sample_jobs) as Hfit by (repeat constructor; vm_compute; lia).
  assert (no_dotdot "out") as Hdir by (by repeat constructor).
  assert (sample_jobs ≡ₚ reverse sample_jobs) as Hperm
    by (symmetry; apply reverse_Permutation).
  apply (dump_order_independent sample_jobs (reverse sample_jobs) "out" empty_world
           Hperm Hprop sample_jobs_prefix_free Hfit Hdir (empty_world_fresh "out")).
Defined.

(** ** Text mode in the scan *)

Lemma universal_newlines_no_cr (bytes : string) :
  has_char creturn (universal_newlines bytes) = false.
Proof.
  assert (forall n s, String.length s <= n ->
            has_char creturn (universal_newlines s) = false) as H.
  { intros n. induction n as [|n IH]; intros [|c s] Hlen; simpl in *; try done; try lia.
    case_decide as Hc.
    - destruct s as [|c' s]; [done|]. case_decide; simpl.
      + apply IH. simpl in Hlen. lia.
      + apply (IH (String c' s)). lia.
    - simpl. rewrite decide_False by done. apply IH. lia. }
  by apply (H (String.length bytes)).
Qed.

Lemma for_each_invariant {A S} (I : S -> Prop) (body : S -> A -> result S)
    (l : list A) (s s' : S) :
  (forall s x s', I s -> body s x = Ok s' -> I s') ->
  I s -> for_each body l s = Ok s' -> I s'.
Proof.
  intros Hbody. revert s. induction l as [|x l IH]; intros s Hs; simpl.
  - by intros [= <-].
  - destruct (body s x) as [s1|] eqn:E; [|done]. cbn [mbind result_bind].
    apply IH. by apply (Hbody s x).
Qed.

(** X20.  No module the scan returns holds a carriage return in its
    source, whatever the files hold and however the tree is made. *)
Theorem scan_sources_no_cr (cwd src_dir : string) (root : option node)
    (modules : list module) :
  scan cwd src_dir root = Ok modules ->
  Forall (fun m : module => has_char creturn m.2 = false) modules.
Proof.
  unfold scan. apply for_each_invariant; [|constructor].
  intros ms [[top ds] fs] ms' Hms. unfold scan_dir. cbn [fst snd].
  apply for_each_invariant; [|done]. clear.
  intros ms f ms' Hms. unfold scan_file.
  destruct (endswith f.1 ".orus"); [|by intros [= <-]].
  destruct (posixpath.relpath _ _ _) as [rel|]; [|done].
  cbn [mbind result_bind]. unfold open_read.
  destruct f.2 as [bytes|]; [|done]. cbn [mbind result_bind].
  intros [= <-]. apply Forall_app. split; [done|].
  constructor; [|constructor]. apply universal_newlines_no_cr.
Qed.

Lemma scan_sources_no_cr_witness :
  Forall (fun m : module => has_char creturn m.2 = false)
    [("std/a.orus", "x" +:+ NL +:+ "y")].
Proof.
  apply (scan_sources_no_cr "/" "stdlib" (Some crlf_tree)). reflexivity.
Defined.

(** ** The buffers of the dump *)

Lemma truncate_length (n : nat) (s : string) : String.length (truncate n s) <= n.
Proof.
  revert s. induction n as [|n IH]; intros [|c s]; simpl; try lia.
  specialize (IH s). lia.
Qed.

Lemma before_last_length (c : ascii) (s pre : string) :
  before_last c s = Some pre -> String.length pre < String.length s.
Proof.
  revert pre. induction s as [|d s IH]; intros pre; simpl; [done|].
  destruct (before_last c s) as [pre'|].
  - intros [= <-]. simpl. specialize (IH pre' eq_refl). lia.
  - case_decide; [|done]. intros [= <-]. simpl. lia.
Qed.

(** X21.  The two buffers of the dump never cut a path twice: what
    [snprintf] leaves in [full] is at most 511 characters long, and the
    path [ensure_dir] is then given, the text of [full] before its last
    slash or all of it, fits the 511 characters of [tmp] whole. *)
Theorem dump_buffers_fit (dir : string) (m : EmbeddedModule) :
  let full := truncate 511 (dir +:+ "/" +:+ name m) in
  String.length full <= 511
  /\ match before_last slash full with
     | Some parent => String.length parent <= 510 /\ truncate 511 parent = parent
     | None => truncate 511 full = full
     end.
Proof.
  intros full. pose proof (truncate_length 511 (dir +:+ "/" +:+ name m)) as H.
  fold full in H. split; [done|].
  destruct (before_last slash full) as [parent|] eqn:E.
  - apply before_last_length in E. split; [lia|]. apply truncate_fits. lia.
  - by apply truncate_fits.
Qed.

(** ** Where the dump writes *)

(** A name with backslashes can climb out of the target directory. *)
Example dump_climbs_out :
  scan "/" "stdlib" (Some climbing_tree) = Ok [("std/../../x.orus", "x")]
  /\ (fun w' => (file_at w' "x.orus", dir_at w' "out/std"))
       <$> round_trip "/" "stdlib" climbing_tree "out" empty_world
     = Some (Some "x", true).
Proof. by vm_compute. Qed.

(** X22.  A table of named files dumped into a fresh directory changes
    nothing outside it: every path that names another object after the
    dump than before lies on the way to the target directory or below
    it. *)
Theorem dump_contained (jobs : list job) (dir : string) (w : world)
    (k : list string) :
  Forall proper_job jobs -> prefix_free jobs ->
  Forall (fun j => String.length (dir +:+ "/" +:+ name (job_module j)) <= 511)
    jobs ->
  no_dotdot dir -> fresh_target w dir ->
  let start := path_start w (dir +:+ "/") in
  let t := lex_key start (split slash dir) in
  obj_at (dumpEmbeddedStdlib (map job_module jobs) dir w) k <> obj_at w k ->
  on_way start t k \/ t `prefix_of` k.
Proof.
  intros Hprop Hfree Hfit Hdir Hfresh start t Hne.
  pose proof (dumped_all dir w Hdir jobs [] w (dumped_nil dir w)
                Hprop Hfree Hfit Hfresh) as D.
  fold start t in D. cbn [app] in D.
  rewrite dumpEmbeddedStdlib_fold in Hne.
  destruct D as (_ & _ & _ & Hfold & Hdold & _).
  pose proof (dump_fold_change (map job_module jobs) (map job_module jobs) dir
                (fun m Hm => Hm) w k) as Hch.
  destruct (obj_at (fold_left _ _ w) k) as [[|d]|] eqn:E.
  - destruct (Hdold k E) as [Hw|(j & Hj & [Hk1 Hk2] & _)];
      [by rewrite Hw in Hne|].
    destruct (prefix_weak_total k t (t ++ j.1)) as [H|H];
      [done|by apply prefix_app_r|by left|by right].
  - destruct (Hfold k d E) as [Hw|(j & Hj & ->)];
      [by rewrite Hw in Hne|].
    right. by apply prefix_app_r.
  - destruct Hch as [E0|[[_ E0]|[_ (m & _ & E0)]]]; [|done..].
    by rewrite E0 in Hne.
Qed.

Lemma dump_contained_witness :
  obj_at (dumpEmbeddedStdlib (map job_module sample_jobs) "out" empty_world)
    ["out"; "std"] <> obj_at empty_world ["out"; "std"]
  /\ (on_way [] ["out"] ["out"; "std"] \/ ["out"] `prefix_of` ["out"; "std"]).
Proof.
  assert (Forall proper_job sample_jobs) as Hprop by (repeat constructor; done).
  assert (Forall (fun j => String.length ("out" +:+ "/" +:+ name (job_module j)) <= 511)
            sample_jobs) as Hfit by (repeat constructor; vm_compute; lia).
  assert (no_dotdot "out") as Hdir by (by repeat constructor).
  assert (obj_at (dumpEmbeddedStdlib (map job_module sample_jobs) "out" empty_world)
            ["out"; "std"] <> obj_at empty_world ["out"; "std"]) as Hne
    by (vm_compute; discriminate).
  split; [exact Hne|].
  exact (dump_contained sample_jobs "out" empty_world ["out"; "std"]
           Hprop sample_jobs_prefix_free Hfit Hdir (empty_world_fresh "out") Hne).
Defined.

(** ** The table as the C compiler reads it *)



(** ** Scanning what was dumped *)

(** The objects below a fresh target directory after a dump. *)
Lemma dumped_below (dir : string) (w w' : world) (jobs : list job)
    (k : list string) :
  no_dotdot dir -> fresh_target w dir ->
  let start := path_start w (dir +:+ "/") in
  let t := lex_key start (split slash dir) in
  dumped w start t jobs w' ->
  t `prefix_of` k -> k <> t ->
  (forall d, obj_at w' k = Some (FFile d)
             <-> exists j, j ∈ jobs /\ k = t ++ j.1 /\ d = j.2)
  /\ (obj_at w' k = Some FDir
      <-> exists j, j ∈ jobs /\ k `prefix_of` t ++ j.1 /\ k <> t ++ j.1).
Proof.
  intros Hdir (_ & _ & Hbelow) start t (_ & Hf & Hd & Hfold & Hdold & _) Hk Hne.
  fold start t in Hbelow.
  assert (obj_at w k = None) as Hnone by by apply Hbelow.
  split.
  - intros d. split.
    + intros E. destruct (Hfold k d E) as [Hw|(j & Hj & ->)];
        [by rewrite Hnone in Hw|].
      exists j. split; [done|]. split; [done|].
      rewrite (Hf j Hj) in E. by injection E.
    + intros (j & Hj & -> & ->). by apply Hf.
  - split.
    + intros E. destruct (Hdold k E) as [Hw|(j & Hj & [_ Hp] & Hne')];
        [by rewrite Hnone in Hw|].
      by exists j.
    + intros (j & Hj & Hp & Hne'). apply (Hd j); [done| |done].
      split; [|done]. etrans; [|exact Hk]. by apply start_t.
Qed.

Lemma files_of_dir_elem (es : list (string * node)) (x : file_entry) :
  x ∈ files_of (Dir (Some es)) <-> exists e, e ∈ es /\ x ∈ entry_files e.
Proof.
  rewrite files_of_entries, list_elem_of_In, in_flat_map.
  split; intros (e & He & Hx); exists e; by rewrite ?list_elem_of_In in *.
Qed.

Lemma wf_tree_dir_intro (es : list (string * node)) :
  NoDup es.*1 -> Forall (fun e => proper_name e.1 /\ wf_tree e.2) es ->
  wf_tree (Dir (Some es)).
Proof.
  intros Hnd Hes. cbn [wf_tree]. apply andb_prop_intro. split.
  - by apply bool_decide_pack.
  - apply forallb_True. eapply Forall_impl; [exact Hes|].
    intros e [H1 H2]. apply andb_prop_intro. by split.
Qed.

(** The tree read back below [std] is well formed, and its files are the
    jobs of the table. *)
Lemma reads_as_files (w' : world) (t : list string) (jobs : list job) :
  Forall proper_job jobs -> prefix_free jobs ->
  (forall k, t `prefix_of` k -> k <> t ->
     (forall d, obj_at w' k = Some (FFile d)
                <-> exists j, j ∈ jobs /\ k = t ++ j.1 /\ d = j.2)
     /\ (obj_at w' k = Some FDir
         <-> exists j, j ∈ jobs /\ k `prefix_of` t ++ j.1 /\ k <> t ++ j.1)) ->
  forall (n : node) (p : list string),
  reads_as w' (t ++ "std" :: p) n ->
  wf_tree n
  /\ forall x : file_entry,
       x ∈ files_of n
       <-> exists j, j ∈ jobs /\ j.1 = "std" :: p ++ x.1.1 ++ [x.1.2]
                     /\ x.2 = Some j.2.
Proof.
  intros Hprop Hfree Hobjs. rewrite Forall_forall in Hprop.
  assert (forall p, t `prefix_of` t ++ "std" :: p /\ t ++ "std" :: p <> t) as Hbelow.
  { intros p. split; [by apply prefix_app_r|].
    intros H. rewrite <- (app_nil_r t) in H at 2. by apply app_inv_head in H. }
  assert (forall p nm, (t ++ "std" :: p) ++ [nm] = t ++ "std" :: (p ++ [nm])) as Hsnoc.
  { intros p nm. by rewrite <- app_assoc. }
  induction n as [d| |es IH] using node_ind; intros p Hread.
  - split; [done|]. intros x. split; [by intros H; apply elem_of_nil in H|].
    intros (j & Hj & Hpath & _). exfalso.
    inversion Hread as [K d' Hobj|]; subst.
    destruct (Hbelow p) as [Hp Hne].
    destruct (Hobjs _ Hp Hne) as [HF _].
    apply HF in Hobj as (j' & Hj' & HK & _). apply app_inv_head in HK.
    assert (j' = j) as ->.
    { apply Hfree; [done|done|]. rewrite <- HK, Hpath.
      apply prefix_cons, prefix_app_r. done. }
    rewrite Hpath in HK. injection HK as HK.
    rewrite <- (app_nil_r p) in HK at 1. apply app_inv_head in HK.
    by destruct (x.1.1).
  - inversion Hread.
  - inversion Hread as [|K es' Hobj Hnd Hnames Hkids]; subst.
    rewrite Forall_forall in IH, Hkids.
    assert (forall e, e ∈ es ->
              reads_as w' (t ++ "std" :: (p ++ [e.1])) e.2) as Hkid.
    { intros e He. rewrite <- Hsnoc. by apply Hkids. }
    assert (forall nm, nm ∈ es.*1 ->
              exists j rest, j ∈ jobs /\ j.1 = "std" :: p ++ [nm] ++ rest) as Hcomp.
    { intros nm Hnm. apply Hnames in Hnm. rewrite Hsnoc in Hnm.
      destruct (Hbelow (p ++ [nm])) as [Hp Hne].
      destruct (Hobjs _ Hp Hne) as [HF HD].
      destruct (obj_at w' (t ++ "std" :: p ++ [nm])) as [[|d]|] eqn:E; [| |done].
      - destruct HD as [HD _]. destruct (HD eq_refl) as (j & Hj & [rest Hr] & _).
        exists j, rest. split; [done|].
        rewrite <- app_assoc in Hr. apply app_inv_head in Hr.
        rewrite Hr. cbn [app]. by rewrite <- app_assoc.
      - destruct (HF d) as [HF' _]. destruct (HF' eq_refl) as (j & Hj & HK & _).
        exists j, []. split; [done|]. apply app_inv_head in HK.
        by rewrite app_nil_r. }
    split.
    + apply wf_tree_dir_intro; [done|]. apply Forall_forall. intros e He. split.
      * destruct (Hcomp e.1) as (j & rest & Hj & Hpath).
        { apply list_elem_of_fmap. by exists e. }
        destruct (Hprop j Hj) as [_ Hpj]. rewrite Hpath in Hpj.
        inversion Hpj as [|? ? _ Hpj']; subst.
        apply Forall_app in Hpj' as [_ Hpj'].
        by inversion Hpj'.
      * by destruct (IH e He (p ++ [e.1]) (Hkid e He)).
    + intros x. rewrite files_of_dir_elem. split.
      * intros ([nm sub] & He & Hx). specialize (Hkid _ He). cbn [fst snd] in Hkid.
        unfold entry_files in Hx. cbn [fst snd] in Hx. destruct sub as [d|l].
        -- apply list_elem_of_singleton in Hx as ->. cbn [fst snd].
           inversion Hkid as [K d' Hobj'|]; subst.
           destruct (Hbelow (p ++ [nm])) as [Hp Hne].
           destruct (Hobjs _ Hp Hne) as [HF _].
           apply HF in Hobj' as (j & Hj & HK & ->). apply app_inv_head in HK.
           exists j. by rewrite <- HK.
        -- change (x ∈ (fun x : file_entry => (nm :: x.1.1, x.1.2, x.2))
                         <$> files_of (Dir l)) in Hx.
           apply list_elem_of_fmap in Hx as (x' & -> & Hx'). cbn [fst snd].
           destruct (IH _ He (p ++ [nm]) Hkid) as [_ Hsub].
           apply Hsub in Hx' as (j & Hj & Hpath & Hdata).
           exists j. split; [done|]. split; [|done].
           rewrite Hpath. by rewrite <- !app_assoc.
      * intros (j & Hj & Hpath & Hdata).
        destruct x as [[ds f] d]. cbn [fst snd] in *. subst d.
        destruct ds as [|nm ds].
        -- cbn [app] in Hpath.
           destruct (Hbelow (p ++ [f])) as [Hp Hne].
           destruct (Hobjs _ Hp Hne) as [HF _].
           assert (obj_at w' (t ++ "std" :: p ++ [f]) = Some (FFile j.2)) as Hobj'.
           { apply HF. exists j. by rewrite Hpath. }
           assert (f ∈ es.*1) as Hin.
           { apply Hnames. rewrite Hsnoc, Hobj'. done. }
           apply list_elem_of_fmap in Hin as ([f' sub] & Hf' & He).
           cbn [fst] in Hf'. subst f'.
           exists (f, sub). split; [done|].
           specialize (Hkid _ He). cbn [fst snd] in Hkid.
           inversion Hkid as [K d' Hobj''|K es' Hobj'' _ _ _]; subst;
             rewrite Hobj' in Hobj''; [|done].
           injection Hobj'' as <-. unfold entry_files. cbn [fst snd].
           by apply list_elem_of_singleton.
        -- destruct (Hbelow (p ++ [nm])) as [Hp Hne].
           destruct (Hobjs _ Hp Hne) as [_ HD].
           assert (obj_at w' (t ++ "std" :: p ++ [nm]) = Some FDir) as Hobj'.
           { apply HD. exists j. split; [done|]. rewrite Hpath. split.
             - apply prefix_app, prefix_cons, prefix_app.
               cbn [app]. apply prefix_cons, prefix_nil.
             - intros HE. apply app_inv_head in HE. injection HE as HE.
               apply app_inv_head in HE. by destruct ds. }
           assert (nm ∈ es.*1) as Hin.
           { apply Hnames. rewrite Hsnoc, Hobj'. done. }
           apply list_elem_of_fmap in Hin as ([nm' sub] & Hnm' & He).
           cbn [fst] in Hnm'. subst nm'.
           exists (nm, sub). split; [done|].
           pose proof (Hkid _ He) as Hk'. cbn [fst snd] in Hk'.
           inversion Hk' as [K d' Hobj''|K es' Hobj'' _ _ _]; subst;
             rewrite Hobj' in Hobj''; [done|].
           unfold entry_files. cbn [fst snd].
           change ((nm :: ds, f, Some j.2) ∈
                     (fun x : file_entry => (nm :: x.1.1, x.1.2, x.2))
                       <$> files_of (Dir (Some es'))).
           apply list_elem_of_fmap. exists (ds, f, Some j.2). split; [done|].
           destruct (IH _ He (p ++ [nm]) Hk') as [_ Hsub].
           apply Hsub. exists j. split; [done|]. split; [|done].
           cbn [fst snd]. rewrite Hpath. by rewrite <- !app_assoc.
Qed.

Lemma mapM_Permutation {A B} (f : A -> option B) (l l' : list A) (k : list B) :
  l ≡ₚ l' -> mapM f l = Some k ->
  exists k', mapM f l' = Some k' /\ k' ≡ₚ k.
Proof.
  intros Hp Hk. assert (is_Some (mapM f l')) as [k' Hk'].
  { apply mapM_is_Some. rewrite <- Hp. apply mapM_is_Some. by rewrite Hk. }
  exists k'. split; [done|]. apply mapM_omap in Hk, Hk'. subst. by rewrite Hp.
Qed.

Lemma path_key_std (w : world) (dir : string) :
  no_dotdot dir ->
  path_key w (dir +:+ "/std")
  = lex_key (path_start w (dir +:+ "/")) (split slash dir) ++ ["std"].
Proof.
  intros _. unfold path_key.
  assert (path_start w (dir +:+ "/std") = path_start w (dir +:+ "/")) as ->.
  { unfold path_start. by destruct dir. }
  change (dir +:+ "/std") with (dir +:+ String slash "std").
  rewrite split_app_sep. change (split slash "std") with ["std"].
  by rewrite lex_key_app.
Qed.



